(** * pmd-java-rules-ui: catalogue builder, tier annotator and viewer

    A shallow embedding of the three scripts of the repository:

    - the converter (XML rule files to [rules_data.js]): [extractAttr],
      [stripCdata], [extractFirstElement], [extractExamples],
      [extractProperties], [parseXmlFile] and its [main];
    - [add_tiers.js]: the [main] that merges [TIER_MAP] into the catalogue;
    - [app.js]: [loadRules], [updateCounts], [applyFilters], [debounce],
      [renderRules] (the page slice and the bar), [renderPagination] with
      its click listener, and [formatDescription].

    JavaScript strings are sequences of UTF-16 code units; they are modelled
    as lists of code units ([N]).  The regular expressions of the scripts are
    kept as syntax trees and run by a backtracking matcher with the priority
    order of the ECMAScript semantics (greedy and lazy stars, ordered
    alternation, captures). *)

From Stdlib Require Import ZArith NArith List Bool Lia String Ascii.
From Stdlib Require Import Permutation Sorted DecimalFacts DecimalPos DecimalN.
From stdpp Require Import base gmap.
Import ListNotations.

#[local] Unset Default Proof Using.
#[local] Set Warnings "-register-all".
#[local] Open Scope list_scope.

(* ===================================================================== *)
(** * Strings *)
(* ===================================================================== *)

Module JsStr.

(** A UTF-16 code unit. *)
Definition cu := N.
Definition str := list cu.

(** An ASCII literal of the script, as code units. *)
Definition lit (s : string) : str :=
  List.map N_of_ascii (list_ascii_of_string s).

Definition str_eqb (a b : str) : bool := bool_decide (a = b).

(** WhiteSpace and LineTerminator code points of ECMAScript: the set that
    [\s] matches and that [String.prototype.trim] and [parseInt] strip. *)
Definition isSpace (c : cu) : bool :=
  ((9 <=? c) && (c <=? 13) || (c =? 32) || (c =? 160) || (c =? 5760)
   || (8192 <=? c) && (c <=? 8202) || (c =? 8232) || (c =? 8233)
   || (c =? 8239) || (c =? 8287) || (c =? 12288) || (c =? 65279))%N.

(** [\w]: ASCII letters, digits and the underscore. *)
Definition isWord (c : cu) : bool :=
  ((48 <=? c) && (c <=? 57) || (65 <=? c) && (c <=? 90)
   || (97 <=? c) && (c <=? 122) || (c =? 95))%N.

Fixpoint trimStart (s : str) : str :=
  match s with
  | c :: t => if isSpace c then trimStart t else s
  | [] => []
  end.

Definition trimEnd (s : str) : str := rev (trimStart (rev s)).

(** [s.trim()] *)
Definition trim (s : str) : str := trimEnd (trimStart s).

Fixpoint startsWith (p s : str) : bool :=
  match p, s with
  | [], _ => true
  | a :: p', b :: s' => (a =? b)%N && startsWith p' s'
  | _ :: _, [] => false
  end.

(** [s.includes(t)] *)
Fixpoint includes (s t : str) : bool :=
  startsWith t s ||
  match s with
  | [] => false
  | _ :: s' => includes s' t
  end.

(** [s.endsWith(t)] *)
Definition endsWith (s t : str) : bool := startsWith (rev t) (rev s).

End JsStr.
Import JsStr.

(* ===================================================================== *)
(** * Regular expressions *)
(* ===================================================================== *)

Module Regex.

(** One-character atoms. *)
Inductive atom : Type :=
| AChr (c : cu)      (* a literal character *)
| ANot (c : cu)      (* [^c] *)
| ASpace             (* \s *)
| AAny.              (* [\s\S] *)

(** The fragment of the ECMAScript pattern language that the scripts use.
    Every quantifier of the scripts is applied to a one-character atom. *)
Inductive re : Type :=
| Atom (a : atom)
| Lit (s : str)                    (* a run of literal characters *)
| Seq (r1 r2 : re)
| Alt (r1 r2 : re)                 (* r1|r2, r1 tried first *)
| Star (greedy : bool) (a : atom)  (* a* and a*? *)
| Group (i : nat) (r : re)         (* the i-th capturing group *)
| Bol                              (* ^ (no m flag) *)
| Eol                              (* $ (no m flag) *)
| WordB.                           (* \b *)

(** a+ *)
Definition Plus (a : atom) : re := Seq (Atom a) (Star true a).

(** Canonicalize of the [i] flag without the [u] flag: a code unit is
    compared through its upper-case form, and a non-ASCII code unit never
    canonicalizes to an ASCII one.  All pattern characters of the scripts
    are ASCII, so only the ASCII letters are folded. *)
Definition canon (c : cu) : cu :=
  if ((97 <=? c) && (c <=? 122))%N then (c - 32)%N else c.

Definition chr_match (ci : bool) (p c : cu) : bool :=
  if ci then (canon p =? canon c)%N else (p =? c)%N.

Definition atom_match (ci : bool) (a : atom) (c : cu) : bool :=
  match a with
  | AChr p => chr_match ci p c
  | ANot p => negb (chr_match ci p c)
  | ASpace => isSpace c
  | AAny => true
  end.

(** Captures: group number to captured text; an unset group is
    [undefined]. *)
Definition caps := list (nat * str).

Definition cap_get (cs : caps) (i : nat) : option str :=
  match List.find (fun p => Nat.eqb (fst p) i) cs with
  | Some p => Some (snd p)
  | None => None
  end.

(** A position in the input: the text before it, reversed, and the text
    from it on. *)
Record mstate : Type := MState {
  st_pre : str;
  st_rest : str;
  st_caps : caps
}.

Definition cont := str -> str -> caps -> option mstate.

Fixpoint lit_match (ci : bool) (p : str) (pre rest : str)
  : option (str * str) :=
  match p with
  | [] => Some (pre, rest)
  | a :: p' =>
      match rest with
      | c :: t => if chr_match ci a c then lit_match ci p' (c :: pre) t
                  else None
      | [] => None
      end
  end.

(** Greedy star: take as many characters as possible, give back one at a
    time while the continuation fails. *)
Fixpoint star_greedy (ci : bool) (a : atom) (pre rest : str) (cs : caps)
  (k : cont) : option mstate :=
  match rest with
  | c :: t =>
      if atom_match ci a c then
        match star_greedy ci a (c :: pre) t cs k with
        | Some r => Some r
        | None => k pre rest cs
        end
      else k pre rest cs
  | [] => k pre rest cs
  end.

(** Lazy star: try the continuation first, take one more character each
    time it fails. *)
Fixpoint star_lazy (ci : bool) (a : atom) (pre rest : str) (cs : caps)
  (k : cont) : option mstate :=
  match k pre rest cs with
  | Some r => Some r
  | None =>
      match rest with
      | c :: t =>
          if atom_match ci a c then star_lazy ci a (c :: pre) t cs k
          else None
      | [] => None
      end
  end.

Definition last_is_word (pre : str) : bool :=
  match pre with c :: _ => isWord c | [] => false end.

(** The text consumed between two positions, the first given by the
    length of its reversed prefix. *)
Definition consumed (n0 : nat) (pre' : str) : str :=
  rev (firstn (length pre' - n0) pre').

(** The backtracking matcher, in continuation-passing style: [k] is what
    remains to be matched after [r]. *)
Fixpoint mt (ci : bool) (r : re) (pre rest : str) (cs : caps) (k : cont)
  : option mstate :=
  match r with
  | Atom a =>
      match rest with
      | c :: t => if atom_match ci a c then k (c :: pre) t cs else None
      | [] => None
      end
  | Lit p =>
      match lit_match ci p pre rest with
      | Some (pre', rest') => k pre' rest' cs
      | None => None
      end
  | Seq r1 r2 =>
      mt ci r1 pre rest cs (fun pre' rest' cs' => mt ci r2 pre' rest' cs' k)
  | Alt r1 r2 =>
      match mt ci r1 pre rest cs k with
      | Some m => Some m
      | None => mt ci r2 pre rest cs k
      end
  | Star true a => star_greedy ci a pre rest cs k
  | Star false a => star_lazy ci a pre rest cs k
  | Group i r1 =>
      mt ci r1 pre rest cs
         (fun pre' rest' cs' =>
            k pre' rest' ((i, consumed (length pre) pre') :: cs'))
  | Bol => match pre with [] => k pre rest cs | _ :: _ => None end
  | Eol => match rest with [] => k pre rest cs | _ :: _ => None end
  | WordB =>
      if xorb (last_is_word pre)
              (match rest with c :: _ => isWord c | [] => false end)
      then k pre rest cs else None
  end.

(** A successful match: the text before it, the matched text [m[0]], the
    captures and the text after it. *)
Record rmatch : Type := RMatch {
  m_before : str;
  m_0 : str;
  m_caps : caps;
  m_after : str
}.

Definition m_group (m : rmatch) (i : nat) : option str := cap_get (m_caps m) i.

(** A match starting exactly at the position [(pre, rest)]. *)
Definition match_at (ci : bool) (r : re) (pre rest : str) : option rmatch :=
  match mt ci r pre rest [] (fun p q c => Some (MState p q c)) with
  | Some st =>
      Some (RMatch (rev pre) (consumed (length pre) (st_pre st))
                   (st_caps st) (st_rest st))
  | None => None
  end.

(** The leftmost match at or after the position. *)
Fixpoint search_from (ci : bool) (r : re) (pre rest : str) : option rmatch :=
  match match_at ci r pre rest with
  | Some m => Some m
  | None =>
      match rest with
      | c :: t => search_from ci r (c :: pre) t
      | [] => None
      end
  end.

(** [s.match(r)] and [r.exec(s)] for a pattern without the [g] flag. *)
Definition rx_match (ci : bool) (r : re) (s : str) : option rmatch :=
  search_from ci r [] s.

(** [r.test(s)] *)
Definition rx_test (ci : bool) (r : re) (s : str) : bool :=
  match rx_match ci r s with Some _ => true | None => false end.

(** [while ((m = r.exec(s)) !== null)] for a pattern with the [g] flag:
    all matches, each search starting where the previous match ended.
    [skip] counts the characters of the last match still to be passed.
    A match of the scripts' global patterns is never empty (see
    [global_patterns_nonempty] below), so [lastIndex] always advances. *)
Fixpoint scan (ci : bool) (r : re) (pre rest : str) (skip : nat)
  : list rmatch :=
  match skip with
  | S n =>
      match rest with
      | c :: t => scan ci r (c :: pre) t n
      | [] => []
      end
  | O =>
      match match_at ci r pre rest with
      | Some m =>
          m :: match rest with
               | c :: t => scan ci r (c :: pre) t (length (m_0 m) - 1)
               | [] => []
               end
      | None =>
          match rest with
          | c :: t => scan ci r (c :: pre) t 0
          | [] => []
          end
      end
  end.

Definition exec_all (ci : bool) (r : re) (s : str) : list rmatch :=
  scan ci r [] s 0.

(** [s.replace(r, t)] for a pattern without the [g] flag and a
    replacement text [t] free of [$]: the first match is replaced. *)
Definition replace_first (ci : bool) (r : re) (t s : str) : str :=
  match rx_match ci r s with
  | Some m => m_before m ++ t ++ m_after m
  | None => s
  end.

(** [s.replace(/p/g, t)] for a literal pattern [p], non-empty. *)
Fixpoint replace_lit (p t : str) (s : str) (skip : nat) : str :=
  match skip with
  | S n => match s with _ :: s' => replace_lit p t s' n | [] => [] end
  | O =>
      match s with
      | [] => []
      | c :: s' =>
          if startsWith p s then t ++ replace_lit p t s' (length p - 1)
          else c :: replace_lit p t s' 0
      end
  end.

Definition replace_all (p t s : str) : str := replace_lit p t s 0.

(** A lower bound on the length of a match. *)
Fixpoint min_len (r : re) : nat :=
  match r with
  | Atom _ => 1
  | Lit s => length s
  | Seq r1 r2 => min_len r1 + min_len r2
  | Alt r1 r2 => Nat.min (min_len r1) (min_len r2)
  | Group _ r1 => min_len r1
  | Star _ _ | Bol | Eol | WordB => 0
  end.

(** The position [(pre', rest')] is the position [(pre, rest)] moved
    forward by at least [n] characters of the same text. *)
Definition advanced (n : nat) (pre rest pre' rest' : str) : Prop :=
  exists x, pre' = x ++ pre /\ rest = rev x ++ rest' /\ n <= length x.

End Regex.
Import Regex.

(* ===================================================================== *)
(** * Numbers *)
(* ===================================================================== *)

Module JsNum.

(** The Number values that the scripts can hold in [priority] and [tier]:
    an integer-valued double, or an infinity.  [NaN] is the [None] of
    [parseInt] below; the two zeros are not told apart (both are falsy and
    both print as [0]). *)
Inductive num : Type :=
| Fin (z : Z)
| Inf (neg : bool).

Definition num_eqb (a b : num) : bool :=
  match a, b with
  | Fin x, Fin y => (x =? y)%Z
  | Inf x, Inf y => Bool.eqb x y
  | _, _ => false
  end.

(** The Number value of a mathematical integer: round to nearest, ties to
    even, on a 53-bit significand; an overflow gives an infinity. *)
Definition toNumber (z : Z) : num :=
  let a := Z.abs z in
  if (a <? 2 ^ 53)%Z then Fin z
  else
    let e := (Z.log2 a - 52)%Z in
    let q := (a / 2 ^ e)%Z in
    let r := (a mod 2 ^ e)%Z in
    let half := (2 ^ (e - 1))%Z in
    let q' := if ((half <? r) || ((r =? half) && Z.odd q))%Z
              then (q + 1)%Z else q in
    let v := (q' * 2 ^ e)%Z in
    if (2 ^ 1024 <=? v)%Z then Inf (z <? 0)%Z
    else Fin (if (z <? 0)%Z then (- v)%Z else v).

(** Integers that a double holds exactly and that print digit by digit. *)
Definition safe (z : Z) : Prop := (Z.abs z <= 2 ^ 53)%Z.
Definition safeb (z : Z) : bool := (Z.abs z <=? 2 ^ 53)%Z.

Definition dec_digit (c : cu) : option (Decimal.uint -> Decimal.uint) :=
  match c with
  | 48 => Some Decimal.D0 | 49 => Some Decimal.D1 | 50 => Some Decimal.D2
  | 51 => Some Decimal.D3 | 52 => Some Decimal.D4 | 53 => Some Decimal.D5
  | 54 => Some Decimal.D6 | 55 => Some Decimal.D7 | 56 => Some Decimal.D8
  | 57 => Some Decimal.D9
  | _ => None
  end%N.

(** The longest prefix of decimal digits, and the text after it. *)
Fixpoint read_uint (s : str) : Decimal.uint * str :=
  match s with
  | c :: t =>
      match dec_digit c with
      | Some d => let (u, r) := read_uint t in (d u, r)
      | None => (Decimal.Nil, s)
      end
  | [] => (Decimal.Nil, [])
  end.

Fixpoint uint_str (u : Decimal.uint) : str :=
  match u with
  | Decimal.Nil => []
  | Decimal.D0 u => 48%N :: uint_str u | Decimal.D1 u => 49%N :: uint_str u
  | Decimal.D2 u => 50%N :: uint_str u | Decimal.D3 u => 51%N :: uint_str u
  | Decimal.D4 u => 52%N :: uint_str u | Decimal.D5 u => 53%N :: uint_str u
  | Decimal.D6 u => 54%N :: uint_str u | Decimal.D7 u => 55%N :: uint_str u
  | Decimal.D8 u => 56%N :: uint_str u | Decimal.D9 u => 57%N :: uint_str u
  end.

Definition hex_digit (c : cu)
  : option (Hexadecimal.uint -> Hexadecimal.uint) :=
  match c with
  | 48 => Some Hexadecimal.D0 | 49 => Some Hexadecimal.D1
  | 50 => Some Hexadecimal.D2 | 51 => Some Hexadecimal.D3
  | 52 => Some Hexadecimal.D4 | 53 => Some Hexadecimal.D5
  | 54 => Some Hexadecimal.D6 | 55 => Some Hexadecimal.D7
  | 56 => Some Hexadecimal.D8 | 57 => Some Hexadecimal.D9
  | 65 | 97 => Some Hexadecimal.Da | 66 | 98 => Some Hexadecimal.Db
  | 67 | 99 => Some Hexadecimal.Dc | 68 | 100 => Some Hexadecimal.Dd
  | 69 | 101 => Some Hexadecimal.De | 70 | 102 => Some Hexadecimal.Df
  | _ => None
  end%N.

Fixpoint read_hex (s : str) : Hexadecimal.uint * str :=
  match s with
  | c :: t =>
      match hex_digit c with
      | Some d => let (u, r) := read_hex t in (d u, r)
      | None => (Hexadecimal.Nil, s)
      end
  | [] => (Hexadecimal.Nil, [])
  end.

(** The sign that [parseInt] reads, and the text after it. *)
Definition readSign (s : str) : bool * str :=
  match s with
  | c :: t =>
      if (c =? 45)%N then (true, t)
      else if (c =? 43)%N then (false, t)
      else (false, s)
  | [] => (false, s)
  end.

(** The text after a [0x] or [0X] prefix, when there is one. *)
Definition hexPrefix (s : str) : option str :=
  match s with
  | c :: x :: t =>
      if ((c =? 48) && ((x =? 120) || (x =? 88)))%N then Some t else None
  | _ => None
  end.

(** The value of the longest prefix of decimal digits; [None] when the
    text starts with no digit. *)
Definition decValue (s : str) : option N :=
  match fst (read_uint s) with
  | Decimal.Nil => None
  | u => Some (N.of_uint u)
  end.

Definition hexValue (s : str) : option N :=
  match fst (read_hex s) with
  | Hexadecimal.Nil => None
  | u => Some (N.of_hex_uint u)
  end.

(** The integer that [parseInt] reads after the sign: in radix 16 after
    a [0x] or [0X] prefix, else in radix 10. *)
Definition mathInt (s : str) : option N :=
  match hexPrefix s with
  | Some t => hexValue t
  | None => decValue s
  end.

(** [parseInt(s)] with no radix argument; [None] is [NaN].  Leading white
    space is skipped, then a sign, then a [0x] or [0X] prefix selects
    radix 16; the longest prefix of digits is the value, and what follows
    it is ignored. *)
Definition parseInt (s : str) : option num :=
  let p := readSign (trimStart s) in
  match mathInt (snd p) with
  | Some n => Some (toNumber (if fst p then (- Z.of_N n)%Z else Z.of_N n))
  | None => None
  end.


(** The decimal digits of an integer, with a minus sign when negative. *)
Definition Z_str (z : Z) : str :=
  (if (z <? 0)%Z then [45%N] else [])
    ++ uint_str (N.to_uint (Z.to_N (Z.abs z))).

(** [String(n)] (Number::toString with radix 10), digit by digit on the
    safe integers; larger doubles print in shortest round-trip form, which
    is not modelled. *)
Definition numToString (n : num) : str :=
  match n with
  | Fin z => Z_str z
  | Inf false => lit "Infinity"
  | Inf true => lit "-Infinity"
  end.

(** [a - b] as the comparator of [sort] reads it: only its sign matters.
    It is called on different values only. *)
Definition num_sub_sign (a b : num) : Z :=
  match a, b with
  | Fin x, Fin y => Z.sgn (x - y)
  | Fin _, Inf neg => if neg then 1%Z else (-1)%Z
  | Inf neg, Fin _ => if neg then (-1)%Z else 1%Z
  | Inf n1, Inf n2 =>
      if Bool.eqb n1 n2 then 0%Z else if n1 then (-1)%Z else 1%Z
  end.

End JsNum.
Import JsNum.

(* ===================================================================== *)
(** * JSON values, [JSON.stringify] and [JSON.parse] *)
(* ===================================================================== *)

Module Json.

(** A JavaScript value of the JSON kind: [null], a boolean, a number, a
    string, an array, or a plain object, whose prototype is
    [Object.prototype] and whose own properties hold such values.  An
    object keeps its properties in insertion order, the order in which
    [JSON.stringify] and [Object.keys] visit them. *)
Inductive json : Type :=
| JNull
| JBool (b : bool)
| JNum (n : num)
| JStr (s : str)
| JArr (l : list json)
| JObj (l : list (str * json)).

(** [o[k]] on own properties: [None] is [undefined]. *)
Fixpoint obj_get (o : list (str * json)) (k : str) : option json :=
  match o with
  | [] => None
  | (k', v) :: o' => if str_eqb k' k then Some v else obj_get o' k
  end.

Fixpoint obj_has (o : list (str * json)) (k : str) : bool :=
  match o with
  | [] => false
  | (k', _) :: o' => str_eqb k' k || obj_has o' k
  end.

Fixpoint obj_replace (o : list (str * json)) (k : str) (v : json)
  : list (str * json) :=
  match o with
  | [] => []
  | (k', v') :: o' =>
      if str_eqb k' k then (k', v) :: o' else (k', v') :: obj_replace o' k v
  end.

(** [o[k] = v]: an existing property keeps its place and takes the new
    value; a new property goes last. *)
Definition obj_set (o : list (str * json)) (k : str) (v : json)
  : list (str * json) :=
  if obj_has o k then obj_replace o k v else o ++ [(k, v)].

(** [v.k] for a property name that [Object.prototype], [Array.prototype]
    and the wrappers of primitives do not define: [None] is [undefined].
    On [null] the access throws; the callers below treat that case. *)
Definition get_field (v : json) (k : str) : option json :=
  match v with
  | JObj o => obj_get o k
  | _ => None
  end.

(** ** JSON.stringify(v, null, 2) *)

Definition hex_char (d : N) : cu :=
  if (d <? 10)%N then (48 + d)%N else (87 + d)%N.

(** UnicodeEscape: [\u] and four lower-case hexadecimal digits. *)
Definition uesc (c : cu) : str :=
  [92; 117; hex_char (c / 4096 mod 16); hex_char (c / 256 mod 16);
   hex_char (c / 16 mod 16); hex_char (c mod 16)]%N.

Definition isHigh (c : cu) : bool := ((55296 <=? c) && (c <=? 56319))%N.
Definition isLow (c : cu) : bool := ((56320 <=? c) && (c <=? 57343))%N.

(** The body of QuoteJSONString: short escapes, [\u00xx] for the other
    control characters, [\udxxx] for a surrogate that is not part of a
    pair, everything else as it is. *)
Fixpoint quote_body (s : str) : str :=
  match s with
  | [] => []
  | c :: t =>
      if (c =? 8)%N then [92; 98]%N ++ quote_body t
      else if (c =? 9)%N then [92; 116]%N ++ quote_body t
      else if (c =? 10)%N then [92; 110]%N ++ quote_body t
      else if (c =? 12)%N then [92; 102]%N ++ quote_body t
      else if (c =? 13)%N then [92; 114]%N ++ quote_body t
      else if (c =? 34)%N then [92; 34]%N ++ quote_body t
      else if (c =? 92)%N then [92; 92]%N ++ quote_body t
      else if (c <? 32)%N then uesc c ++ quote_body t
      else if isHigh c then
        match t with
        | d :: t' =>
            if isLow d then c :: d :: quote_body t'
            else uesc c ++ quote_body t
        | [] => uesc c
        end
      else if isLow c then uesc c ++ quote_body t
      else c :: quote_body t
  end.

Definition quote (s : str) : str := 34%N :: quote_body s ++ [34%N].

(** The indentation of a nesting level: two spaces per level. *)
Definition indent (n : nat) : str := repeat 32%N (2 * n).

(** A line feed and the indentation of the level. *)
Definition nl (n : nat) : str := 10%N :: indent n.

(** SerializeJSONProperty with a gap of two spaces, at nesting level
    [ind].  A number that is not finite prints as [null]. *)
Fixpoint ser (ind : nat) (v : json) : str :=
  match v with
  | JNull => lit "null"
  | JBool true => lit "true"
  | JBool false => lit "false"
  | JNum (Fin z) => Z_str z
  | JNum (Inf _) => lit "null"
  | JStr s => quote s
  | JArr [] => lit "[]"
  | JArr (x :: l) =>
      91%N :: nl (S ind) ++ ser (S ind) x
        ++ (fix more (l : list json) : str :=
              match l with
              | [] => []
              | y :: l' => 44%N :: nl (S ind) ++ ser (S ind) y ++ more l'
              end) l
        ++ nl ind ++ [93%N]
  | JObj [] => lit "{}"
  | JObj ((k, x) :: l) =>
      123%N :: nl (S ind) ++ quote k ++ [58; 32]%N ++ ser (S ind) x
        ++ (fix more (l : list (str * json)) : str :=
              match l with
              | [] => []
              | (k', y) :: l' =>
                  44%N :: nl (S ind) ++ quote k' ++ [58; 32]%N
                    ++ ser (S ind) y ++ more l'
              end) l
        ++ nl ind ++ [125%N]
  end.

(** [JSON.stringify(v, null, 2)] *)
Definition JSON_stringify (v : json) : str := ser 0 v.

(** ** JSON.parse *)

(** What a parse gives: a value, a [SyntaxError], an input outside the
    part of JSON that this model covers (a number with a fraction or an
    exponent or beyond the safe integers, a property name that is an
    integer index, which JavaScript moves to the front of the object), or
    not enough fuel. *)
Inductive pres (A : Type) : Type :=
| POk (a : A)
| PSyntax
| PUnsupported
| PFuel.
Arguments POk {A} a.
Arguments PSyntax {A}.
Arguments PUnsupported {A}.
Arguments PFuel {A}.

Definition pbind {A B} (x : pres A) (f : A -> pres B) : pres B :=
  match x with
  | POk a => f a
  | PSyntax => PSyntax
  | PUnsupported => PUnsupported
  | PFuel => PFuel
  end.

(** JSON white space: tab, line feed, carriage return, space. *)
Definition isJsonWs (c : cu) : bool :=
  ((c =? 9) || (c =? 10) || (c =? 13) || (c =? 32))%N.

Fixpoint skip_ws (s : str) : str :=
  match s with
  | c :: t => if isJsonWs c then skip_ws t else s
  | [] => []
  end.

Definition hex_val (c : cu) : option N :=
  if ((48 <=? c) && (c <=? 57))%N then Some (c - 48)%N
  else if ((97 <=? c) && (c <=? 102))%N then Some (c - 87)%N
  else if ((65 <=? c) && (c <=? 70))%N then Some (c - 55)%N
  else None.

(** The characters of a string literal after its opening quote, up to
    the closing quote. *)
Fixpoint pstring (s : str) : pres (str * str) :=
  match s with
  | [] => PSyntax
  | c :: t =>
      if (c =? 34)%N then POk ([], t)
      else if (c =? 92)%N then
        match t with
        | e :: t1 =>
            let simple (x : cu) :=
              pbind (pstring t1) (fun '(r, rest) => POk (x :: r, rest)) in
            if (e =? 34)%N then simple 34%N
            else if (e =? 92)%N then simple 92%N
            else if (e =? 47)%N then simple 47%N
            else if (e =? 98)%N then simple 8%N
            else if (e =? 102)%N then simple 12%N
            else if (e =? 110)%N then simple 10%N
            else if (e =? 114)%N then simple 13%N
            else if (e =? 116)%N then simple 9%N
            else if (e =? 117)%N then
              match t1 with
              | h1 :: h2 :: h3 :: h4 :: t2 =>
                  match hex_val h1, hex_val h2, hex_val h3, hex_val h4 with
                  | Some a, Some b, Some c', Some d =>
                      pbind (pstring t2)
                        (fun '(r, rest) =>
                           POk ((a * 4096 + b * 256 + c' * 16 + d)%N :: r,
                                rest))
                  | _, _, _, _ => PSyntax
                  end
              | _ => PSyntax
              end
            else PSyntax
        | [] => PSyntax
        end
      else if (c <? 32)%N then PSyntax
      else pbind (pstring t) (fun '(r, rest) => POk (c :: r, rest))
  end.

Definition isDigit (c : cu) : bool := ((48 <=? c) && (c <=? 57))%N.

Definition uintNil (u : Decimal.uint) : bool :=
  match u with Decimal.Nil => true | _ => false end.

(** More than one digit, the first of them a zero. *)
Definition leadingZero (u : Decimal.uint) : bool :=
  match u with
  | Decimal.D0 Decimal.Nil => false
  | Decimal.D0 _ => true
  | _ => false
  end.

(** The text goes on with a fraction or an exponent. *)
Definition fractionAhead (rest : str) : bool :=
  match rest with
  | c :: _ => ((c =? 46) || (c =? 101) || (c =? 69))%N
  | [] => false
  end.

(** A number literal after its optional minus sign. *)
Definition pnumber (neg : bool) (s : str) : pres (json * str) :=
  let (u, rest) := read_uint s in
  if uintNil u then PSyntax
  else if leadingZero u then PSyntax
  else if fractionAhead rest then PUnsupported
  else
    let z := Z.of_N (N.of_uint u) in
    let z := if neg then (- z)%Z else z in
    if safeb z then POk (JNum (Fin z), rest) else PUnsupported.

(** A property name that is a canonical numeric string: JavaScript lists
    such properties first, in numeric order. *)
Definition isIndexKey (k : str) : bool :=
  match k with
  | [] => false
  | [48%N] => true
  | c :: t => ((49 <=? c) && (c <=? 57))%N && forallb isDigit t
  end.

(** The object of a member list: a repeated name keeps its first place
    and takes its last value. *)
Fixpoint build_obj (acc : list (str * json)) (ms : list (str * json))
  : pres (list (str * json)) :=
  match ms with
  | [] => POk acc
  | (k, v) :: ms' =>
      if isIndexKey k then PUnsupported
      else build_obj (obj_set acc k v) ms'
  end.

(** The text after the character [c], when the text starts with it. *)
Definition eat (c : cu) (s : str) : option str :=
  match s with
  | c' :: r => if (c' =? c)%N then Some r else None
  | [] => None
  end.

Fixpoint pvalue (n : nat) (s : str) : pres (json * str) :=
  match n with
  | O => PFuel
  | S n' =>
      match skip_ws s with
      | [] => PSyntax
      | c :: t =>
          if (c =? 34)%N then
            pbind (pstring t) (fun '(x, r) => POk (JStr x, r))
          else if (c =? 91)%N then
            match eat 93%N (skip_ws t) with
            | Some r => POk (JArr [], r)
            | None => pbind (pelems n' t) (fun '(l, r) => POk (JArr l, r))
            end
          else if (c =? 123)%N then
            match eat 125%N (skip_ws t) with
            | Some r => POk (JObj [], r)
            | None =>
                pbind (pmembers n' t)
                  (fun '(ms, r) =>
                     pbind (build_obj [] ms) (fun o => POk (JObj o, r)))
            end
          else if (c =? 45)%N then pnumber true t
          else if isDigit c then pnumber false (c :: t)
          else if startsWith (lit "true") (c :: t)
               then POk (JBool true, skipn 4 (c :: t))
          else if startsWith (lit "false") (c :: t)
               then POk (JBool false, skipn 5 (c :: t))
          else if startsWith (lit "null") (c :: t)
               then POk (JNull, skipn 4 (c :: t))
          else PSyntax
      end
  end
with pelems (n : nat) (s : str) : pres (list json * str) :=
  match n with
  | O => PFuel
  | S n' =>
      pbind (pvalue n' s)
        (fun '(v, r) =>
           match eat 44%N (skip_ws r) with
           | Some r' =>
               pbind (pelems n' r') (fun '(l, r'') => POk (v :: l, r''))
           | None =>
               match eat 93%N (skip_ws r) with
               | Some r' => POk ([v], r')
               | None => PSyntax
               end
           end)
  end
with pmembers (n : nat) (s : str) : pres (list (str * json) * str) :=
  match n with
  | O => PFuel
  | S n' =>
      match eat 34%N (skip_ws s) with
      | Some t =>
          pbind (pstring t)
            (fun '(k, r) =>
               match eat 58%N (skip_ws r) with
               | Some r1 =>
                   pbind (pvalue n' r1)
                     (fun '(v, r2) =>
                        match eat 44%N (skip_ws r2) with
                        | Some r3 =>
                            pbind (pmembers n' r3)
                              (fun '(ms, r4) => POk ((k, v) :: ms, r4))
                        | None =>
                            match eat 125%N (skip_ws r2) with
                            | Some r3 => POk ([(k, v)], r3)
                            | None => PSyntax
                            end
                        end)
               | None => PSyntax
               end)
      | None => PSyntax
      end
  end.

(** [JSON.parse(s)]: one value, then only white space.  Every call of the
    parser consumes a character or descends with less fuel, so a fuel of
    the length of the text is never used up on the serializations below
    (see [parse_stringify]). *)
Definition JSON_parse (s : str) : pres json :=
  pbind (pvalue (S (length s)) s)
    (fun '(v, r) =>
       match skip_ws r with
       | [] => POk v
       | _ :: _ => PSyntax
       end).

Fixpoint distinct (ks : list str) : bool :=
  match ks with
  | [] => true
  | k :: ks' => negb (existsb (str_eqb k) ks') && distinct ks'
  end.

(** Values on which serializing and parsing is the identity in this
    model: safe integers, objects with distinct names none of which is an
    integer index. *)
Fixpoint wfb (v : json) : bool :=
  match v with
  | JNull | JBool _ | JStr _ => true
  | JNum (Fin z) => safeb z
  | JNum (Inf _) => false
  | JArr l => forallb wfb l
  | JObj l =>
      forallb (fun p => negb (isIndexKey (fst p)) && wfb (snd p)) l
      && distinct (List.map fst l)
  end.

(** The elements of an array after the first, as [ser] prints them. *)
Fixpoint ser_more (ind : nat) (l : list json) : str :=
  match l with
  | [] => []
  | y :: l' => 44%N :: nl (S ind) ++ ser (S ind) y ++ ser_more ind l'
  end.

(** The members of an object after the first, as [ser] prints them. *)
Fixpoint ser_members (ind : nat) (l : list (str * json)) : str :=
  match l with
  | [] => []
  | (k', y) :: l' =>
      44%N :: nl (S ind) ++ quote k' ++ [58; 32]%N
        ++ ser (S ind) y ++ ser_members ind l'
  end.

(** Fuel that [pvalue] needs on the serialization of a value. *)
Fixpoint need (v : json) : nat :=
  match v with
  | JArr l => S (list_sum (List.map (fun x => S (need x)) l))
  | JObj l => S (list_sum (List.map (fun p => S (need (snd p))) l))
  | _ => 1
  end.

(** What may follow a number literal: not a digit, a point or an
    exponent mark. *)
Definition follow_ok (rest : str) : bool :=
  match rest with
  | [] => true
  | c :: _ => negb (isDigit c || (c =? 46) || (c =? 101) || (c =? 69))%N
  end.

Section JsonInd.

Variable P : json -> Prop.
Hypothesis HNull : P JNull.
Hypothesis HBool : forall b, P (JBool b).
Hypothesis HNum : forall n, P (JNum n).
Hypothesis HStr : forall s, P (JStr s).
Hypothesis HArr : forall l, Forall P l -> P (JArr l).
Hypothesis HObj : forall l, Forall (fun p => P (snd p)) l -> P (JObj l).

(** Induction on a value, with the hypothesis on every element and on
    every member. *)
Fixpoint json_induction (v : json) : P v :=
  match v with
  | JNull => HNull
  | JBool b => HBool b
  | JNum n => HNum n
  | JStr s => HStr s
  | JArr l =>
      HArr l ((fix go (l : list json) : Forall P l :=
                 match l with
                 | [] => @List.Forall_nil _ P
                 | x :: l' =>
                     @List.Forall_cons _ P x l' (json_induction x) (go l')
                 end) l)
  | JObj l =>
      HObj l ((fix go (l : list (str * json))
                 : Forall (fun p => P (snd p)) l :=
                 match l with
                 | [] => @List.Forall_nil _ _
                 | p :: l' =>
                     @List.Forall_cons _ (fun p => P (snd p)) p l'
                       (json_induction (snd p)) (go l')
                 end) l)
  end.

End JsonInd.

(** The three statements of the round trip, for a value, for the
    elements of an array and for the members of an object. *)
Definition value_ok (v : json) : Prop :=
  wfb v = true ->
  forall ind n rest,
    need v <= n -> follow_ok rest = true ->
    pvalue n (ser ind v ++ rest) = POk (v, rest).

Definition elems_ok (ind : nat) (x : json) (l : list json) : Prop :=
  forall n rest,
    list_sum (List.map (fun y => S (need y)) (x :: l)) <= n ->
    pelems n (ser (S ind) x ++ ser_more ind l ++ nl ind ++ 93%N :: rest)
    = POk (x :: l, rest).

Definition members_ok (ind : nat) (k : str) (x : json)
  (l : list (str * json)) : Prop :=
  forall n rest,
    list_sum (List.map (fun p => S (need (snd p))) ((k, x) :: l)) <= n ->
    pmembers n (quote k ++ [58; 32]%N ++ ser (S ind) x
                  ++ ser_members ind l ++ nl ind ++ 125%N :: rest)
    = POk ((k, x) :: l, rest).

End Json.
Import Json.

(* ===================================================================== *)
(** * The converter: XML rule files to the catalogue *)
(* ===================================================================== *)

Module Builder.

(** A sequence of patterns. *)
Fixpoint seqs (l : list re) : re :=
  match l with
  | [] => Lit []
  | [r] => r
  | r :: l' => Seq r (seqs l')
  end.

Definition chr (s : string) : atom :=
  match lit s with c :: _ => AChr c | [] => AAny end.
Definition notchr (s : string) : atom :=
  match lit s with c :: _ => ANot c | [] => AAny end.
Definition dquote : cu := 34%N.

(** The pattern of [extractAttr], with the flag [i]: the name, [\s*=\s*],
    then a double quote, the group [([^Q]* )] and a double quote (Q is the
    double quote).  The script puts the name into the source of the
    pattern: this is the pattern for a name made of ASCII letters, digits
    and underscores, which stand for themselves there, as the names
    passed by [parseXmlFile] are; for another name the pattern of the
    script is another one. *)
Definition attrRegex (name : str) : re :=
  seqs [Lit name; Star true ASpace; Atom (chr "="); Star true ASpace;
        Atom (AChr dquote); Group 1 (Star true (ANot dquote));
        Atom (AChr dquote)].

Definition extractAttr (attrStr name : str) : str :=
  match rx_match true (attrRegex name) attrStr with
  | Some m => default [] (m_group m 1)
  | None => []
  end.

Definition stripCdata (text : str) : str :=
  replace_all (lit "]]>") [] (replace_all (lit "<![CDATA[") [] text).

(** [new RegExp(`<${tag}[^>]*>([\\s\\S]*?)</${tag}>`, 'i')], for a tag
    made of ASCII letters, digits and underscores, which stand for
    themselves in the source of a pattern, as the tags passed by
    [parseXmlFile] are. *)
Definition elementRegex (tag : str) : re :=
  seqs [Lit (lit "<" ++ tag); Star true (notchr ">"); Atom (chr ">");
        Group 1 (Star false AAny); Lit (lit "</" ++ tag ++ lit ">")].

Definition extractFirstElement (xml tag : str) : str :=
  match rx_match true (elementRegex tag) xml with
  | None => []
  | Some m => trim (stripCdata (default [] (m_group m 1)))
  end.

(** [/<example>([\s\S]*?)<\/example>/gi] *)
Definition exampleRegex : re :=
  seqs [Lit (lit "<example>"); Group 1 (Star false AAny);
        Lit (lit "</example>")].

Definition extractExamples (xml : str) : list str :=
  List.filter (fun ex => negb (str_eqb ex []))
    (List.map (fun m => trim (stripCdata (default [] (m_group m 1))))
              (exec_all true exampleRegex xml)).

Record property : Type := Property {
  prop_name : str;
  defaultValue : str;
  prop_description : str
}.

(** [/<property\s+name=Q([^Q]* )Q[^>]*(?:\/>|>([\s\S]*?)<\/property>)/gi],
    Q being the double quote. *)
Definition propRegex : re :=
  seqs [Lit (lit "<property"); Plus ASpace;
        Lit (lit "name=" ++ [dquote]); Group 1 (Star true (ANot dquote));
        Atom (AChr dquote); Star true (notchr ">");
        Alt (Lit (lit "/>"))
            (seqs [Atom (chr ">"); Group 2 (Star false AAny);
                   Lit (lit "</property>")])].

(** [/value=Q([^Q]* )Q/] *)
Definition valueAttrRegex : re :=
  seqs [Lit (lit "value=" ++ [dquote]); Group 1 (Star true (ANot dquote));
        Atom (AChr dquote)].

(** [/<value>([\s\S]*?)<\/value>/i] *)
Definition valueElRegex : re :=
  seqs [Lit (lit "<value>"); Group 1 (Star false AAny);
        Lit (lit "</value>")].

(** [/description=Q([^Q]* )Q/] *)
Definition descAttrRegex : re :=
  seqs [Lit (lit "description=" ++ [dquote]);
        Group 1 (Star true (ANot dquote)); Atom (AChr dquote)].

(** The body of the loop of [extractProperties] for one match [m]:
    [None] is the [continue]. *)
Definition propertyOfMatch (m : rmatch) : option property :=
  let name := default [] (m_group m 1) in
  if str_eqb name (lit "xpath") || str_eqb name (lit "version") then None
  else
    let defaultVal :=
      match rx_match false valueAttrRegex (m_0 m) with
      | Some defMatch => default [] (m_group defMatch 1)
      | None =>
          match m_group m 2 with
          | Some [] | None => []
          | Some m2 =>
              match rx_match true valueElRegex m2 with
              | Some valEl => trim (stripCdata (default [] (m_group valEl 1)))
              | None => []
              end
          end
      end in
    let descr :=
      match rx_match false descAttrRegex (m_0 m) with
      | Some descMatch => default [] (m_group descMatch 1)
      | None => []
      end in
    Some (Property name defaultVal descr).

Definition extractProperties (xml : str) : list property :=
  omap propertyOfMatch (exec_all true propRegex xml).

(** One entry of the catalogue as the converter builds it.  The three
    optional fields are the keys that the object literal adds by a
    conditional spread. *)
Record rule : Type := Rule {
  name : str;
  category : str;
  categoryName : str;
  since : str;
  message : str;
  ruleClass : str;
  externalInfoUrl : str;
  description : str;
  priority : num;
  examples : list str;
  properties : option (list property);
  maxLanguageVersion : option str;
  minLanguageVersion : option str
}.

(** [/<ruleset\s+name=Q([^Q]* )Q/] *)
Definition rulesetRegex : re :=
  seqs [Lit (lit "<ruleset"); Plus ASpace; Lit (lit "name=" ++ [dquote]);
        Group 1 (Star true (ANot dquote)); Atom (AChr dquote)].

(** [/<rule\s+([^>]*?)>([\s\S]*?)<\/rule>/g] *)
Definition ruleRegex : re :=
  seqs [Lit (lit "<rule"); Plus ASpace; Group 1 (Star false (notchr ">"));
        Atom (chr ">"); Group 2 (Star false AAny); Lit (lit "</rule>")].

(** [/\bref\s*=/] *)
Definition refRegex : re :=
  seqs [WordB; Lit (lit "ref"); Star true ASpace; Atom (chr "=")].

(** [x || 3] on the result of [parseInt]: [NaN] and zero are falsy. *)
Definition priorityOf (priorityStr : str) : num :=
  match parseInt priorityStr with
  | None => Fin 3
  | Some (Fin 0) => Fin 3
  | Some n => n
  end.

(** [s && {...}] inside a spread: the key is there when the string is not
    empty. *)
Definition nonEmpty (s : str) : option str :=
  match s with [] => None | _ :: _ => Some s end.

(** [match[1]] and [match[2]] of a match of [ruleRegex]. *)
Definition attrsOf (m : rmatch) : str := default [] (m_group m 1).
Definition bodyOf (m : rmatch) : str := default [] (m_group m 2).

(** The body of the loop of [parseXmlFile] for one match of [ruleRegex]:
    [None] is one of the two [continue]s. *)
Definition ruleOfMatch (category rulesetName : str) (m : rmatch)
  : option rule :=
  let attrs := attrsOf m in
  let body := bodyOf m in
  if rx_test false refRegex attrs then None
  else
    let name := extractAttr attrs (lit "name") in
    match name with
    | [] => None
    | _ :: _ =>
        let since := extractAttr attrs (lit "since") in
        let message := extractAttr attrs (lit "message") in
        let ruleClass := extractAttr attrs (lit "class") in
        let externalInfoUrl :=
          replace_all (lit "${pmd.website.baseurl}")
                      (lit "https://docs.pmd-code.org/latest")
                      (extractAttr attrs (lit "externalInfoUrl")) in
        let maxLangVersion :=
          extractAttr attrs (lit "maximumLanguageVersion") in
        let minLangVersion :=
          extractAttr attrs (lit "minimumLanguageVersion") in
        let description := extractFirstElement body (lit "description") in
        let priorityStr := extractFirstElement body (lit "priority") in
        let priority := priorityOf priorityStr in
        let examples := extractExamples body in
        let properties := extractProperties body in
        Some (Rule name category rulesetName since message ruleClass
                   externalInfoUrl description priority examples
                   (match properties with
                    | [] => None
                    | _ :: _ => Some properties
                    end)
                   (nonEmpty maxLangVersion) (nonEmpty minLangVersion))
    end.

(** The name of the rule set, read off the root element; the category
    when there is none. *)
Definition rulesetNameOf (xml category : str) : str :=
  match rx_match false rulesetRegex xml with
  | Some m => default [] (m_group m 1)
  | None => category
  end.

(** [parseXmlFile], on the text of the file. *)
Definition parseXmlFile (xml category : str) : list rule :=
  let rulesetName := rulesetNameOf xml category in
  omap (ruleOfMatch category rulesetName) (exec_all false ruleRegex xml).

(** The matches of the rule pattern in the file at which the loop gets
    to [rules.push], in the order of the file. *)
Definition ruleBlocks (xml category : str) : list rmatch :=
  List.filter
    (fun m =>
       match ruleOfMatch category (rulesetNameOf xml category) m with
       | Some _ => true
       | None => false
       end)
    (exec_all false ruleRegex xml).

(** The entries of [CATEGORY_MAP]: file name and category. *)
Definition categoryTable : list (str * str) :=
  [(lit "bestpractices_ko.xml", lit "bestpractices");
   (lit "codestyle_ko.xml", lit "codestyle");
   (lit "design_ko.xml", lit "design");
   (lit "documentation_ko.xml", lit "documentation");
   (lit "errorprone_ko.xml", lit "errorprone");
   (lit "multithreading_ko.xml", lit "multithreading");
   (lit "performance_ko.xml", lit "performance");
   (lit "security_ko.xml", lit "security")].

Definition CATEGORY_MAP : gmap str str := list_to_map categoryTable.

(** The eight categories. *)
Definition categoryNames : list str := List.map snd categoryTable.

(** The loop of [main] over the directory listing: each entry is a file
    name and the text of the file, in the order of [readdirSync]. *)
Fixpoint collect (files : list (str * str)) : list rule :=
  match files with
  | [] => []
  | (file, xml) :: files' =>
      if endsWith file (lit ".xml") then
        match CATEGORY_MAP !! file with
        | Some category => parseXmlFile xml category ++ collect files'
        | None => collect files'
        end
      else collect files'
  end.

Section Sort.

(** [String.prototype.localeCompare] is the collation of the host; only
    the sign of its result is used. *)
Variable localeCompare : str -> str -> Z.

(** The comparator of [allRules.sort]. *)
Definition compareRules (a b : rule) : Z :=
  if negb (str_eqb (category a) (category b))
  then localeCompare (category a) (category b)
  else if negb (num_eqb (priority a) (priority b))
  then num_sub_sign (priority a) (priority b)
  else localeCompare (name a) (name b).

(** [Array.prototype.sort] is stable; on a consistent comparator every
    stable sort gives the same array, here by insertion: an element goes
    before the first one that it does not exceed. *)
Fixpoint insert (x : rule) (l : list rule) : list rule :=
  match l with
  | [] => [x]
  | y :: l' =>
      if (compareRules x y <=? 0)%Z then x :: l else y :: insert x l'
  end.

Fixpoint sortRules (l : list rule) : list rule :=
  match l with
  | [] => []
  | x :: l' => insert x (sortRules l')
  end.

(** The order of the three keys, in words: the category comes first in
    the collation, or the categories are the same text and the priority
    is smaller, or the priorities are equal too and the name does not
    come later in the collation. *)
Definition keyLe (a b : rule) : Prop :=
  (localeCompare (category a) (category b) < 0)%Z
  \/ (category a = category b
      /\ ((num_sub_sign (priority a) (priority b) < 0)%Z
          \/ (priority a = priority b
              /\ (localeCompare (name a) (name b) <= 0)%Z))).

(** Two records that the comparator does not tell apart. *)
Definition tieb (a b : rule) : bool := (compareRules a b =? 0)%Z.

End Sort.

(** A record whose category is one of the eight. *)
Definition catOK (r : rule) : Prop := In (category r) categoryNames.

(** What one entry of the directory listing adds to the catalogue. *)
Definition rulesOfFile (e : str * str) : list rule :=
  if endsWith (fst e) (lit ".xml") then
    match CATEGORY_MAP !! fst e with
    | Some category => parseXmlFile (snd e) category
    | None => []
    end
  else [].

Definition property_json (p : property) : json :=
  JObj [(lit "name", JStr (prop_name p));
        (lit "defaultValue", JStr (defaultValue p));
        (lit "description", JStr (prop_description p))].

Definition opt_key {A} (k : string) (f : A -> json) (o : option A)
  : list (str * json) :=
  match o with Some a => [(lit k, f a)] | None => [] end.

(** The object that the literal of [rules.push] builds, keys in the order
    of the literal. *)
Definition rule_json (r : rule) : json :=
  JObj ([(lit "name", JStr (name r));
         (lit "category", JStr (category r));
         (lit "categoryName", JStr (categoryName r));
         (lit "since", JStr (since r));
         (lit "message", JStr (message r));
         (lit "ruleClass", JStr (ruleClass r));
         (lit "externalInfoUrl", JStr (externalInfoUrl r));
         (lit "description", JStr (description r));
         (lit "priority", JNum (priority r));
         (lit "examples", JArr (List.map JStr (examples r)))]
        ++ opt_key "properties"
             (fun ps => JArr (List.map property_json ps)) (properties r)
        ++ opt_key "maxLanguageVersion" JStr (maxLanguageVersion r)
        ++ opt_key "minLanguageVersion" JStr (minLanguageVersion r)).

Definition catalogue_json (rules : list rule) : json :=
  JArr (List.map rule_json rules).

(** [`const RULES_DATA =\n${JSON.stringify(v, null, 2)};\n`] *)
Definition wrap (v : json) : str :=
  lit "const RULES_DATA =" ++ [10%N] ++ JSON_stringify v ++ [59; 10]%N.

(** [main]: the text written to [rules_data.js] for a directory
    listing. *)
Definition main (localeCompare : str -> str -> Z) (files : list (str * str))
  : str :=
  wrap (catalogue_json (sortRules localeCompare (collect files))).

(** A priority that is an integer of magnitude at most 2^53: it prints
    digit by digit. *)
Definition safe_priority (r : rule) : bool :=
  match priority r with
  | Fin z => safeb z
  | Inf _ => false
  end.



End Builder.

(* ===================================================================== *)
(** * The tier annotator ([add_tiers.js]) *)
(* ===================================================================== *)

Module Annotator.

(** The [tier] of an entry of the table: 1, 2, 3 or the text [skip]. *)
Inductive tierValue : Type := Tier1 | Tier2 | Tier3 | TierSkip.

Record tierInfo : Type := TierInfo {
  tier : tierValue;
  claude_comment : str
}.

Definition tier_json (t : tierValue) : json :=
  match t with
  | Tier1 => JNum (Fin 1)
  | Tier2 => JNum (Fin 2)
  | Tier3 => JNum (Fin 3)
  | TierSkip => JStr (lit "skip")
  end.

(** [/^const RULES_DATA =\s*/] *)
Definition prefixRegex : re :=
  Builder.seqs [Bol; Lit (lit "const RULES_DATA ="); Star true ASpace].

(** [/;\s*$/] *)
Definition suffixRegex : re :=
  Builder.seqs [Atom (Builder.chr ";"); Star true ASpace; Eol].

(** Step 2 of [main]: the text handed to [JSON.parse]. *)
Definition stripWrapper (raw : str) : str :=
  replace_first false suffixRegex [] (replace_first false prefixRegex [] raw).

(** How a run ends: normally, by [process.exit(1)] after an error
    message, by an uncaught [TypeError] (Node then exits with status 1),
    or on an input that the model of [JSON.parse] does not cover. *)
Inductive outcome : Type :=
| Done
| ExitFailure
| Uncaught
| Unmodelled.

(** The exit status of the process. *)
Definition exit_status (o : outcome) : option Z :=
  match o with
  | Done => Some 0%Z
  | ExitFailure => Some 1%Z
  | Uncaught => Some 1%Z
  | Unmodelled => None
  end.

Definition isNull (v : json) : bool :=
  match v with JNull => true | _ => false end.

(** A file on which the model of [JSON.parse] gives an answer, a value
    or a [SyntaxError], after the wrapper is stripped. *)
Definition decided (file : str) : bool :=
  match JSON_parse (stripWrapper file) with
  | POk _ | PSyntax => true
  | PUnsupported | PFuel => false
  end.

(** A property name other than the two that the script writes. *)
Definition otherKey (k : str) : bool :=
  negb (str_eqb k (lit "tier")) && negb (str_eqb k (lit "claude_comment")).

(** Two records that differ at most in [tier] and [claude_comment]: both
    are objects, every other property has the same value in both, and the
    other property names come in the same order. *)
Definition sameButTier (r r' : json) : Prop :=
  exists o o',
    r = JObj o /\ r' = JObj o'
    /\ (forall k, otherKey k = true -> obj_get o' k = obj_get o k)
    /\ List.filter otherKey (List.map fst o')
       = List.filter otherKey (List.map fst o).

Section Main.

(** The table of the script, a literal of 290 entries there: rule name
    to tier and comment.  What follows holds for every table. *)
Variable TIER_MAP : gmap str tierInfo.

(** [tierMapKeys.has(name)] for the [name] read off a record:
    [undefined] and values that are not strings are in no key set. *)
Definition hasKey (name : option json) : bool :=
  match name with
  | Some (JStr s) => bool_decide (is_Some (TIER_MAP !! s))
  | _ => false
  end.

(** The body of the loop of step 3, on a record that passed the check
    of the names: [None] is the [TypeError] of reading [tier] off
    [undefined]. *)
Definition annotate (rule : json) : option json :=
  match rule with
  | JObj o =>
      match obj_get o (lit "name") with
      | Some (JStr s) =>
          match TIER_MAP !! s with
          | Some tierInfo =>
              Some (JObj (obj_set
                            (obj_set o (lit "tier")
                                     (tier_json (tier tierInfo)))
                            (lit "claude_comment")
                            (JStr (claude_comment tierInfo))))
          | None => None
          end
      | _ => None
      end
  | _ => None
  end.

(** The names of the catalogue that the table lacks. *)
Definition missingFromMap (rules : list json) : list (option json) :=
  List.filter (fun name => negb (hasKey name))
              (List.map (fun r => get_field r (lit "name")) rules).

(** Steps 2 to 4 on the parsed catalogue: the outcome and, when the run
    gets to step 4, the text to write. *)
Definition run (v : json) : outcome * option str :=
  match v with
  | JArr rules =>
      if existsb isNull rules then (Uncaught, None)
      else
        match missingFromMap rules with
        | _ :: _ => (ExitFailure, None)
        | [] =>
            match mapM annotate rules with
            | Some rules' => (Done, Some (Builder.wrap (JArr rules')))
            | None => (Uncaught, None)
            end
        end
  | _ => (Uncaught, None)
  end.

(** [main] as a step on the content of [rules_data.js]: the outcome and
    the content after the run.  [Unmodelled] says nothing about the
    script: it marks a text on which the model of [JSON.parse] gives no
    answer. *)
Definition main (file : str) : outcome * str :=
  match JSON_parse (stripWrapper file) with
  | PSyntax => (ExitFailure, file)
  | PUnsupported | PFuel => (Unmodelled, file)
  | POk v =>
      match run v with
      | (o, Some output) => (o, output)
      | (o, None) => (o, file)
      end
  end.

End Main.

End Annotator.

(* ===================================================================== *)
(** * The viewer ([app.js]) *)
(* ===================================================================== *)

Module Viewer.

Definition RULES_PER_PAGE : nat := 20.

(** What [getActiveFilters] and [searchInput.value] read off the page:
    the [data-category] and [data-priority] texts of the checked boxes and
    the text of the search box. *)
Record filters : Type := Filters {
  categories : list str;
  priorities : list str;
  searchValue : str
}.

(** The three variables of the script. *)
Record state : Type := State {
  rules : list json;
  filteredRules : list json;
  currentPage : nat
}.

Fixpoint join (sep : str) (l : list str) : str :=
  match l with
  | [] => []
  | [x] => x
  | x :: l' => x ++ sep ++ join sep l'
  end.

(** [String(v)], the conversion of a template literal and the
    conversion to a property name, for a value of the JSON kind.  [None]
    is the [TypeError] of an object that has a property [toString] of
    its own: no value of the JSON kind is a function, so the conversion
    finds nothing to call, [valueOf] of [Object.prototype] gives the
    object back, and the conversion throws.  An array is the join of its
    elements, [null] counting for the empty text, and throws when an
    element does.  Numbers print digit by digit, which is the text of
    the script for the integers of magnitude at most 2^53 and for the
    infinities (see [printable]); the text of a larger number is not
    modelled. *)
Fixpoint toString (v : json) : option str :=
  match v with
  | JNull => Some (lit "null")
  | JBool true => Some (lit "true")
  | JBool false => Some (lit "false")
  | JNum n => Some (numToString n)
  | JStr s => Some s
  | JArr l =>
      option_map (join [44%N])
        ((fix elements (l : list json) : option (list str) :=
            match l with
            | [] => Some []
            | e :: l' =>
                match (match e with
                       | JNull => Some []
                       | _ => toString e
                       end) with
                | None => None
                | Some s =>
                    match elements l' with
                    | None => None
                    | Some r => Some (s :: r)
                    end
                end
            end) l)
  | JObj o =>
      if obj_has o (lit "toString") then None
      else Some (lit "[object Object]")
  end.

(** [String(x)] where [x] may be [undefined]. *)
Definition toStringU (v : option json) : option str :=
  match v with
  | Some v => toString v
  | None => Some (lit "undefined")
  end.

(** A value that [String] converts without an error and whose numbers
    are integers of magnitude at most 2^53 or infinite, which print
    digit by digit. *)
Fixpoint printable (v : json) : bool :=
  match v with
  | JNum (Fin z) => safeb z
  | JArr l => forallb printable l
  | JObj o => negb (obj_has o (lit "toString"))
  | _ => true
  end.

Definition printableU (v : option json) : bool :=
  match v with
  | Some v => printable v
  | None => true
  end.

(** A value that a condition takes for false. *)
Definition falsy (v : option json) : bool :=
  match v with
  | None | Some JNull | Some (JBool false) | Some (JNum (Fin 0))
  | Some (JStr []) => true
  | _ => false
  end.

(** A value that is a string. *)
Definition isStr (v : option json) : bool :=
  match v with Some (JStr _) => true | _ => false end.

(** The text of a string field; empty when the field is missing. *)
Definition strOf (v : option json) : str :=
  match v with Some (JStr s) => s | _ => [] end.

(** A record that the search can read: an object whose [name],
    [message] and [description] are strings and whose [categoryName] is a
    string or is missing. *)
Definition viewable (rule : json) : bool :=
  isStr (get_field rule (lit "name"))
  && isStr (get_field rule (lit "message"))
  && isStr (get_field rule (lit "description"))
  && (isStr (get_field rule (lit "categoryName"))
      || falsy (get_field rule (lit "categoryName"))).

(** A record that the filter can read: the search can read it and its
    [priority] converts to a text. *)
Definition filterable (rule : json) : bool :=
  viewable rule && printableU (get_field rule (lit "priority")).

(** [t] occurs in [s]. *)
Definition substring (t s : str) : Prop := exists a b, s = a ++ t ++ b.

Section Filter.

(** [String.prototype.toLowerCase], the case mapping of Unicode. *)
Variable toLowerCase : str -> str.

(** [x.toLowerCase().includes(t)]: [None] is the [TypeError] of calling
    [toLowerCase] on what is not a string. *)
Definition lowerIncludes (x : option json) (t : str) : option bool :=
  match x with
  | Some (JStr s) => Some (includes (toLowerCase s) t)
  | _ => None
  end.

(** [categories.length === 0 || categories.includes(rule.category)];
    [None] is the [TypeError] of reading a property off [null]. *)
Definition matchesCategory (f : filters) (rule : json) : option bool :=
  match categories f with
  | [] => Some true
  | _ :: _ =>
      if Annotator.isNull rule then None
      else
        match get_field rule (lit "category") with
        | Some (JStr c) => Some (existsb (str_eqb c) (categories f))
        | _ => Some false
        end
  end.

(** [priorities.length === 0 ||
     priorities.includes(String(rule.priority))]; [None] is the
    [TypeError] of reading a property off [null] or of the
    conversion. *)
Definition matchesPriority (f : filters) (rule : json) : option bool :=
  match priorities f with
  | [] => Some true
  | _ :: _ =>
      if Annotator.isNull rule then None
      else
        match toStringU (get_field rule (lit "priority")) with
        | Some text => Some (existsb (str_eqb text) (priorities f))
        | None => None
        end
  end.

(** The chain of [||] of [matchesSearch], left to right. *)
Definition matchesSearch (searchTerm : str) (rule : json) : option bool :=
  match searchTerm with
  | [] => Some true
  | _ :: _ =>
      if Annotator.isNull rule then None else
      match lowerIncludes (get_field rule (lit "name")) searchTerm with
      | None => None
      | Some true => Some true
      | Some false =>
      match lowerIncludes (get_field rule (lit "message")) searchTerm with
      | None => None
      | Some true => Some true
      | Some false =>
      match lowerIncludes (get_field rule (lit "description")) searchTerm
      with
      | None => None
      | Some true => Some true
      | Some false =>
          if falsy (get_field rule (lit "categoryName")) then Some false
          else lowerIncludes (get_field rule (lit "categoryName"))
                             searchTerm
      end end end
  end.

(** The callback of [rules.filter]: the three conditions are computed
    in this order, then joined by [&&]. *)
Definition keeps (f : filters) (searchTerm : str) (rule : json)
  : option bool :=
  match matchesCategory f rule with
  | None => None
  | Some c =>
      match matchesPriority f rule with
      | None => None
      | Some p =>
          match matchesSearch searchTerm rule with
          | None => None
          | Some s => Some (c && p && s)
          end
      end
  end.

(** What the filter is meant to keep, for a search term [searchTerm]:
    the three conditions of the filter in words. *)
Definition selected (f : filters) (searchTerm : str) (rule : json)
  : Prop :=
  (categories f = []
   \/ exists c, get_field rule (lit "category") = Some (JStr c)
                /\ In c (categories f))
  /\ (priorities f = []
      \/ exists text,
           toStringU (get_field rule (lit "priority")) = Some text
           /\ In text (priorities f))
  /\ (searchTerm = []
      \/ substring searchTerm
           (toLowerCase (strOf (get_field rule (lit "name"))))
      \/ substring searchTerm
           (toLowerCase (strOf (get_field rule (lit "message"))))
      \/ substring searchTerm
           (toLowerCase (strOf (get_field rule (lit "description"))))
      \/ substring searchTerm
           (toLowerCase (strOf (get_field rule (lit "categoryName"))))).

(** [rules.filter(cb)] for a callback that may throw. *)
Fixpoint filterM (cb : json -> option bool) (l : list json)
  : option (list json) :=
  match l with
  | [] => Some []
  | x :: l' =>
      match cb x with
      | None => None
      | Some b =>
          match filterM cb l' with
          | None => None
          | Some r => Some (if b then x :: r else r)
          end
      end
  end.

(** [applyFilters]: [None] when the filter throws, which leaves the
    variables as they were. *)
Definition applyFilters (f : filters) (st : state) : option state :=
  let searchTerm := trim (toLowerCase (searchValue f)) in
  match filterM (keeps f searchTerm) (rules st) with
  | Some r => Some (State (rules st) r 1)
  | None => None
  end.

End Filter.

(** [filteredRules.slice(startIndex, endIndex)] of [renderRules];
    [currentPage] is at least 1 wherever the script sets it. *)
Definition pageRules (st : state) : list json :=
  let startIndex := (currentPage st - 1) * RULES_PER_PAGE in
  firstn RULES_PER_PAGE (skipn startIndex (filteredRules st)).

(** [Math.ceil(filteredRules.length / RULES_PER_PAGE)] *)
Definition totalPages (st : state) : nat :=
  (length (filteredRules st) + (RULES_PER_PAGE - 1)) / RULES_PER_PAGE.

End Viewer.

(* ===================================================================== *)
(** * Sample inputs *)
(* ===================================================================== *)

Module Examples.

Import Builder.

(** A text between double quotes. *)
Definition q (s : string) : str := dquote :: lit s ++ [dquote].

(** A rule named [Foo] with the attributes [since] and [message], the
    description [d] and a given text in its priority element. *)
Definition ruleFoo (priorityText : str) : str :=
  lit "<rule name=" ++ q "Foo" ++ lit " since=" ++ q "1.0"
    ++ lit " message=" ++ q "msg" ++ lit ">"
    ++ lit "<description>d</description><priority>" ++ priorityText
    ++ lit "</priority></rule>".

Definition ruleset (rulesText : str) : str :=
  lit "<ruleset name=" ++ q "Design" ++ lit ">" ++ rulesText
    ++ lit "</ruleset>".

Definition docPriority2 : str := ruleset (ruleFoo (lit "2")).


(** A reference to a rule of another file. *)
Definition docRef : str :=
  ruleset (lit "<rule ref=" ++ q "rulesets/foo.xml/Bar" ++ lit "></rule>").

(** The attributes of a reference that overrides the name and the
    message of the rule; the message holds the sign [>], and [ref] comes
    after it. *)
Definition refLateAttrs : str :=
  lit "name=" ++ q "Late" ++ lit " message=" ++ q "a > b" ++ lit " ref="
    ++ q "rulesets/foo.xml/Bar".

Definition docRefLate : str :=
  ruleset (lit "<rule " ++ refLateAttrs ++ lit "></rule>").

(** The same reference with [ref] first. *)
Definition refFirstAttrs : str :=
  lit "ref=" ++ q "rulesets/foo.xml/Bar" ++ lit " name=" ++ q "Late"
    ++ lit " message=" ++ q "a > b".

Definition docRefFirst : str :=
  ruleset (lit "<rule " ++ refFirstAttrs ++ lit "></rule>").

(** A block without an attribute [name], with an attribute whose name
    ends in [name]. *)
Definition docSuffixName : str :=
  ruleset (lit "<rule xname=" ++ q "Foo" ++ lit "></rule>").

(** A self-closing property followed by a property in block form. *)
Definition bodySwallow : str :=
  lit "<property name=" ++ q "version" ++ lit " value=" ++ q "2.0"
    ++ lit "/>"
    ++ lit "<property name=" ++ q "foo" ++ lit "><value>2</value></property>".

Definition docSwallow : str :=
  ruleset (lit "<rule name=" ++ q "Bar" ++ lit "><priority>3</priority>"
             ++ lit "<properties>" ++ bodySwallow
             ++ lit "</properties></rule>").

(** The same two properties, the block form first. *)
Definition bodyBlockFirst : str :=
  lit "<property name=" ++ q "foo" ++ lit "><value>2</value></property>"
    ++ lit "<property name=" ++ q "version" ++ lit " value=" ++ q "2.0"
    ++ lit "/>".

Definition design : str := lit "design".

(** The lower case of the ASCII letters, other code units unchanged: the
    restriction of [toLowerCase] to ASCII text. *)
Definition asciiLower (s : str) : str :=
  List.map (fun c => if ((65 <=? c) && (c <=? 90))%N then (c + 32)%N else c)
           s.

(** The order of the code units: a comparator for strings. *)
Fixpoint codeUnitCompare (a b : str) : Z :=
  match a, b with
  | [], [] => 0%Z
  | [], _ :: _ => (-1)%Z
  | _ :: _, [] => 1%Z
  | x :: a', y :: b' =>
      if (x <? y)%N then (-1)%Z
      else if (y <? x)%N then 1%Z
      else codeUnitCompare a' b'
  end.


(** A rule with a name and a priority only. *)
Definition ruleNamed (name prio : string) : str :=
  lit "<rule name=" ++ q name ++ lit "><priority>" ++ lit prio
    ++ lit "</priority></rule>".

(** A directory listing, not in the order of the categories, with a file
    that is not a rule file. *)
Definition sampleDir : list (str * str) :=
  [(lit "security_ko.xml", ruleset (ruleNamed "Sec" "1"));
   (lit "README.md", lit "notes");
   (lit "design_ko.xml",
    ruleset (ruleNamed "B" "3" ++ ruleNamed "A" "3" ++ ruleNamed "C" "1"))].

(** A table with one entry, for the rule [Foo]. *)
Definition sampleTable : gmap str Annotator.tierInfo :=
  {[ lit "Foo" := Annotator.TierInfo Annotator.Tier2 (lit "ok") ]}.

(** The data module of the catalogue with the rule [Foo] alone, and that
    of a catalogue with the rule [Bar], which the table lacks. *)
Definition fooFile : str :=
  wrap (catalogue_json (parseXmlFile docPriority2 design)).
Definition barFile : str :=
  wrap (catalogue_json (parseXmlFile docSwallow design)).

Definition sampleFilters : Viewer.filters :=
  Viewer.Filters [design] [lit "2"] (lit " FOO ").

(** The viewer on the catalogue with the rule [Foo] alone, before any
    filter is applied. *)
Definition sampleState : Viewer.state :=
  Viewer.State (List.map rule_json (parseXmlFile docPriority2 design)) [] 1.

End Examples.

(* ===================================================================== *)
(** * The viewer: the counts beside the filter boxes *)
(* ===================================================================== *)

Module Counts.

(** The value of a property of [categoryCounts] or [priorityCounts]: a
    number, or a text.  A text arises only under a name that
    [Object.prototype] defines: there [(counts[k] || 0) + 1] is the
    built-in value with [1] appended. *)
Inductive cval : Type :=
| CNum (n : nat)
| CText.

(** The own properties of one of the two objects. *)
Abbreviation counts := (gmap str cval).

(** The property names of [Object.prototype]. *)
Definition protoNames : list str :=
  [lit "constructor"; lit "hasOwnProperty"; lit "isPrototypeOf";
   lit "propertyIsEnumerable"; lit "toLocaleString"; lit "toString";
   lit "valueOf"; lit "__proto__"; lit "__defineGetter__";
   lit "__defineSetter__"; lit "__lookupGetter__"; lit "__lookupSetter__"].

Definition isProto (k : str) : bool := existsb (str_eqb k) protoNames.

(** [counts[k] = (counts[k] || 0) + 1].  Under an inherited name the sum
    is a text, and the assignment to [__proto__] sets nothing. *)
Definition bump (m : counts) (k : str) : counts :=
  match m !! k with
  | Some (CNum n) => <[k := CNum (S n)]> m
  | Some CText => m
  | None =>
      if isProto k then
        if str_eqb k (lit "__proto__") then m else <[k := CText]> m
      else <[k := CNum 1]> m
  end.

(** [counts[rule.field] = (counts[rule.field] || 0) + 1]: the property
    name is the text of the field; [None] is the [TypeError] of reading a
    property off [null] or of a field that does not convert to a
    property name. *)
Definition bumpField (m : counts) (rule : json) (field : str)
  : option counts :=
  if Annotator.isNull rule then None
  else
    match Viewer.toStringU (get_field rule field) with
    | Some key => Some (bump m key)
    | None => None
    end.

(** The callback of [rules.forEach] in [updateCounts], on the two
    objects. *)
Definition countRule (f : Viewer.filters) (acc : counts * counts)
  (rule : json) : option (counts * counts) :=
  match Viewer.matchesPriority f rule with
  | None => None
  | Some passPriority =>
      match (if passPriority then bumpField (fst acc) rule (lit "category")
             else Some (fst acc)) with
      | None => None
      | Some categoryCounts =>
          match Viewer.matchesCategory f rule with
          | None => None
          | Some passCategory =>
              match (if passCategory
                     then bumpField (snd acc) rule (lit "priority")
                     else Some (snd acc)) with
              | None => None
              | Some priorityCounts =>
                  Some (categoryCounts, priorityCounts)
              end
          end
      end
  end.

Fixpoint countAll (f : Viewer.filters) (acc : counts * counts)
  (rules : list json) : option (counts * counts) :=
  match rules with
  | [] => Some acc
  | rule :: rules' =>
      match countRule f acc rule with
      | None => None
      | Some acc' => countAll f acc' rules'
      end
  end.

(** [counts[k] || 0] *)
Definition shown (m : counts) (k : str) : cval :=
  match m !! k with
  | Some v => v
  | None => if isProto k then CText else CNum 0
  end.

(** [Object.keys(categoryNames)] *)
Definition categoryKeys : list str :=
  [lit "bestpractices"; lit "codestyle"; lit "design"; lit "documentation";
   lit "errorprone"; lit "multithreading"; lit "performance";
   lit "security"].

(** The property names that the array [1, 2, 3, 4, 5] reads. *)
Definition priorityKeys : list str :=
  List.map (fun p => numToString (Fin p)) [1; 2; 3; 4; 5]%Z.

(** What [updateCounts] writes beside the boxes: for each category and
    each priority from 1 to 5, the content of its [count-] element.
    [None] when the loop throws; nothing is written then. *)
Record shownCounts : Type := ShownCounts {
  byCategory : list (str * cval);
  byPriority : list (str * cval)
}.

Definition updateCounts (f : Viewer.filters) (rules : list json)
  : option shownCounts :=
  match countAll f (empty, empty) rules with
  | None => None
  | Some (categoryCounts, priorityCounts) =>
      Some (ShownCounts
              (List.map (fun cat => (cat, shown categoryCounts cat))
                        categoryKeys)
              (List.map (fun p => (p, shown priorityCounts p))
                        priorityKeys))
  end.

(** The number beside one box, when it is a number. *)
Definition countOf (l : list (str * cval)) (k : str) : option nat :=
  match List.find (fun e => str_eqb (fst e) k) l with
  | Some (_, CNum n) => Some n
  | _ => None
  end.

(** The property name under which a record is counted: the text of one
    of its fields. *)
Definition keyOf (field : string) (r : json) : str :=
  default [] (Viewer.toStringU (get_field r (lit field))).

(** A record that [updateCounts] can count: not [null], with a category
    and a priority that convert to texts. *)
Definition countable (rule : json) : bool :=
  negb (Annotator.isNull rule)
  && Viewer.printableU (get_field rule (lit "category"))
  && Viewer.printableU (get_field rule (lit "priority")).

(** The number of records that pass a test. *)
Definition tally (keep : json -> bool) (rules : list json) : nat :=
  length (List.filter keep rules).

(** Texts stand under inherited names only. *)
Definition numeric (m : counts) : Prop :=
  forall k, m !! k = Some CText -> isProto k = true.

End Counts.

(* ===================================================================== *)
(** * The viewer: the pagination bar and the page of cards *)
(* ===================================================================== *)

Module Paging.

(** One piece of the markup of [renderPagination]. *)
Inductive item : Type :=
| Arrow (disabled : bool) (page : Z) (label : cu)
| Jump (page : Z)
| Number (active : bool) (page : Z)
| Dots
| Info (current total : Z).

Definition maxVisiblePages : Z := 5.

(** [Math.max(1, currentPage - Math.floor(maxVisiblePages / 2))] *)
Definition startPage0 (current : Z) : Z :=
  Z.max 1 (current - maxVisiblePages / 2).

(** [Math.min(totalPages, startPage + maxVisiblePages - 1)] *)
Definition endPage (total current : Z) : Z :=
  Z.min total (startPage0 current + maxVisiblePages - 1).

(** [startPage] after the correction that follows. *)
Definition startPage (total current : Z) : Z :=
  if (endPage total current - startPage0 current + 1 <? maxVisiblePages)%Z
  then Z.max 1 (endPage total current - maxVisiblePages + 1)
  else startPage0 current.

(** The values of [i] in [for (let i = a; i <= b; i++)]. *)
Definition range (a b : Z) : list Z :=
  List.map (fun k => (a + Z.of_nat k)%Z) (seq 0 (Z.to_nat (b + 1 - a))).

(** The pieces that [renderPagination] writes, in order; none when there
    is one page at most. *)
Definition items (total current : Z) : list item :=
  if (total <=? 1)%Z then []
  else
    let s := startPage total current in
    let e := endPage total current in
    [Arrow (current =? 1)%Z (current - 1) 9664%N]
      ++ (if (1 <? s)%Z
          then Jump 1 :: (if (2 <? s)%Z then [Dots] else [])
          else [])
      ++ List.map (fun i => Number (i =? current)%Z i) (range s e)
      ++ (if (e <? total)%Z
          then (if (e <? total - 1)%Z then [Dots] else []) ++ [Jump total]
          else [])
      ++ [Arrow (current =? total)%Z (current + 1) 9654%N;
          Info current total].

Definition quoted (s : str) : str := Builder.dquote :: s ++ [Builder.dquote].

(** The template of each piece. *)
Definition html (i : item) : str :=
  match i with
  | Arrow disabled page label =>
      lit "<button " ++ (if disabled then lit "disabled" else [])
        ++ lit " data-page=" ++ quoted (Z_str page) ++ lit ">"
        ++ [label] ++ lit "</button>"
  | Jump page =>
      lit "<button data-page=" ++ quoted (Z_str page) ++ lit ">"
        ++ Z_str page ++ lit "</button>"
  | Number active page =>
      lit "<button class=" ++ quoted (if active then lit "active" else [])
        ++ lit " data-page=" ++ quoted (Z_str page) ++ lit ">"
        ++ Z_str page ++ lit "</button>"
  | Dots => lit "<span class=" ++ quoted (lit "page-info") ++ lit ">...</span>"
  | Info current total =>
      lit "<span class=" ++ quoted (lit "page-info") ++ lit ">"
        ++ Z_str current ++ lit " / " ++ Z_str total ++ lit "</span>"
  end.

(** [pagination.innerHTML] after [renderPagination]. *)
Definition markup (total current : Z) : str :=
  concat (List.map html (items total current)).

(** [btn.dataset.page] of the button of a piece. *)
Definition dataPage (i : item) : option str :=
  match i with
  | Arrow _ page _ | Jump page | Number _ page => Some (Z_str page)
  | Dots | Info _ _ => None
  end.

(** The page numbers on the numbered buttons of the bar, left to right. *)
Definition numbered (i : item) : option Z :=
  match i with
  | Jump page | Number _ page => Some page
  | _ => None
  end.

(** A button of the bar with its click listener: the text of its
    [data-page] and the [totalPages] that the listener closed over. *)
Record button : Type := Button {
  data_page : str;
  totalPages : Z
}.

(** The page: the three variables of the script and the buttons that
    stand in the pagination bar.  The elements that the script looks up
    (the grid of the cards, the bar, the search box and the counter) are
    taken to be on the page. *)
Record page : Type := Page {
  vars : Viewer.state;
  bar : list button
}.

(** [renderPagination]: the buttons of the new bar. *)
Definition renderPagination (st : Viewer.state) : list button :=
  let total := Z.of_nat (Viewer.totalPages st) in
  List.map (fun d => Button d total)
           (omap dataPage (items total (Z.of_nat (Viewer.currentPage st)))).

(** The fields of a record that the template of a card converts to
    text, in the order of the template ([category] and [priority] also
    as property names of [categoryIcons] and [priorityLabels], whose
    values are built-in texts). *)
Definition cardFields : list str :=
  [lit "name"; lit "category"; lit "category"; lit "name"; lit "priority";
   lit "priority"; lit "message"; lit "category"; lit "categoryName";
   lit "since"].

(** The texts that the template of the card of a record puts in;
    [None] is the [TypeError] of reading a property off [null] or of a
    field that does not convert. *)
Definition cardTexts (rule : json) : option (list str) :=
  if Annotator.isNull rule then None
  else mapM (fun k => Viewer.toStringU (get_field rule k)) cardFields.

(** A record that the viewer can show: it is not [null] and the fields
    of its card are printable. *)
Definition showable (rule : json) : bool :=
  negb (Annotator.isNull rule)
  && forallb (fun k => Viewer.printableU (get_field rule k)) cardFields.

(** [renderRules], as a step on the page: when the current page has no
    card the bar is emptied; otherwise the cards are drawn and the bar is
    drawn anew.  [None] is an error thrown by the template of a card:
    nothing is drawn then and the page stays as it is. *)
Definition renderRules (p : page) : option page :=
  match Viewer.pageRules (vars p) with
  | [] => Some (Page (vars p) [])
  | rule :: rules' =>
      match mapM cardTexts (rule :: rules') with
      | Some _ => Some (Page (vars p) (renderPagination (vars p)))
      | None => None
      end
  end.

(** The page after a call of [renderRules] in a listener: an error
    leaves the listener and the page stays as it is. *)
Definition rendered (p : page) : page := default p (renderRules p).

(** The [try] block of [loadRules], for the filter boxes as they stand
    when the page loads: [None] is the [catch] (the error message is
    shown and no listener is installed).  [RULES_DATA] is [None] when the
    data module did not define it. *)
Definition loadRules (f : Viewer.filters) (RULES_DATA : option json)
  : option page :=
  match RULES_DATA with
  | Some (JArr rules) =>
      match Counts.updateCounts f rules with
      | None => None
      | Some _ => renderRules (Page (Viewer.State rules rules 1) [])
      end
  | _ => None
  end.

Section Events.

Variable toLowerCase : str -> str.

(** A change of a filter box or of the search box: [applyFilters].
    When the callback of the filter throws, nothing is assigned; when
    [updateCounts] or [renderRules] throws, the variables are assigned
    and nothing is drawn. *)
Definition onFilter (f : Viewer.filters) (p : page) : page :=
  match Viewer.applyFilters toLowerCase f (vars p) with
  | None => p
  | Some st =>
      match Counts.updateCounts f (Viewer.rules st) with
      | None => Page st (bar p)
      | Some _ => rendered (Page st (bar p))
      end
  end.

(** The click listener of a button of the bar. *)
Definition clickButton (b : button) (p : page) : page :=
  match parseInt (data_page b) with
  | Some (Fin z) =>
      if (negb (z =? 0) && negb (z =? Z.of_nat (Viewer.currentPage (vars p)))
          && (1 <=? z) && (z <=? totalPages b))%Z
      then rendered (Page (Viewer.State (Viewer.rules (vars p))
                                        (Viewer.filteredRules (vars p))
                                        (Z.to_nat z))
                          (bar p))
      else p
  | _ => p
  end.

(** A click on the [k]-th button of the bar. *)
Definition onClick (k : nat) (p : page) : page :=
  match bar p !! k with
  | Some b => clickButton b p
  | None => p
  end.

(** One event of the page. *)
Inductive step (p : page) : page -> Prop :=
| StepFilter (f : Viewer.filters) : step p (onFilter f p)
| StepClick (k : nat) : step p (onClick k p).

(** The pages that a session can show, from the load on. *)
Inductive reachable (f0 : Viewer.filters) (data : option json)
  : page -> Prop :=
| ReachLoad (p : page) : loadRules f0 data = Some p -> reachable f0 data p
| ReachStep (p p' : page) :
    reachable f0 data p -> step p p' -> reachable f0 data p'.

End Events.

(** The bar read from left to right, after the numbered button [prev]
    (0 before the first), [dots] telling that an ellipsis came since: a
    numbered button that follows another directly shows the next page,
    one that follows an ellipsis shows a page further on, and no
    ellipsis stands last or twice in a row. *)
Fixpoint gapsMarked (prev : Z) (dots : bool) (l : list item) : bool :=
  match l with
  | [] => negb dots
  | Dots :: l' => negb dots && gapsMarked prev true l'
  | Jump n :: l' | Number _ n :: l' =>
      (if dots then (prev + 1 <? n)%Z else (n =? prev + 1)%Z)
      && gapsMarked n false l'
  | _ :: l' => gapsMarked prev dots l'
  end.

(** What every page of a session on the catalogue [rules] satisfies. *)
Definition consistent (rules : list json) (p : page) : Prop :=
  Viewer.rules (vars p) = rules
  /\ incl (Viewer.filteredRules (vars p)) rules
  /\ 1 <= Viewer.currentPage (vars p)
  /\ (Viewer.filteredRules (vars p) = []
      \/ Viewer.currentPage (vars p) <= Viewer.totalPages (vars p))
  /\ renderRules p = Some p.

End Paging.

(* ===================================================================== *)
(** * The viewer: the text of the description tab *)
(* ===================================================================== *)

Module Detail.

(** [s.split(r)] for a pattern [r] without flags whose matches are never
    empty: the pieces of [s] between the matches, each search starting
    where the previous match ended.  [piece] is the piece being read,
    reversed; [skip] counts the characters of the last match still to be
    passed. *)
Fixpoint split_scan (r : re) (pre rest : str) (skip : nat) (piece : str)
  : list str :=
  match skip with
  | S n =>
      match rest with
      | c :: t => split_scan r (c :: pre) t n piece
      | [] => [rev piece]
      end
  | O =>
      match rest with
      | [] => [rev piece]
      | c :: t =>
          match match_at false r pre rest with
          | Some m =>
              rev piece
                :: split_scan r (c :: pre) t (length (m_0 m) - 1) []
          | None => split_scan r (c :: pre) t 0 (c :: piece)
          end
      end
  end.

Definition split (r : re) (s : str) : list str := split_scan r [] s 0 [].

(** [s.replace(r, t)] for a pattern [r] with the flag [g] whose matches
    are never empty; [subst m] is the replacement text [t] with its
    references to the groups of the match [m] filled in. *)
Fixpoint replace_scan (r : re) (subst : rmatch -> str) (pre rest : str)
  (skip : nat) : str :=
  match skip with
  | S n =>
      match rest with
      | c :: t => replace_scan r subst (c :: pre) t n
      | [] => []
      end
  | O =>
      match rest with
      | [] => []
      | c :: t =>
          match match_at false r pre rest with
          | Some m =>
              subst m
                ++ replace_scan r subst (c :: pre) t (length (m_0 m) - 1)
          | None => c :: replace_scan r subst (c :: pre) t 0
          end
      end
  end.

Definition replace_global (r : re) (subst : rmatch -> str) (s : str) : str :=
  replace_scan r subst [] s 0.

(** The pattern of the split: a line feed, then one line feed or more. *)
Definition paragraphBreak : re := Seq (Lit [10%N]) (Plus (AChr 10%N)).

(** The pattern of inline code: a backquote, the group of one character
    or more other than a backquote, a backquote. *)
Definition inlineCode : re :=
  Builder.seqs [Atom (AChr 96%N); Group 1 (Plus (ANot 96%N));
                Atom (AChr 96%N)].

(** The replacement text: the group 1 between the tags of [code]. *)
Definition codeTag (m : rmatch) : str :=
  lit "<code>" ++ default [] (m_group m 1) ++ lit "</code>".

(** The paragraph that says that there is no description (nine code
    units of Korean text between the tags). *)
Definition noDescription : str :=
  lit "<p>"
    ++ [49444; 47749; 51060; 32; 50630; 49845; 45768; 45796; 46]%N
    ++ lit "</p>".

(** The callback of [map]: one piece of the text to one paragraph, or to
    the empty text. *)
Definition paragraph (para : str) : str :=
  match trim para with
  | [] => []
  | trimmed =>
      lit "<p>" ++ replace_global inlineCode codeTag trimmed ++ lit "</p>"
  end.

(** [formatDescription(text)] for a text. *)
Definition formatDescription (text : str) : str :=
  match text with
  | [] => noDescription
  | _ :: _ =>
      if includes text (lit "<p>") || includes text (lit "<ul>")
         || includes text (lit "<h")
      then text
      else
        Viewer.join [10%N]
          (List.filter (fun s => negb (str_eqb s []))
                       (List.map paragraph (split paragraphBreak text)))
  end.

(** [formatDescription(rule.description)]: a value that counts for false
    gives the paragraph above; [None] is the [TypeError] of a value that
    is neither that nor a text. *)
Definition descriptionHtml (rule : json) : option str :=
  let text := get_field rule (lit "description") in
  if Viewer.falsy text then Some noDescription
  else
    match text with
    | Some (JStr s) => Some (formatDescription s)
    | _ => None
    end.

End Detail.

(* ===================================================================== *)
(** * The viewer: [debounce] *)
(* ===================================================================== *)

Module Debounce.

Section Debounced.

(** The type of the arguments of a call, and the delay [wait] in
    milliseconds. *)
Variable A : Type.
Variable wait : nat.

(** A pending timer of the host: its id, the time from which it may
    run, and the arguments that its callback [later] closed over. *)
Record timer : Type := Timer {
  timer_id : nat;
  due : nat;
  args : A
}.

(** The host and the closure: the clock, the id of the next timer, the
    pending timers, the variable [timeout], and the calls of [func] so
    far (time and arguments, the latest first). *)
Record dstate : Type := DState {
  now : nat;
  nextId : nat;
  timers : list timer;
  timeout : option nat;
  calls : list (nat * A)
}.

(** [clearTimeout(id)]: [None] is [undefined], which clears nothing. *)
Definition clearTimeout (id : option nat) (ts : list timer)
  : list timer :=
  match id with
  | Some i => List.filter (fun t => negb (Nat.eqb (timer_id t) i)) ts
  | None => ts
  end.

(** [executedFunction(...args)] *)
Definition executedFunction (a : A) (s : dstate) : dstate :=
  DState (now s) (S (nextId s))
         (Timer (nextId s) (now s + wait) a
            :: clearTimeout (timeout s) (timers s))
         (Some (nextId s)) (calls s).

(** [later], the callback of the timer [t]. *)
Definition later (t : timer) (s : dstate) : dstate :=
  DState (now s) (nextId s) (clearTimeout (timeout s) (timers s))
         (timeout s) ((now s, args t) :: calls s).

(** The host runs the timer [id]: the timer must be pending and due;
    it leaves the table, then its callback runs. *)
Definition fire (id : nat) (s : dstate) : option dstate :=
  match List.find (fun t => Nat.eqb (timer_id t) id) (timers s) with
  | Some t =>
      if due t <=? now s
      then Some (later t (DState (now s) (nextId s)
                                 (clearTimeout (Some id) (timers s))
                                 (timeout s) (calls s)))
      else None
  | None => None
  end.

(** What can happen: a call of the debounced function, the host running
    a timer, time passing. *)
Inductive event : Type :=
| Call (a : A)
| Fire (id : nat)
| Tick (ms : nat).

Definition dstep (e : event) (s : dstate) : option dstate :=
  match e with
  | Call a => Some (executedFunction a s)
  | Fire id => fire id s
  | Tick ms =>
      Some (DState (now s + ms) (nextId s) (timers s) (timeout s)
                   (calls s))
  end.

(** A sequence of events, the first at the head; [None] when the host
    cannot run a timer that the sequence names. *)
Fixpoint run (es : list event) (s : dstate) : option dstate :=
  match es with
  | [] => Some s
  | e :: es' =>
      match dstep e s with
      | Some s' => run es' s'
      | None => None
      end
  end.

(** After [debounce(func, wait)]: no timer, [timeout] undefined. *)
Definition init (start : nat) : dstate := DState start 1 [] None [].

(** The time that passes in a sequence of events. *)
Definition elapsed (es : list event) : nat :=
  list_sum (List.map (fun e => match e with Tick ms => ms | _ => 0 end)
                     es).

(** A call of [func] that the events [es] explain: it comes right after
    a call of the debounced function with the same arguments and a
    silence of [wait] milliseconds or more. *)
Definition explained (start : nat) (es : list event) (c : nat * A)
  : Prop :=
  exists es1 ms id es3,
    es = es1 ++ Call (snd c) :: List.map Tick ms ++ Fire id :: es3
    /\ wait <= list_sum ms
    /\ fst c = start + elapsed es1 + list_sum ms.

(** What holds after every sequence of events: at most one timer is
    pending, the one that [timeout] names, set by the latest call, with
    only time passing since. *)
Definition settled (start : nat) (es : list event) (s : dstate)
  : Prop :=
  now s = start + elapsed es
  /\ Forall (explained start es) (calls s)
  /\ (timers s = []
      \/ exists id a es1 ms,
           timers s = [Timer id (start + elapsed es1 + wait) a]
           /\ timeout s = Some id
           /\ es = es1 ++ Call a :: List.map Tick ms).

End Debounced.

Arguments Timer {A}.
Arguments timer_id {A}.
Arguments due {A}.
Arguments args {A}.
Arguments DState {A}.
Arguments now {A}.
Arguments nextId {A}.
Arguments timers {A}.
Arguments timeout {A}.
Arguments calls {A}.
Arguments clearTimeout {A}.
Arguments executedFunction {A}.
Arguments later {A}.
Arguments fire {A}.
Arguments Call {A}.
Arguments Fire {A}.
Arguments Tick {A}.
Arguments dstep {A}.
Arguments run {A}.
Arguments init {A}.
Arguments elapsed {A}.
Arguments explained {A}.
Arguments settled {A}.

End Debounce.

(* ===================================================================== *)
(** * The converter followed by the annotator *)
(* ===================================================================== *)

Module Pipeline.

(** The record of the converter for [r] with the two fields of the
    table entry [ti] put last. *)
Definition annotated (r : Builder.rule) (ti : Annotator.tierInfo) : json :=
  match Builder.rule_json r with
  | JObj o =>
      JObj (o ++ [(lit "tier", Annotator.tier_json (Annotator.tier ti));
                  (lit "claude_comment",
                   JStr (Annotator.claude_comment ti))])
  | v => v
  end.

End Pipeline.

(* ===================================================================== *)
(** * More sample inputs *)
(* ===================================================================== *)

Module MoreExamples.

(** A catalogue of one record, of the category [design] and the
    priority 2. *)
Definition oneRule : list json :=
  [JObj [(lit "name", JStr (lit "Foo"));
         (lit "category", JStr (lit "design"));
         (lit "priority", JNum (Fin 2))]].

(** A catalogue of 45 records without fields: three pages. *)
Definition manyRules : list json := repeat (JObj []) 45.

(** The list of the 45 records on its second page. *)
Definition threePages : Viewer.state := Viewer.State manyRules manyRules 2.

(** An attribute string: a name, then [since] with a space before the
    equals sign. *)
Definition attrsBefore : str :=
  lit "name=" ++ Examples.q "Foo" ++ lit " ".
Definition attrsAfter : str := lit " class=" ++ Examples.q "C".

(** A rule whose address of the documentation starts with the
    placeholder of the base address. *)
Definition docUrl : str :=
  Examples.ruleset
    (lit "<rule name=" ++ Examples.q "Foo" ++ lit " externalInfoUrl="
       ++ Examples.q "${pmd.website.baseurl}/pmd_rules_java_design.html#foo"
       ++ lit "></rule>").

(** A record whose [since] is an object with a property [toString] of
    its own, and a catalogue of 21 records with that record last, on the
    second page. *)
Definition oddRule : json :=
  JObj [(lit "since", JObj [(lit "toString", JNum (Fin 0))])].

Definition oddLast : list json := repeat (JObj []) 20 ++ [oddRule].

End MoreExamples.

(* ===================================================================== *)
(** * The extractor on small inputs *)
(* ===================================================================== *)

Section ExtractorExamples.

Import Builder Examples.

(** The attribute pattern ignores case and allows white space around the
    equals sign. *)
Example extractAttr_case :
  extractAttr (lit "since=" ++ q "1" ++ lit " NAME = " ++ q "Foo")
              (lit "name")
  = lit "Foo".
Proof. vm_compute. reflexivity. Qed.

Example extractAttr_absent_example :
  extractAttr (lit "since=" ++ q "1") (lit "name") = [].
Proof. vm_compute. reflexivity. Qed.

(** The pattern is not anchored at a word boundary: it also finds the
    name at the end of a longer attribute name. *)
Example extractAttr_suffix :
  extractAttr (lit "xname=" ++ q "Foo") (lit "name") = lit "Foo".
Proof. vm_compute. reflexivity. Qed.

(** The test for a reference needs a word boundary before [ref]. *)
Example ref_test :
  rx_test false refRegex (lit "ref =" ++ q "a.xml/B") = true
  /\ rx_test false refRegex (lit "name=" ++ q "A" ++ lit " ref=" ++ q "x")
     = true
  /\ rx_test false refRegex (lit "xref=" ++ q "x") = false
  /\ rx_test false refRegex (lit "name=" ++ q "Preference") = false.
Proof. repeat split; vm_compute; reflexivity. Qed.

Example first_element_cdata :
  extractFirstElement
    (lit "<description> <![CDATA[ some text ]]> </description>")
    (lit "description")
  = lit "some text".
Proof. vm_compute. reflexivity. Qed.

(** The first closing tag ends the element. *)
Example first_element_lazy :
  extractFirstElement (lit "<priority>1</priority><priority>2</priority>")
                      (lit "priority")
  = lit "1".
Proof. vm_compute. reflexivity. Qed.

Example examples_in_order :
  extractExamples
    (lit "<example>a</example><example>  </example><EXAMPLE>b</EXAMPLE>")
  = [lit "a"; lit "b"].
Proof. vm_compute. reflexivity. Qed.

Example properties_default_values :
  extractProperties
    (lit "<property name=" ++ q "max" ++ lit " value=" ++ q "10"
       ++ lit " description=" ++ q "limit" ++ lit "/>")
  = [Property (lit "max") (lit "10") (lit "limit")]
  /\ extractProperties
       (lit "<property name=" ++ q "xpath" ++ lit "><value>//a</value>"
          ++ lit "</property>")
     = []
  /\ extractProperties
       (lit "<property name=" ++ q "p" ++ lit "><value>v</value>"
          ++ lit "</property>")
     = [Property (lit "p") (lit "v") []].
Proof. repeat split; vm_compute; reflexivity. Qed.

Example parseInt_examples :
  parseInt (lit " 42abc") = Some (Fin 42)
  /\ parseInt (lit "-7") = Some (Fin (-7))
  /\ parseInt (lit "0x1F") = Some (Fin 31)
  /\ parseInt (lit "abc") = None
  /\ parseInt [] = None
  /\ parseInt (lit "0") = Some (Fin 0)
  /\ parseInt (repeat 57%N 310) = Some (Inf false).
Proof. repeat split; vm_compute; reflexivity. Qed.

Example priorityOf_examples :
  priorityOf (lit "2") = Fin 2
  /\ priorityOf (lit "0") = Fin 3
  /\ priorityOf [] = Fin 3
  /\ priorityOf (lit "high") = Fin 3
  /\ priorityOf (lit "7") = Fin 7.
Proof. repeat split; vm_compute; reflexivity. Qed.

(** The text of a small catalogue: two spaces per level, a space after
    each colon. *)
Example stringify_example :
  JSON_stringify (JArr [JObj [(lit "a", JNum (Fin 1)); (lit "b", JArr [])]])
  = lit "[" ++ [10%N] ++ lit "  {" ++ [10%N]
      ++ lit "    " ++ q "a" ++ lit ": 1," ++ [10%N]
      ++ lit "    " ++ q "b" ++ lit ": []" ++ [10%N]
      ++ lit "  }" ++ [10%N] ++ lit "]".
Proof. vm_compute. reflexivity. Qed.

End ExtractorExamples.

(* ===================================================================== *)
(** * Serializing and parsing *)
(* ===================================================================== *)

Section JsonFacts.

Lemma skip_ws_indent (k : nat) (s : str) :
  skip_ws (repeat 32%N k ++ s) = skip_ws s.
Proof. induction k as [|k IH]; simpl; auto. Qed.

Lemma skip_ws_nl (k : nat) (s : str) : skip_ws (nl k ++ s) = skip_ws s.
Proof. unfold nl, indent. simpl. apply skip_ws_indent. Qed.

Lemma skip_ws_head (c : cu) (s : str) :
  isJsonWs c = false -> skip_ws (c :: s) = c :: s.
Proof. intros H. simpl. now rewrite H. Qed.

Lemma hex_val_char (d : N) : (d < 16)%N -> hex_val (hex_char d) = Some d.
Proof.
  intros H. unfold hex_char, hex_val.
  destruct (N.ltb_spec d 10).
  - replace ((48 <=? 48 + d) && (48 + d <=? 57))%N with true.
    + f_equal. lia.
    + symmetry. apply andb_true_iff. split; apply N.leb_le; lia.
  - replace ((48 <=? 87 + d) && (87 + d <=? 57))%N with false.
    + replace ((97 <=? 87 + d) && (87 + d <=? 102))%N with true.
      * f_equal. lia.
      * symmetry. apply andb_true_iff. split; apply N.leb_le; lia.
    + symmetry. apply andb_false_iff. right. apply N.leb_gt. lia.
Qed.

Lemma hex_digits_value (c : N) :
  (c < 65536)%N ->
  ((c / 4096 mod 16) * 4096 + (c / 256 mod 16) * 256
   + (c / 16 mod 16) * 16 + c mod 16)%N = c.
Proof.
  intros H.
  pose proof (N.div_mod c 16 ltac:(lia)).
  pose proof (N.div_mod (c / 16) 16 ltac:(lia)).
  pose proof (N.div_mod (c / 256) 16 ltac:(lia)).
  pose proof (N.mod_lt c 16 ltac:(lia)).
  pose proof (N.mod_lt (c / 16) 16 ltac:(lia)).
  pose proof (N.mod_lt (c / 256) 16 ltac:(lia)).
  assert (E1 : (c / 256 = c / 16 / 16)%N)
    by (rewrite N.Div0.div_div; reflexivity).
  assert (E2 : (c / 4096 = c / 256 / 16)%N)
    by (rewrite N.Div0.div_div; reflexivity).
  assert (E3 : (c / 4096 < 16)%N)
    by (apply N.Div0.div_lt_upper_bound; lia).
  rewrite (N.mod_small (c / 4096) 16) by assumption.
  lia.
Qed.

(** An escape [\uXXXX] written by [quote_body] reads back as its code
    unit. *)
Lemma pstring_uesc (c : cu) (s : str) :
  (c < 65536)%N ->
  pstring (uesc c ++ s)
  = pbind (pstring s) (fun '(r, rest) => POk (c :: r, rest)).
Proof.
  intros H. unfold uesc. cbn [app pstring].
  change (92 =? 34)%N with false. change (92 =? 92)%N with true.
  cbv iota.
  change (117 =? 34)%N with false. change (117 =? 92)%N with false.
  change (117 =? 47)%N with false. change (117 =? 98)%N with false.
  change (117 =? 102)%N with false. change (117 =? 110)%N with false.
  change (117 =? 114)%N with false. change (117 =? 116)%N with false.
  change (117 =? 117)%N with true. cbv iota.
  rewrite !hex_val_char by (apply N.mod_lt; lia).
  rewrite hex_digits_value by assumption. reflexivity.
Qed.

End JsonFacts.

Section StringRoundTrip.

Lemma pstring_plain (c : cu) (s : str) :
  (c =? 34)%N = false -> (c =? 92)%N = false -> (c <? 32)%N = false ->
  pstring (c :: s)
  = pbind (pstring s) (fun '(r, rest) => POk (c :: r, rest)).
Proof. intros H1 H2 H3. cbn [pstring]. rewrite H1, H2, H3. reflexivity. Qed.

Lemma isHigh_lt c : isHigh c = true -> (c < 65536)%N.
Proof.
  unfold isHigh. rewrite andb_true_iff, !N.leb_le. lia.
Qed.

Lemma isLow_lt c : isLow c = true -> (c < 65536)%N.
Proof.
  unfold isLow. rewrite andb_true_iff, !N.leb_le. lia.
Qed.

Lemma isHigh_plain c :
  isHigh c = true ->
  (c =? 34)%N = false /\ (c =? 92)%N = false /\ (c <? 32)%N = false.
Proof.
  unfold isHigh. rewrite andb_true_iff, !N.leb_le.
  intros [? ?]. repeat split; [apply N.eqb_neq | apply N.eqb_neq
                              | apply N.ltb_ge]; lia.
Qed.

Lemma isLow_plain c :
  isLow c = true ->
  (c =? 34)%N = false /\ (c =? 92)%N = false /\ (c <? 32)%N = false.
Proof.
  unfold isLow. rewrite andb_true_iff, !N.leb_le.
  intros [? ?]. repeat split; [apply N.eqb_neq | apply N.eqb_neq
                              | apply N.ltb_ge]; lia.
Qed.

(** The body of a quoted string, up to its closing quote, reads back as
    the string. *)
Lemma pstring_quote_body_le (n : nat) :
  forall (s rest : str),
    length s <= n ->
    pstring (quote_body s ++ 34%N :: rest) = POk (s, rest).
Proof.
  induction n as [|n IH]; intros [|c t] rest Hl; simpl in Hl;
    try lia; try reflexivity.
  assert (IHt : forall r, pstring (quote_body t ++ 34%N :: r) = POk (t, r))
    by (intros r; apply IH; lia).
  cbn [quote_body].
  destruct (N.eqb_spec c 8) as [->|N8].
  { cbn. rewrite IHt. reflexivity. }
  destruct (N.eqb_spec c 9) as [->|N9].
  { cbn. rewrite IHt. reflexivity. }
  destruct (N.eqb_spec c 10) as [->|N10].
  { cbn. rewrite IHt. reflexivity. }
  destruct (N.eqb_spec c 12) as [->|N12].
  { cbn. rewrite IHt. reflexivity. }
  destruct (N.eqb_spec c 13) as [->|N13].
  { cbn. rewrite IHt. reflexivity. }
  destruct (N.eqb_spec c 34) as [->|N34].
  { cbn. rewrite IHt. reflexivity. }
  destruct (N.eqb_spec c 92) as [->|N92].
  { cbn. rewrite IHt. reflexivity. }
  destruct (N.ltb_spec c 32) as [L32|G32].
  { rewrite <- app_assoc, pstring_uesc by lia. rewrite IHt. reflexivity. }
  assert (P34 : (c =? 34)%N = false) by (apply N.eqb_neq; lia).
  assert (P92 : (c =? 92)%N = false) by (apply N.eqb_neq; lia).
  assert (P32 : (c <? 32)%N = false) by (apply N.ltb_ge; lia).
  destruct (isHigh c) eqn:Hh.
  - destruct t as [|d t'].
    + rewrite pstring_uesc by (apply isHigh_lt; assumption).
      reflexivity.
    + destruct (isLow d) eqn:Hd.
      * destruct (isLow_plain d Hd) as (Q1 & Q2 & Q3).
        cbn [app]. rewrite pstring_plain by assumption.
        rewrite pstring_plain by assumption.
        rewrite (IH t' rest) by (simpl in Hl; lia). reflexivity.
      * rewrite <- app_assoc, pstring_uesc by (apply isHigh_lt; assumption).
        rewrite IHt. reflexivity.
  - destruct (isLow c) eqn:Hlo.
    + rewrite <- app_assoc, pstring_uesc by (apply isLow_lt; assumption).
      rewrite IHt. reflexivity.
    + cbn [app]. rewrite pstring_plain by assumption.
      rewrite IHt. reflexivity.
Qed.

Lemma pstring_quote_body (s rest : str) :
  pstring (quote_body s ++ 34%N :: rest) = POk (s, rest).
Proof. apply (pstring_quote_body_le (length s)). lia. Qed.

(** A quoted string, after its opening quote. *)
Lemma quote_tail (s rest : str) :
  quote s ++ rest = 34%N :: quote_body s ++ 34%N :: rest.
Proof. unfold quote. simpl. now rewrite <- app_assoc. Qed.

End StringRoundTrip.

Section NumberRoundTrip.

Lemma dec_digit_not_digit (c : cu) : isDigit c = false -> dec_digit c = None.
Proof.
  unfold isDigit, dec_digit. intros H.
  destruct c as [|p]; [reflexivity|].
  do 6 (destruct p as [p|p|]; try reflexivity; try discriminate H).
Qed.

Lemma dec_digit_uint_str (u : Decimal.uint) (rest : str) :
  match rest with [] => True | c :: _ => dec_digit c = None end ->
  read_uint (uint_str u ++ rest) = (u, rest).
Proof.
  intros Hr. induction u; cbn [uint_str app read_uint dec_digit];
    try (rewrite IHu; reflexivity).
  destruct rest as [|c t]; [reflexivity|]. cbn [read_uint]. now rewrite Hr.
Qed.

(** The digits of a natural number: not empty, and no leading zero but
    for zero itself. *)
Lemma to_uint_shape (n : N) :
  match N.to_uint n with
  | Decimal.Nil => False
  | Decimal.D0 Decimal.Nil => True
  | Decimal.D0 _ => False
  | _ => True
  end.
Proof.
  pose proof (DecimalN.Unsigned.to_of (N.to_uint n)) as H.
  rewrite DecimalN.Unsigned.of_to in H.
  destruct (N.to_uint n) as [|u|u|u|u|u|u|u|u|u|u] eqn:E; try exact I.
  - unfold Decimal.unorm in H. simpl in H. discriminate H.
  - destruct u; try exact I.
    all: rewrite DecimalFacts.unorm_D0 in H;
      unfold Decimal.unorm in H; cbn [Decimal.nzhead] in H;
      try discriminate H.
    unfold Decimal.unorm in *.
    destruct (Decimal.nzhead u) eqn:Z; try discriminate H.
    exfalso. apply (DecimalFacts.nzhead_nonzero u (Decimal.D0 u)).
    rewrite Z. injection H as ->. reflexivity.
Qed.

Lemma follow_ok_dec (rest : str) :
  follow_ok rest = true ->
  match rest with [] => True | c :: _ => dec_digit c = None end.
Proof.
  destruct rest as [|c t]; [trivial|]. unfold follow_ok.
  rewrite negb_true_iff, !orb_false_iff. intros [[[H _] _] _].
  now apply dec_digit_not_digit.
Qed.

Lemma pnumber_digits (neg : bool) (n : N) (rest : str) :
  follow_ok rest = true ->
  safeb (if neg then (- Z.of_N n)%Z else Z.of_N n) = true ->
  pnumber neg (uint_str (N.to_uint n) ++ rest)
  = POk (JNum (Fin (if neg then (- Z.of_N n)%Z else Z.of_N n)), rest).
Proof.
  intros Hf Hs. unfold pnumber.
  rewrite dec_digit_uint_str by (now apply follow_ok_dec).
  pose proof (to_uint_shape n) as Sh.
  rewrite DecimalN.Unsigned.of_to.
  assert (Fr : fractionAhead rest = false).
  { destruct rest as [|c t]; [reflexivity|].
    unfold follow_ok in Hf. rewrite negb_true_iff, !orb_false_iff in Hf.
    destruct Hf as [[[_ H1] H2] H3]. cbn [fractionAhead].
    now rewrite H1, H2, H3. }
  assert (Nl : uintNil (N.to_uint n) = false)
    by (destruct (N.to_uint n); [contradiction | reflexivity..]).
  assert (Lz : leadingZero (N.to_uint n) = false).
  { destruct (N.to_uint n) as [|u|u|u|u|u|u|u|u|u|u]; try reflexivity.
    destruct u; try contradiction. reflexivity. }
  rewrite Nl, Lz, Fr. cbv zeta. now rewrite Hs.
Qed.

Lemma Z_str_nonneg (z : Z) :
  (0 <= z)%Z -> Z_str z = uint_str (N.to_uint (Z.to_N z)).
Proof.
  intros H. unfold Z_str.
  destruct (Z.ltb_spec z 0); [lia|]. rewrite Z.abs_eq by lia. reflexivity.
Qed.

Lemma Z_str_neg (z : Z) :
  (z < 0)%Z -> Z_str z = 45%N :: uint_str (N.to_uint (Z.to_N (- z))).
Proof.
  intros H. unfold Z_str.
  destruct (Z.ltb_spec z 0); [|lia]. rewrite Z.abs_neq by lia. reflexivity.
Qed.

(** The first digit of a natural number. *)
Lemma uint_str_head (n : N) :
  exists c t, uint_str (N.to_uint n) = c :: t /\ isDigit c = true.
Proof.
  pose proof (to_uint_shape n) as Sh.
  destruct (N.to_uint n); try contradiction; cbn [uint_str];
    eexists _, _; split; reflexivity.
Qed.

Lemma pvalue_number (n : nat) (z : Z) (rest : str) :
  safeb z = true -> follow_ok rest = true ->
  pvalue (S n) (Z_str z ++ rest) = POk (JNum (Fin z), rest).
Proof.
  intros Hs Hf.
  destruct (Z.ltb_spec z 0) as [Hneg|Hpos].
  - rewrite Z_str_neg by assumption. cbn [app pvalue skip_ws isJsonWs].
    change (isJsonWs 45%N) with false. cbv iota.
    change (45 =? 34)%N with false. change (45 =? 91)%N with false.
    change (45 =? 123)%N with false. change (45 =? 45)%N with true.
    cbv iota.
    pose proof (pnumber_digits true (Z.to_N (- z)) rest Hf) as P.
    cbv iota in P. rewrite Z2N.id in P by lia.
    replace (- - z)%Z with z in P by lia. now apply P.
  - rewrite Z_str_nonneg by assumption.
    destruct (uint_str_head (Z.to_N z)) as (c & t & E & D).
    pose proof (pnumber_digits false (Z.to_N z) rest Hf) as P.
    cbv iota in P. rewrite Z2N.id in P by lia. specialize (P Hs).
    rewrite E in *. cbn [app] in *.
    assert (W : isJsonWs c = false).
    { unfold isDigit in D. apply andb_true_iff in D as [D1 D2].
      apply N.leb_le in D1, D2. unfold isJsonWs.
      rewrite !orb_false_iff. repeat split; apply N.eqb_neq; lia. }
    cbn [pvalue]. rewrite skip_ws_head by assumption.
    unfold isDigit in D. apply andb_true_iff in D as [D1 D2].
    apply N.leb_le in D1, D2.
    replace (c =? 34)%N with false by (symmetry; apply N.eqb_neq; lia).
    replace (c =? 91)%N with false by (symmetry; apply N.eqb_neq; lia).
    replace (c =? 123)%N with false by (symmetry; apply N.eqb_neq; lia).
    replace (c =? 45)%N with false by (symmetry; apply N.eqb_neq; lia).
    replace (isDigit c) with true
      by (symmetry; unfold isDigit; apply andb_true_iff;
          split; apply N.leb_le; lia).
    exact P.
Qed.

End NumberRoundTrip.

Section ValueRoundTrip.

Lemma ser_arr (ind : nat) (x : json) (l : list json) :
  ser ind (JArr (x :: l))
  = 91%N :: nl (S ind) ++ ser (S ind) x ++ ser_more ind l
      ++ nl ind ++ [93%N].
Proof.
  assert (E : forall l,
             (fix more (l0 : list json) : str :=
                match l0 with
                | [] => []
                | y :: l' => 44%N :: nl (S ind) ++ ser (S ind) y ++ more l'
                end) l = ser_more ind l).
  { intros l0. induction l0 as [|y l0 IH]; [reflexivity|].
    cbn [ser_more]. rewrite <- IH. reflexivity. }
  cbn [ser]. rewrite E. reflexivity.
Qed.

Lemma ser_obj (ind : nat) (k : str) (x : json) (l : list (str * json)) :
  ser ind (JObj ((k, x) :: l))
  = 123%N :: nl (S ind) ++ quote k ++ [58; 32]%N ++ ser (S ind) x
      ++ ser_members ind l ++ nl ind ++ [125%N].
Proof.
  assert (E : forall l,
             (fix more (l0 : list (str * json)) : str :=
                match l0 with
                | [] => []
                | (k', y) :: l' =>
                    44%N :: nl (S ind) ++ quote k' ++ [58; 32]%N
                      ++ ser (S ind) y ++ more l'
                end) l = ser_members ind l).
  { intros l0. induction l0 as [|[k' y] l0 IH]; [reflexivity|].
    cbn [ser_members]. rewrite <- IH. reflexivity. }
  cbn [ser]. rewrite E. reflexivity.
Qed.

(** A serialization starts with a character that is neither white space
    nor a closing bracket. *)
Lemma ser_head (ind : nat) (v : json) :
  exists c t, ser ind v = c :: t /\ isJsonWs c = false
              /\ (c =? 93)%N = false /\ (c =? 125)%N = false.
Proof.
  destruct v as [|[|]|[z|b]|s|[|x l]|[|[k x] l]];
    try (eexists _, _; split; [reflexivity | repeat split; reflexivity]).
  unfold ser. destruct (Z.ltb_spec z 0).
    + rewrite Z_str_neg by assumption.
      eexists _, _; split; [reflexivity | repeat split; reflexivity].
    + rewrite Z_str_nonneg by assumption.
      destruct (uint_str_head (Z.to_N z)) as (c & t & E & D).
      exists c, t. split; [assumption|].
      unfold isDigit in D. apply andb_true_iff in D as [D1 D2].
      apply N.leb_le in D1, D2. unfold isJsonWs.
      rewrite !orb_false_iff.
      repeat split; apply N.eqb_neq; lia.
Qed.

Lemma pvalue_skip_nl (n k : nat) (s : str) :
  pvalue n (nl k ++ s) = pvalue n s.
Proof. destruct n; [reflexivity|]. cbn [pvalue]. now rewrite skip_ws_nl. Qed.

Lemma pvalue_skip_space (n : nat) (s : str) :
  pvalue n (32%N :: s) = pvalue n s.
Proof. destruct n; reflexivity. Qed.

Lemma pelems_skip_nl (n k : nat) (s : str) :
  pelems n (nl k ++ s) = pelems n s.
Proof.
  destruct n; [reflexivity|]. cbn [pelems]. now rewrite pvalue_skip_nl.
Qed.

Lemma pmembers_skip_nl (n k : nat) (s : str) :
  pmembers n (nl k ++ s) = pmembers n s.
Proof.
  destruct n; [reflexivity|]. cbn [pmembers]. now rewrite skip_ws_nl.
Qed.

Lemma skip_ws_ser (ind : nat) (v : json) (s : str) :
  skip_ws (ser ind v ++ s) = ser ind v ++ s.
Proof.
  destruct (ser_head ind v) as (c & t & E & W & _). rewrite E.
  cbn [app]. now apply skip_ws_head.
Qed.

Lemma eat_ser (c : cu) (ind : nat) (v : json) (s : str) :
  c = 93%N \/ c = 125%N -> eat c (ser ind v ++ s) = None.
Proof.
  destruct (ser_head ind v) as (c0 & t & E & _ & H1 & H2). rewrite E.
  cbn [app eat]. intros [-> | ->]; [now rewrite H1 | now rewrite H2].
Qed.

Lemma eat_same (c : cu) (s : str) : eat c (c :: s) = Some s.
Proof. unfold eat. now rewrite N.eqb_refl. Qed.

Lemma elems_round_trip (ind : nat) (l : list json) :
  Forall value_ok l -> forallb wfb l = true ->
  forall x, value_ok x -> wfb x = true -> elems_ok ind x l.
Proof.
  induction l as [|y l IH]; intros HF Hw x Hx Wx n rest Hn.
  - simpl in Hn. destruct n as [|n]; [lia|].
    cbn [pelems ser_more app].
    rewrite (Hx Wx) by (try reflexivity; lia).
    cbn [pbind]. rewrite skip_ws_nl. reflexivity.
  - simpl in Hn. destruct n as [|n]; [lia|].
    cbn [forallb] in Hw. apply andb_true_iff in Hw as [Wy Wl].
    apply Forall_cons_1 in HF as [Hy Hl].
    cbn [pelems ser_more].
    rewrite (Hx Wx) by (try reflexivity; lia).
    cbn [pbind app]. rewrite skip_ws_head by reflexivity.
    rewrite eat_same, <- !app_assoc, pelems_skip_nl.
    rewrite (IH Hl Wl y Hy Wy n rest)
      by (simpl; lia).
    reflexivity.
Qed.

End ValueRoundTrip.

Section ObjectRoundTrip.

(** Rewriting the argument of [pbind] with an equation, up to
    conversion. *)
Ltac use_eq R :=
  match type of R with
  | _ = ?rhs =>
      match goal with
      | |- pbind ?a _ = _ => replace a with rhs by (symmetry; exact R)
      end
  end.

Lemma str_eqb_eq (a b : str) : str_eqb a b = true <-> a = b.
Proof. unfold str_eqb. apply bool_decide_eq_true. Qed.

Lemma str_eqb_neq (a b : str) : str_eqb a b = false <-> a <> b.
Proof. unfold str_eqb. apply bool_decide_eq_false. Qed.

Lemma str_eqb_refl (a : str) : str_eqb a a = true.
Proof. now apply str_eqb_eq. Qed.

Lemma existsb_str_eqb (k : str) (ks : list str) :
  existsb (str_eqb k) ks = true <-> In k ks.
Proof.
  rewrite existsb_exists. split.
  - intros (x & Hin & E). apply str_eqb_eq in E. now subst.
  - intros H. exists k. split; [assumption | apply str_eqb_refl].
Qed.

Lemma distinct_NoDup (ks : list str) : distinct ks = true <-> List.NoDup ks.
Proof.
  induction ks as [|k ks IH]; cbn [distinct].
  - split; [constructor | reflexivity].
  - rewrite andb_true_iff, negb_true_iff, IH. split.
    + intros [H1 H2]. constructor; [|assumption].
      intros Hin. apply existsb_str_eqb in Hin. congruence.
    + intros H. inversion H as [|? ? Hn Hd]; subst. split; [|assumption].
      destruct (existsb (str_eqb k) ks) eqn:E; [|reflexivity].
      apply existsb_str_eqb in E. contradiction.
Qed.

Lemma obj_has_In (o : list (str * json)) (k : str) :
  obj_has o k = true <-> In k (List.map fst o).
Proof.
  induction o as [|[k' v] o IH]; cbn [obj_has List.map fst In].
  - split; [discriminate | contradiction].
  - rewrite orb_true_iff, IH, str_eqb_eq. tauto.
Qed.

Lemma obj_set_new (o : list (str * json)) (k : str) (v : json) :
  ~ In k (List.map fst o) -> obj_set o k v = o ++ [(k, v)].
Proof.
  intros H. unfold obj_set.
  destruct (obj_has o k) eqn:E; [|reflexivity].
  apply obj_has_In in E. contradiction.
Qed.

(** Members with distinct names, none an integer index, make the object
    that lists them in order. *)
Lemma build_obj_distinct (ms acc : list (str * json)) :
  forallb (fun p => negb (isIndexKey (fst p))) ms = true ->
  List.NoDup (List.map fst acc ++ List.map fst ms) ->
  build_obj acc ms = POk (acc ++ ms).
Proof.
  revert acc. induction ms as [|[k v] ms IH]; intros acc Hi Hd.
  - cbn [build_obj]. now rewrite app_nil_r.
  - cbn [forallb fst] in Hi. apply andb_true_iff in Hi as [Hk Hi].
    apply negb_true_iff in Hk. cbn [build_obj]. rewrite Hk.
    cbn [List.map fst] in Hd.
    rewrite obj_set_new.
    + rewrite IH; [now rewrite <- app_assoc | assumption |].
      rewrite List.map_app, <- app_assoc. exact Hd.
    + apply List.NoDup_remove_2 in Hd. intros Hin. apply Hd.
      apply in_or_app. now left.
Qed.

Lemma members_round_trip (ind : nat) (l : list (str * json)) :
  Forall (fun p => value_ok (snd p)) l ->
  forallb (fun p => wfb (snd p)) l = true ->
  forall k x, value_ok x -> wfb x = true -> members_ok ind k x l.
Proof.
  induction l as [|[k' y] l IH]; intros HF Hw k x Hx Wx n rest Hn;
    simpl in Hn; (destruct n as [|n]; [lia|]).
  - cbn [pmembers ser_members].
    rewrite quote_tail, skip_ws_head, eat_same by reflexivity.
    rewrite pstring_quote_body. cbn [pbind app].
    rewrite skip_ws_head, eat_same by reflexivity.
    rewrite pvalue_skip_space.
    rewrite (Hx Wx) by (try reflexivity; lia).
    cbn [pbind]. rewrite skip_ws_nl. reflexivity.
  - cbn [forallb snd] in Hw. apply andb_true_iff in Hw as [Wy Wl].
    apply Forall_cons_1 in HF as [Hy Hl]. cbn [snd] in Hy.
    cbn [pmembers ser_members].
    rewrite quote_tail, skip_ws_head, eat_same by reflexivity.
    rewrite pstring_quote_body. cbn [pbind app].
    rewrite skip_ws_head, eat_same by reflexivity.
    rewrite pvalue_skip_space.
    rewrite (Hx Wx) by (try reflexivity; lia).
    cbn [pbind app]. rewrite skip_ws_head by reflexivity.
    rewrite eat_same, <- !app_assoc, pmembers_skip_nl.
    pose proof (IH Hl Wl k' y Hy Wy n rest) as R.
    cbn [app] in R |- *. rewrite <- !app_assoc.
    specialize (R ltac:(simpl; lia)). use_eq R.
    reflexivity.
Qed.

Lemma need_pos (v : json) : 1 <= need v.
Proof. destruct v; simpl; lia. Qed.

Lemma wfb_obj_split (l : list (str * json)) :
  wfb (JObj l) = true ->
  forallb (fun p => negb (isIndexKey (fst p))) l = true
  /\ forallb (fun p => wfb (snd p)) l = true
  /\ List.NoDup (List.map fst l).
Proof.
  cbn [wfb]. rewrite andb_true_iff, distinct_NoDup. intros [H D].
  repeat split; [| |assumption].
  - rewrite forallb_forall in *. intros p Hp.
    specialize (H p Hp). now apply andb_true_iff in H as [H _].
  - rewrite forallb_forall in *. intros p Hp.
    specialize (H p Hp). now apply andb_true_iff in H as [_ H].
Qed.

(** Parsing the serialization of a value gives the value back, whatever
    follows it. *)
Theorem pvalue_ser (v : json) : value_ok v.
Proof.
  induction v as [|b|m|s|l IH|l IH] using json_induction;
    intros W ind n rest Hn Hf;
    (destruct n as [|n]; [pose proof (need_pos
       ltac:(first [exact JNull | exact (JBool b) | exact (JNum m)
                   | exact (JStr s) | exact (JArr l) | exact (JObj l)]));
       simpl in Hn; lia|]).
  - reflexivity.
  - destruct b; reflexivity.
  - destruct m as [z|neg]; [|discriminate W].
    cbn [ser]. now apply pvalue_number.
  - cbn [ser]. rewrite quote_tail. cbn [pvalue].
    rewrite skip_ws_head by reflexivity.
    change (34 =? 34)%N with true. cbv iota.
    rewrite pstring_quote_body. reflexivity.
  - destruct l as [|x l]; [reflexivity|].
    rewrite ser_arr. cbn [app pvalue].
    rewrite skip_ws_head by reflexivity.
    change (91 =? 34)%N with false. change (91 =? 91)%N with true.
    cbv iota.
    rewrite <- !app_assoc, skip_ws_nl, skip_ws_ser, eat_ser by (now left).
    rewrite pelems_skip_nl.
    cbn [wfb forallb] in W. apply andb_true_iff in W as [Wx Wl].
    apply Forall_cons_1 in IH as [Hx Hl].
    pose proof (elems_round_trip ind l Hl Wl x Hx Wx n rest) as R.
    specialize (R ltac:(simpl in Hn |- *; lia)).
    cbn [app]. rewrite <- ?app_assoc. use_eq R. reflexivity.
  - destruct l as [|[k x] l]; [reflexivity|].
    rewrite ser_obj. cbn [app pvalue].
    rewrite skip_ws_head by reflexivity.
    change (123 =? 34)%N with false. change (123 =? 91)%N with false.
    change (123 =? 123)%N with true. cbv iota.
    rewrite <- !app_assoc, skip_ws_nl.
    rewrite quote_tail, skip_ws_head by reflexivity.
    cbn [eat]. change (34 =? 125)%N with false. cbv iota.
    rewrite pmembers_skip_nl.
    destruct (wfb_obj_split _ W) as (Wi & Wv & Wd).
    cbn [forallb snd] in Wv. apply andb_true_iff in Wv as [Wx Wl].
    apply Forall_cons_1 in IH as [Hx Hl]. cbn [snd] in Hx.
    pose proof (members_round_trip ind l Hl Wl k x Hx Wx n rest) as R.
    specialize (R ltac:(simpl in Hn |- *; lia)).
    rewrite quote_tail in R. cbn [app] in R |- *.
    rewrite <- ?app_assoc. use_eq R. cbn [pbind].
    rewrite build_obj_distinct by assumption. reflexivity.
Qed.

End ObjectRoundTrip.

Section ParseStringify.

Lemma length_nl (k : nat) : 1 <= length (nl k).
Proof. unfold nl. simpl. lia. Qed.

Lemma list_sum_cons (a : nat) (l : list nat) :
  list_sum (a :: l) = a + list_sum l.
Proof. reflexivity. Qed.

Lemma need_le_length (v : json) : forall ind, need v <= length (ser ind v).
Proof.
  induction v as [|b|m|s|l IH|l IH] using json_induction; intros ind.
  - simpl. lia.
  - destruct b; simpl; lia.
  - destruct (ser_head ind (JNum m)) as (c & t & E & _). rewrite E.
    simpl. lia.
  - unfold ser, quote. simpl. lia.
  - destruct l as [|x l]; [simpl; lia|].
    rewrite ser_arr. apply Forall_cons_1 in IH as [Hx Hl].
    assert (M : list_sum (List.map (fun y => S (need y)) l)
                <= length (ser_more ind l)).
    { clear Hx. induction Hl as [|y l Hy Hl IHl]; [simpl; lia|].
      cbn [List.map ser_more length]. rewrite list_sum_cons, !length_app.
      specialize (Hy (S ind)). pose proof (length_nl (S ind)). lia. }
    specialize (Hx (S ind)). pose proof (length_nl (S ind)).
    cbn [need List.map length]. rewrite list_sum_cons, !length_app. lia.
  - destruct l as [|[k x] l]; [simpl; lia|].
    rewrite ser_obj. apply Forall_cons_1 in IH as [Hx Hl]. cbn [snd] in Hx.
    assert (M : list_sum (List.map (fun p => S (need (snd p))) l)
                <= length (ser_members ind l)).
    { clear Hx. induction Hl as [|[k' y] l Hy Hl IHl]; [simpl; lia|].
      cbn [List.map ser_members length snd] in *.
      rewrite list_sum_cons, !length_app.
      specialize (Hy (S ind)). pose proof (length_nl (S ind)). lia. }
    specialize (Hx (S ind)). pose proof (length_nl (S ind)).
    cbn [need List.map length snd].
    rewrite list_sum_cons, !length_app. lia.
Qed.

(** [JSON.parse(JSON.stringify(v, null, 2))] is [v], and the fuel of
    [JSON_parse] is enough for it. *)
Theorem parse_stringify (v : json) :
  wfb v = true -> JSON_parse (JSON_stringify v) = POk v.
Proof.
  intros W. unfold JSON_parse, JSON_stringify.
  pose proof (pvalue_ser v W 0 (S (length (ser 0 v))) []) as R.
  rewrite app_nil_r in R. rewrite R; [reflexivity| |reflexivity].
  pose proof (need_le_length v 0). lia.
Qed.

End ParseStringify.

(* ===================================================================== *)
(** * The matcher *)
(* ===================================================================== *)

Section MatcherFacts.

Lemma advanced_refl (pre rest : str) : advanced 0 pre rest pre rest.
Proof. exists []. repeat split. simpl. lia. Qed.

Lemma advanced_step (c : cu) (pre t : str) :
  advanced 1 pre (c :: t) (c :: pre) t.
Proof. exists [c]. repeat split. simpl. lia. Qed.

Lemma advanced_trans (n m : nat) (p0 r0 p1 r1 p2 r2 : str) :
  advanced n p0 r0 p1 r1 -> advanced m p1 r1 p2 r2 ->
  advanced (n + m) p0 r0 p2 r2.
Proof.
  intros (x & -> & -> & Hx) (y & -> & -> & Hy). exists (y ++ x).
  rewrite rev_app_distr, <- !app_assoc, length_app.
  repeat split. lia.
Qed.

Lemma advanced_weaken (n m : nat) (p0 r0 p1 r1 : str) :
  m <= n -> advanced n p0 r0 p1 r1 -> advanced m p0 r0 p1 r1.
Proof. intros H (x & ? & ? & ?). exists x. repeat split; auto. lia. Qed.

Lemma lit_match_advanced (ci : bool) (p pre rest pre' rest' : str) :
  lit_match ci p pre rest = Some (pre', rest') ->
  advanced (length p) pre rest pre' rest'.
Proof.
  revert pre rest. induction p as [|a p IH]; intros pre rest H.
  - injection H as <- <-. apply advanced_refl.
  - cbn [lit_match] in H. destruct rest as [|c t]; [discriminate|].
    destruct (chr_match ci a c); [|discriminate].
    apply IH in H.
    apply (advanced_trans 1 (length p) _ _ _ _ _ _ (advanced_step c pre t) H).
Qed.

Lemma star_greedy_advanced (ci : bool) (a : atom) (cs : caps) (k : cont)
  (st : mstate) :
  forall rest pre,
    star_greedy ci a pre rest cs k = Some st ->
    exists pre' rest',
      k pre' rest' cs = Some st /\ advanced 0 pre rest pre' rest'.
Proof.
  induction rest as [|c t IH]; intros pre H; cbn [star_greedy] in H.
  - exists pre, []. split; [assumption | apply advanced_refl].
  - destruct (atom_match ci a c).
    + destruct (star_greedy ci a (c :: pre) t cs k) eqn:E.
      * injection H as ->. apply IH in E as (pre' & rest' & Hk & Ha).
        exists pre', rest'. split; [assumption|].
        apply (advanced_trans 1 0 _ _ _ _ _ _ (advanced_step c pre t)) in Ha.
        eapply advanced_weaken; [|exact Ha]. lia.
      * exists pre, (c :: t). split; [assumption | apply advanced_refl].
    + exists pre, (c :: t). split; [assumption | apply advanced_refl].
Qed.

Lemma star_lazy_advanced (ci : bool) (a : atom) (cs : caps) (k : cont)
  (st : mstate) :
  forall rest pre,
    star_lazy ci a pre rest cs k = Some st ->
    exists pre' rest',
      k pre' rest' cs = Some st /\ advanced 0 pre rest pre' rest'.
Proof.
  induction rest as [|c t IH]; intros pre H; cbn [star_lazy] in H.
  - destruct (k pre [] cs) eqn:E; [|discriminate]. injection H as ->.
    exists pre, []. split; [assumption | apply advanced_refl].
  - destruct (k pre (c :: t) cs) eqn:E.
    + injection H as ->. exists pre, (c :: t).
      split; [assumption | apply advanced_refl].
    + destruct (atom_match ci a c); [|discriminate].
      apply IH in H as (pre' & rest' & Hk & Ha).
      exists pre', rest'. split; [assumption|].
      apply (advanced_trans 1 0 _ _ _ _ _ _ (advanced_step c pre t)) in Ha.
      eapply advanced_weaken; [|exact Ha]. lia.
Qed.

(** A successful match calls its continuation at a later position of the
    same text, at least [min_len r] characters further. *)
Lemma mt_advanced (ci : bool) (r : re) :
  forall pre rest cs k st,
    mt ci r pre rest cs k = Some st ->
    exists pre' rest' cs',
      k pre' rest' cs' = Some st
      /\ advanced (min_len r) pre rest pre' rest'.
Proof.
  induction r as [a|p|r1 IH1 r2 IH2|r1 IH1 r2 IH2|g a|i r1 IH1| | |];
    intros pre rest cs k st H; cbn [mt min_len] in *.
  - destruct rest as [|c t]; [discriminate|].
    destruct (atom_match ci a c); [|discriminate].
    exists (c :: pre), t, cs. split; [assumption | apply advanced_step].
  - destruct (lit_match ci p pre rest) as [[pre' rest']|] eqn:E;
      [|discriminate].
    exists pre', rest', cs. split; [assumption|].
    now apply lit_match_advanced with (ci := ci).
  - apply IH1 in H as (p1 & q1 & c1 & H & A1).
    apply IH2 in H as (p2 & q2 & c2 & H & A2).
    exists p2, q2, c2. split; [assumption|].
    eapply advanced_trans; eassumption.
  - destruct (mt ci r1 pre rest cs k) eqn:E.
    + injection H as ->. apply IH1 in E as (p1 & q1 & c1 & H & A1).
      exists p1, q1, c1. split; [assumption|].
      eapply advanced_weaken; [|exact A1]. lia.
    + apply IH2 in H as (p1 & q1 & c1 & H & A1).
      exists p1, q1, c1. split; [assumption|].
      eapply advanced_weaken; [|exact A1]. lia.
  - destruct g.
    + apply star_greedy_advanced in H as (p1 & q1 & H & A).
      exists p1, q1, cs. now split.
    + apply star_lazy_advanced in H as (p1 & q1 & H & A).
      exists p1, q1, cs. now split.
  - apply IH1 in H as (p1 & q1 & c1 & H & A1).
    exists p1, q1, ((i, consumed (length pre) p1) :: c1). now split.
  - destruct pre; [|discriminate].
    exists [], rest, cs. split; [assumption | apply advanced_refl].
  - destruct rest; [|discriminate].
    exists pre, [], cs. split; [assumption | apply advanced_refl].
  - destruct (xorb _ _); [|discriminate].
    exists pre, rest, cs. split; [assumption | apply advanced_refl].
Qed.

Lemma consumed_app (x pre : str) : consumed (length pre) (x ++ pre) = rev x.
Proof.
  unfold consumed. rewrite length_app.
  replace (length x + length pre - length pre) with (length x) by lia.
  rewrite firstn_app, firstn_all, Nat.sub_diag. simpl.
  now rewrite app_nil_r.
Qed.

(** A match at a position: the text before it is the text before the
    position, the three parts make up the whole text, and the matched
    text has at least [min_len r] characters. *)
Lemma match_at_spec (ci : bool) (r : re) (pre rest : str) (m : rmatch) :
  match_at ci r pre rest = Some m ->
  m_before m = rev pre
  /\ rest = m_0 m ++ m_after m
  /\ min_len r <= length (m_0 m).
Proof.
  unfold match_at.
  destruct (mt ci r pre rest [] _) as [st|] eqn:E; [|discriminate].
  intros H. injection H as <-. cbn [m_before m_0 m_after].
  apply mt_advanced in E as (p1 & q1 & c1 & H & (x & -> & -> & Hx)).
  injection H as <-. cbn [st_pre st_rest].
  rewrite consumed_app, length_rev. auto.
Qed.

(** The global patterns of the converter never match the empty text, so
    the loops over [exec] advance. *)
Lemma global_patterns_nonempty (ci : bool) (pre rest : str) (m : rmatch) :
  match_at ci Builder.ruleRegex pre rest = Some m
  \/ match_at ci Builder.exampleRegex pre rest = Some m
  \/ match_at ci Builder.propRegex pre rest = Some m ->
  m_0 m <> [].
Proof.
  intros [H|[H|H]]; apply match_at_spec in H as (_ & _ & L);
    intros E; rewrite E in L; vm_compute in L; lia.
Qed.

End MatcherFacts.

Section ScanFacts.

(** Every match that a loop over [exec] visits is a match at a position
    of the scanned text. *)
Lemma scan_spec (ci : bool) (r : re) (m : rmatch) :
  forall rest pre skip,
    In m (scan ci r pre rest skip) ->
    exists pre1 rest1,
      match_at ci r pre1 rest1 = Some m
      /\ rev pre1 ++ rest1 = rev pre ++ rest.
Proof.
  induction rest as [|c t IH]; intros pre skip H.
  - destruct skip; cbn [scan] in H; [|contradiction].
    destruct (match_at ci r pre []) eqn:E; [|contradiction].
    destruct H as [<-|[]]. now exists pre, [].
  - assert (Step : forall n, In m (scan ci r (c :: pre) t n) ->
              exists pre1 rest1,
                match_at ci r pre1 rest1 = Some m
                /\ rev pre1 ++ rest1 = rev pre ++ c :: t).
    { intros n Hn. apply IH in Hn as (p1 & q1 & Hm & E).
      exists p1, q1. split; [assumption|]. rewrite E. simpl.
      now rewrite <- app_assoc. }
    destruct skip; cbn [scan] in H; [|now apply Step in H].
    destruct (match_at ci r pre (c :: t)) eqn:E.
    + destruct H as [<-|H]; [now exists pre, (c :: t) | now apply Step in H].
    + now apply Step in H.
Qed.

Lemma exec_all_spec (ci : bool) (r : re) (s : str) (m : rmatch) :
  In m (exec_all ci r s) ->
  m_before m ++ m_0 m ++ m_after m = s /\ min_len r <= length (m_0 m).
Proof.
  intros H. apply scan_spec in H as (p1 & q1 & Hm & E).
  apply match_at_spec in Hm as (B & R & L). split; [|assumption].
  rewrite B, <- R. exact E.
Qed.

End ScanFacts.

Section WrapperFacts.

(** White space up to the end of the text cannot be matched while a
    character that is not white space is still ahead. *)
Lemma star_space_eol (k : cont) (cs : caps) :
  (forall p q c, q <> [] -> k p q c = None) ->
  forall t pre,
    star_greedy false ASpace pre (t ++ [59; 10]%N) cs k = None.
Proof.
  intros Hk. induction t as [|c t IH]; intros pre.
  - cbn. now apply Hk.
  - cbn [app star_greedy].
    destruct (atom_match false ASpace c).
    + rewrite IH. now apply Hk.
    + now apply Hk.
Qed.

Lemma suffix_no_match (c : cu) (t pre : str) :
  match_at false Annotator.suffixRegex pre (c :: t ++ [59; 10]%N) = None.
Proof.
  unfold match_at, Annotator.suffixRegex. cbn [Builder.seqs mt].
  destruct (atom_match false (Builder.chr ";") c); [|reflexivity].
  rewrite star_space_eol; [reflexivity|].
  intros p q cs Hq. cbn [mt]. destruct q; [contradiction | reflexivity].
Qed.

(** The first match of [;\s*$] in a text that ends with a semicolon and
    a line feed is that ending. *)
Lemma suffix_search (s : str) :
  forall pre,
    search_from false Annotator.suffixRegex pre (s ++ [59; 10]%N)
    = Some (RMatch (rev pre ++ s) [59; 10]%N [] []).
Proof.
  induction s as [|c t IH]; intros pre.
  - cbn [app search_from].
    replace (match_at false Annotator.suffixRegex pre [59; 10]%N)
      with (Some (RMatch (rev pre) (consumed (length pre)
                                      ([10; 59]%N ++ pre)) [] []))
      by reflexivity.
    rewrite consumed_app, app_nil_r. reflexivity.
  - cbn [app search_from]. rewrite suffix_no_match, IH.
    cbn [rev]. now rewrite <- app_assoc.
Qed.

Lemma replace_suffix (s : str) :
  replace_first false Annotator.suffixRegex [] (s ++ [59; 10]%N) = s.
Proof.
  unfold replace_first, rx_match. rewrite suffix_search.
  cbn [m_before m_after rev app]. now rewrite app_nil_r.
Qed.

Lemma search_from_here (ci : bool) (r : re) (pre rest : str) (m : rmatch) :
  match_at ci r pre rest = Some m -> search_from ci r pre rest = Some m.
Proof. intros H. destruct rest; cbn [search_from]; now rewrite H. Qed.

(** The prefix pattern takes the assignment and the line feed, and stops
    at a character that is not white space. *)
Lemma replace_prefix (c : cu) (t : str) :
  isSpace c = false ->
  replace_first false Annotator.prefixRegex []
    (lit "const RULES_DATA =" ++ [10%N] ++ c :: t)
  = c :: t.
Proof.
  intros Hc. unfold replace_first, rx_match.
  rewrite (search_from_here _ _ _ _
             (RMatch [] (lit "const RULES_DATA =" ++ [10%N]) [] (c :: t))).
  - reflexivity.
  - unfold match_at, Annotator.prefixRegex.
    let l := eval vm_compute in (lit "const RULES_DATA =") in
    change (lit "const RULES_DATA =") with l.
    cbn [Builder.seqs mt app lit_match chr_match N.eqb Pos.eqb].
    cbn [star_greedy atom_match]. change (isSpace 10%N) with true.
    cbv iota. rewrite Hc. reflexivity.
Qed.

End WrapperFacts.

(* ===================================================================== *)
(** * The data module and its re-reading *)
(* ===================================================================== *)

Section WrapFacts.

Lemma ser_head_nospace (ind : nat) (v : json) :
  exists c t, ser ind v = c :: t /\ isSpace c = false.
Proof.
  destruct v as [|[|]|[z|b]|s|[|x l]|[|[k x] l]];
    try (eexists _, _; split; reflexivity).
  unfold ser. destruct (Z.ltb_spec z 0).
  - rewrite Z_str_neg by assumption. eexists _, _; split; reflexivity.
  - rewrite Z_str_nonneg by assumption.
    destruct (uint_str_head (Z.to_N z)) as (c & t & E & D).
    exists c, t. split; [assumption|].
    unfold isDigit in D. apply andb_true_iff in D as [D1 D2].
    apply N.leb_le in D1, D2. unfold isSpace.
    repeat (apply orb_false_iff; split);
      try (apply N.eqb_neq; lia);
      apply andb_false_iff;
      first [ right; apply N.leb_gt; lia | left; apply N.leb_gt; lia ].
Qed.

(** Step 2 of the annotator undoes the wrapper of the converter. *)
Lemma stripWrapper_wrap (v : json) :
  Annotator.stripWrapper (Builder.wrap v) = JSON_stringify v.
Proof.
  unfold Annotator.stripWrapper, Builder.wrap, JSON_stringify.
  destruct (ser_head_nospace 0 v) as (c & t & E & Hc). rewrite E.
  change ((c :: t) ++ [59; 10]%N) with (c :: (t ++ [59; 10]%N)).
  rewrite replace_prefix by assumption.
  change (c :: t ++ [59; 10]%N) with ((c :: t) ++ [59; 10]%N).
  apply replace_suffix.
Qed.

(** What the annotator reads back from a data module. *)
Lemma parse_wrap (v : json) :
  wfb v = true ->
  JSON_parse (Annotator.stripWrapper (Builder.wrap v)) = POk v.
Proof. intros W. rewrite stripWrapper_wrap. now apply parse_stringify. Qed.

Lemma wfb_strings (l : list str) : forallb wfb (List.map JStr l) = true.
Proof. induction l; simpl; auto. Qed.

Lemma wfb_properties (ps : list Builder.property) :
  forallb wfb (List.map Builder.property_json ps) = true.
Proof.
  induction ps as [|p ps IH]; [reflexivity|].
  cbn [List.map forallb]. rewrite IH. now rewrite andb_true_r.
Qed.

Ltac wf_fields :=
  repeat (apply andb_true_iff; split);
  first [ reflexivity | assumption | apply wfb_strings
        | apply wfb_properties | idtac ].

(** The object of a record with a safe priority is in the domain of the
    round trip. *)
Lemma wfb_rule_json (r : Builder.rule) :
  Builder.safe_priority r = true -> wfb (Builder.rule_json r) = true.
Proof.
  unfold Builder.safe_priority.
  destruct r as [n c cn si me rc ex de pr exs ps mx mn]. cbn [Builder.priority].
  destruct pr as [z|b]; [|discriminate]. intros Hz.
  unfold Builder.rule_json.
  cbn [Builder.name Builder.category Builder.categoryName Builder.since
       Builder.message Builder.ruleClass Builder.externalInfoUrl
       Builder.description Builder.priority Builder.examples
       Builder.properties Builder.maxLanguageVersion
       Builder.minLanguageVersion].
  destruct ps as [ps|], mx as [mx|], mn as [mn|];
    cbn [Builder.opt_key app wfb forallb List.map fst snd];
    wf_fields.
Qed.

Lemma wfb_catalogue (rules : list Builder.rule) :
  forallb Builder.safe_priority rules = true ->
  wfb (Builder.catalogue_json rules) = true.
Proof.
  unfold Builder.catalogue_json. cbn [wfb].
  induction rules as [|r rules IH]; [reflexivity|].
  cbn [forallb List.map]. rewrite !andb_true_iff. intros [Hr Hl].
  split; [now apply wfb_rule_json | now apply IH].
Qed.

End WrapFacts.

(* ===================================================================== *)
(** * The rule parser *)
(* ===================================================================== *)

Section ParseIntFacts.

Lemma trimStart_head (c : cu) (s : str) :
  isSpace c = false -> trimStart (c :: s) = c :: s.
Proof. intros H. cbn [trimStart]. now rewrite H. Qed.

Lemma digit_not_space (c : cu) : isDigit c = true -> isSpace c = false.
Proof.
  unfold isDigit. rewrite andb_true_iff, !N.leb_le. intros [D1 D2].
  unfold isSpace.
  repeat (apply orb_false_iff; split);
    try (apply N.eqb_neq; lia);
    apply andb_false_iff;
    first [ right; apply N.leb_gt; lia | left; apply N.leb_gt; lia ].
Qed.


Lemma uint_str_digits (u : Decimal.uint) :
  forallb isDigit (uint_str u) = true.
Proof. induction u; cbn [uint_str forallb]; auto. Qed.

Lemma hexPrefix_digits (s : str) :
  forallb isDigit s = true -> hexPrefix s = None.
Proof.
  destruct s as [|c [|x t]]; try reflexivity. cbn [forallb hexPrefix].
  rewrite !andb_true_iff. intros (_ & Dx & _).
  unfold isDigit in Dx. apply andb_true_iff in Dx as [D1 D2].
  apply N.leb_le in D1, D2.
  replace (x =? 120)%N with false by (symmetry; apply N.eqb_neq; lia).
  replace (x =? 88)%N with false by (symmetry; apply N.eqb_neq; lia).
  now rewrite andb_false_r.
Qed.

Lemma toNumber_small (z : Z) : (Z.abs z < 2 ^ 53)%Z -> toNumber z = Fin z.
Proof.
  intros H. unfold toNumber. destruct (Z.ltb_spec (Z.abs z) (2 ^ 53)); [reflexivity | lia].
Qed.

Lemma mathInt_digits (n : N) : mathInt (uint_str (N.to_uint n)) = Some n.
Proof.
  unfold mathInt, decValue.
  rewrite hexPrefix_digits by apply uint_str_digits.
  rewrite <- (app_nil_r (uint_str _)), dec_digit_uint_str by exact I.
  cbn [fst]. pose proof (to_uint_shape n) as Sh.
  pose proof (DecimalN.Unsigned.of_to n) as OT.
  destruct (N.to_uint n); try contradiction; now rewrite OT.
Qed.

Lemma parseInt_digits (neg : bool) (n : N) :
  (Z.of_N n < 2 ^ 53)%Z ->
  parseInt ((if neg then [45%N] else []) ++ uint_str (N.to_uint n))
  = Some (Fin (if neg then (- Z.of_N n)%Z else Z.of_N n)).
Proof.
  intros Hn.
  assert (T : forall sg : bool,
             toNumber (if sg then (- Z.of_N n)%Z else Z.of_N n)
             = Fin (if sg then (- Z.of_N n)%Z else Z.of_N n))
    by (intros sg; apply toNumber_small; destruct sg; lia).
  unfold parseInt. destruct neg; cbn [app].
  - cbn [trimStart]. change (isSpace 45%N) with false. cbv iota.
    cbn [readSign]. change (45 =? 45)%N with true. cbv iota.
    cbn [fst snd]. rewrite mathInt_digits. f_equal. exact (T true).
  - destruct (uint_str_head n) as (c & t & E & D).
    assert (Sg : readSign (trimStart (uint_str (N.to_uint n)))
                 = (false, uint_str (N.to_uint n))).
    { rewrite E, trimStart_head by (now apply digit_not_space).
      unfold isDigit in D. apply andb_true_iff in D as [D1 D2].
      apply N.leb_le in D1, D2. unfold readSign.
      replace (c =? 45)%N with false by (symmetry; apply N.eqb_neq; lia).
      replace (c =? 43)%N with false by (symmetry; apply N.eqb_neq; lia).
      reflexivity. }
    rewrite Sg. cbn [fst snd]. rewrite mathInt_digits. f_equal.
    exact (T false).
Qed.

(** [parseInt] reads back the digits of an integer below 2^53. *)
Lemma parseInt_Z_str (z : Z) :
  (Z.abs z < 2 ^ 53)%Z -> parseInt (Z_str z) = Some (Fin z).
Proof.
  intros H. unfold Z_str. destruct (Z.ltb_spec z 0).
  - pose proof (parseInt_digits true (Z.to_N (Z.abs z))) as P.
    rewrite Z2N.id in P by lia. rewrite P by lia. f_equal. f_equal. lia.
  - pose proof (parseInt_digits false (Z.to_N (Z.abs z))) as P.
    rewrite Z2N.id in P by lia. rewrite P by lia. f_equal. f_equal. lia.
Qed.

End ParseIntFacts.

(* ===================================================================== *)
(** * The filter of the viewer *)
(* ===================================================================== *)

Section IncludesFacts.

Lemma startsWith_spec (p s : str) :
  startsWith p s = true <-> exists b, s = p ++ b.
Proof.
  revert s. induction p as [|a p IH]; intros s; cbn [startsWith].
  - split; [intros _; now exists s | reflexivity].
  - destruct s as [|c s].
    + split; [discriminate | intros (b & E); discriminate E].
    + rewrite andb_true_iff, N.eqb_eq, IH. split.
      * intros (-> & b & ->). now exists b.
      * intros (b & E). injection E as -> ->. split; [reflexivity|].
        now exists b.
Qed.

(** [s.includes(t)] holds exactly when [t] occurs in [s]. *)
Lemma includes_spec (s t : str) :
  includes s t = true <-> Viewer.substring t s.
Proof.
  unfold Viewer.substring. induction s as [|c s IH]; cbn [includes].
  - rewrite orb_false_r, startsWith_spec. split.
    + intros (b & E). now exists [], b.
    + intros (a & b & E). destruct a; [now exists b|discriminate E].
  - rewrite orb_true_iff, startsWith_spec, IH. split.
    + intros [(b & E) | (a & b & E)].
      * now exists [], b.
      * exists (c :: a), b. now rewrite E.
    + intros (a & b & E). destruct a as [|c' a].
      * left. now exists b.
      * right. injection E as -> ->. now exists a, b.
Qed.

Lemma includes_nil_false (t : str) : t <> [] -> includes [] t = false.
Proof. destruct t; [contradiction | reflexivity]. Qed.

End IncludesFacts.

Section FilterFacts.

Variable toLowerCase : str -> str.
Hypothesis lower_empty : toLowerCase [] = [].

Lemma isStr_inv (v : option json) :
  Viewer.isStr v = true -> exists s, v = Some (JStr s).
Proof. destruct v as [[]|]; try discriminate. intros _. now eexists. Qed.

Lemma viewable_not_null (r : json) :
  Viewer.viewable r = true -> Annotator.isNull r = false.
Proof. destruct r; try reflexivity. discriminate. Qed.

Lemma matchesCategory_spec (f : Viewer.filters) (r : json) :
  Annotator.isNull r = false ->
  exists b, Viewer.matchesCategory f r = Some b
    /\ (b = true <->
        (Viewer.categories f = []
         \/ exists c, get_field r (lit "category") = Some (JStr c)
                      /\ In c (Viewer.categories f))).
Proof.
  intros Hn. unfold Viewer.matchesCategory. rewrite Hn.
  destruct (Viewer.categories f) as [|c0 cs] eqn:E.
  - exists true. split; [reflexivity|]. split; auto.
  - assert (No : forall b, (b = true <-> ([] : list str) = c0 :: cs \/ False)
                          -> False -> b = true) by tauto.
    destruct (get_field r (lit "category")) as [[| | |c| |]|];
      try (exists false; split; [reflexivity|]; split;
           [discriminate | intros [D|(c' & D & _)]; discriminate D]).
    exists (existsb (str_eqb c) (c0 :: cs)). split; [reflexivity|].
    rewrite existsb_exists. split.
    + intros (x & Hin & Hx). apply str_eqb_eq in Hx. subst x.
      right. now exists c.
    + intros [D|(c' & D & Hin)]; [discriminate D|].
      injection D as <-. exists c. split; [assumption|apply str_eqb_refl].
Qed.

(** A printable value converts to a text. *)
Lemma printable_toString (v : json) :
  Viewer.printable v = true -> exists text, Viewer.toString v = Some text.
Proof.
  induction v as [|b|n|s|l IH|o _] using json_induction;
    cbn [Viewer.toString Viewer.printable]; intros H.
  - now eexists.
  - destruct b; now eexists.
  - now eexists.
  - now eexists.
  - assert (E : exists r,
               (fix elements (l : list json) : option (list str) :=
                  match l with
                  | [] => Some []
                  | e :: l' =>
                      match (match e with
                             | JNull => Some []
                             | _ => Viewer.toString e
                             end) with
                      | None => None
                      | Some s =>
                          match elements l' with
                          | None => None
                          | Some r => Some (s :: r)
                          end
                      end
                  end) l = Some r).
    { induction IH as [|e l He _ IHl].
      - now eexists.
      - cbn [forallb] in H. apply andb_true_iff in H as [H1 H2].
        destruct (IHl H2) as (r & ->).
        destruct (He H1) as (s & Es).
        destruct e; rewrite ?Es; now eexists. }
    destruct E as (r & ->). now eexists.
  - destruct (obj_has o (lit "toString")); [discriminate H | now eexists].
Qed.

Lemma printableU_toStringU (v : option json) :
  Viewer.printableU v = true ->
  exists text, Viewer.toStringU v = Some text.
Proof.
  destruct v as [v|]; cbn [Viewer.printableU Viewer.toStringU].
  - apply printable_toString.
  - intros _. now eexists.
Qed.

Lemma filterable_viewable (r : json) :
  Viewer.filterable r = true -> Viewer.viewable r = true.
Proof. unfold Viewer.filterable. now intros [? _]%andb_true_iff. Qed.

Lemma matchesPriority_spec (f : Viewer.filters) (r : json) (text : str) :
  Annotator.isNull r = false ->
  Viewer.toStringU (get_field r (lit "priority")) = Some text ->
  exists b, Viewer.matchesPriority f r = Some b
    /\ (b = true <->
        (Viewer.priorities f = []
         \/ exists text,
              Viewer.toStringU (get_field r (lit "priority")) = Some text
              /\ In text (Viewer.priorities f))).
Proof.
  intros Hn Ht. unfold Viewer.matchesPriority. rewrite Hn, Ht.
  destruct (Viewer.priorities f) as [|p0 ps] eqn:E.
  - exists true. split; [reflexivity|]. split; auto.
  - eexists. split; [reflexivity|]. rewrite existsb_exists. split.
    + intros (x & Hin & Hx). apply str_eqb_eq in Hx. subst x.
      right. now exists text.
    + intros [D|(t' & Et & Hin)]; [discriminate D|].
      injection Et as <-.
      eexists. split; [exact Hin | apply str_eqb_refl].
Qed.

Lemma matchesSearch_spec (term : str) (r : json) :
  Viewer.viewable r = true ->
  exists b, Viewer.matchesSearch toLowerCase term r = Some b
    /\ (b = true <->
        (term = []
         \/ Viewer.substring term
              (toLowerCase (Viewer.strOf (get_field r (lit "name"))))
         \/ Viewer.substring term
              (toLowerCase (Viewer.strOf (get_field r (lit "message"))))
         \/ Viewer.substring term
              (toLowerCase
                 (Viewer.strOf (get_field r (lit "description"))))
         \/ Viewer.substring term
              (toLowerCase
                 (Viewer.strOf (get_field r (lit "categoryName")))))).
Proof.
  intros V. pose proof (viewable_not_null r V) as Hn.
  unfold Viewer.viewable in V. rewrite !andb_true_iff in V.
  destruct V as [[[Vn Vm] Vd] Vc].
  apply isStr_inv in Vn as (n & En), Vm as (m & Em), Vd as (d & Ed).
  unfold Viewer.matchesSearch. rewrite Hn, En, Em, Ed.
  cbn [Viewer.lowerIncludes Viewer.strOf].
  destruct term as [|t0 ts].
  { exists true. split; [reflexivity|]. split; auto. }
  cbv iota. remember (t0 :: ts) as term eqn:Et.
  assert (Tne : term <> []) by (subst; discriminate). clear Et t0 ts.
  assert (Cat : exists b,
             (if Viewer.falsy (get_field r (lit "categoryName"))
              then Some false
              else Viewer.lowerIncludes toLowerCase
                     (get_field r (lit "categoryName")) term) = Some b
             /\ (b = true <->
                 Viewer.substring term
                   (toLowerCase
                      (Viewer.strOf (get_field r (lit "categoryName")))))).
  { destruct (get_field r (lit "categoryName"))
      as [[| [|]| [[|?|?]|?]|[|c0 cn]| |]|];
      try discriminate Vc;
      cbn [Viewer.falsy Viewer.lowerIncludes Viewer.strOf].
    all: try (exists false; split; [reflexivity|];
              split; [discriminate|]; intros H;
              rewrite lower_empty in H; apply includes_spec in H;
              rewrite includes_nil_false in H by assumption;
              discriminate H).
    eexists. split; [reflexivity|]. apply includes_spec. }
  destruct Cat as (bc & Ec & Hc).
  destruct (includes (toLowerCase n) term) eqn:In1.
  { exists true. split; [reflexivity|]. split; [|reflexivity].
    intros _. right. left. now apply includes_spec. }
  destruct (includes (toLowerCase m) term) eqn:In2.
  { exists true. split; [reflexivity|]. split; [|reflexivity].
    intros _. right. right. left. now apply includes_spec. }
  destruct (includes (toLowerCase d) term) eqn:In3.
  { exists true. split; [reflexivity|]. split; [|reflexivity].
    intros _. right. right. right. left. now apply includes_spec. }
  exists bc. split; [exact Ec|]. rewrite Hc. split.
  - intros H. now repeat right.
  - intros [H|[H|[H|[H|H]]]]; try assumption;
      try contradiction;
      apply includes_spec in H; congruence.
Qed.

(** On a record that the filter can read, the callback of the filter
    does not throw and says whether the record is selected. *)
Lemma keeps_spec (f : Viewer.filters) (term : str) (r : json) :
  Viewer.filterable r = true ->
  exists b, Viewer.keeps toLowerCase f term r = Some b
    /\ (b = true <-> Viewer.selected toLowerCase f term r).
Proof.
  intros [V Hp]%andb_true_iff. pose proof (viewable_not_null r V) as Hn.
  apply printableU_toStringU in Hp as (text & Ht).
  destruct (matchesCategory_spec f r Hn) as (bc & Ec & Hc).
  destruct (matchesPriority_spec f r text Hn Ht) as (bp & Ep & Hp).
  destruct (matchesSearch_spec term r V) as (bs & Es & Hs).
  unfold Viewer.keeps. rewrite Ec, Ep, Es.
  exists (bc && bp && bs). split; [reflexivity|].
  unfold Viewer.selected. rewrite !andb_true_iff, Hc, Hp, Hs. tauto.
Qed.

Lemma filterM_spec (cb : json -> option bool) (P : json -> Prop)
  (l : list json) :
  Forall (fun r => exists b, cb r = Some b /\ (b = true <-> P r)) l ->
  exists out,
    Viewer.filterM cb l = Some out
    /\ out = List.filter (fun r => default false (cb r)) l
    /\ forall r, In r out <-> In r l /\ P r.
Proof.
  induction 1 as [|x l (b & Eb & Hb) Hl (out & Eo & Ef & Hin)].
  - exists []. repeat split; try contradiction. now intros [].
  - cbn [Viewer.filterM List.filter]. rewrite Eb, Eo. cbn [default].
    exists (if b then x :: out else out).
    split; [reflexivity|]. split; [destruct b; now rewrite Ef|].
    intros r. destruct b; cbn [In]; rewrite Hin; split.
    + intros [<-|[? ?]]; [split; [now left | now apply Hb] | tauto].
    + tauto.
    + tauto.
    + intros [[<-|?] HP]; [|tauto]. apply Hb in HP. discriminate HP.
Qed.

End FilterFacts.

Section Pages.

Lemma pageRules_eq (rs out : list json) (p : nat) :
  Viewer.pageRules (Viewer.State rs out p)
  = firstn Viewer.RULES_PER_PAGE
      (skipn ((p - 1) * Viewer.RULES_PER_PAGE) out).
Proof. reflexivity. Qed.

Lemma page_length (rs out : list json) (p : nat) :
  length (Viewer.pageRules (Viewer.State rs out p))
  <= Viewer.RULES_PER_PAGE.
Proof. rewrite pageRules_eq. apply firstn_le_length. Qed.

Lemma page_full (rs out : list json) (p : nat) :
  1 <= p -> p * Viewer.RULES_PER_PAGE <= length out ->
  length (Viewer.pageRules (Viewer.State rs out p))
  = Viewer.RULES_PER_PAGE.
Proof.
  intros Hp Hl. rewrite pageRules_eq, length_firstn, length_skipn.
  unfold Viewer.RULES_PER_PAGE in *. lia.
Qed.

Lemma chunks_concat (k : nat) :
  forall (n : nat) (l : list json),
    length l <= n * S k ->
    concat (List.map (fun i => firstn (S k) (skipn (i * S k) l)) (seq 0 n))
    = l.
Proof.
  induction n as [|n IH]; intros l Hl.
  - destruct l; [reflexivity | simpl in Hl; lia].
  - cbn [seq List.map concat]. rewrite <- seq_shift, List.map_map.
    transitivity (firstn (S k) l ++ skipn (S k) l);
      [|apply firstn_skipn].
    f_equal.
    etransitivity; [|apply (IH (skipn (S k) l)); rewrite length_skipn; lia].
    f_equal. apply List.map_ext. intros i.
    rewrite skipn_skipn. do 2 f_equal. lia.
Qed.

(** The pages 1 to [totalPages], one after the other, are the filtered
    list. *)
Lemma pages_concat (rs out : list json) :
  concat (List.map (fun p => Viewer.pageRules (Viewer.State rs out p))
                   (seq 1 (Viewer.totalPages (Viewer.State rs out 1))))
  = out.
Proof.
  unfold Viewer.totalPages. cbn [Viewer.filteredRules].
  rewrite <- seq_shift, List.map_map.
  rewrite <- (chunks_concat 19 ((length out + 19) / 20) out) at 2.
  - apply f_equal, List.map_ext. intros i. rewrite pageRules_eq.
    unfold Viewer.RULES_PER_PAGE. do 2 f_equal. lia.
  - pose proof (Nat.div_mod_eq (length out + 19) 20).
    pose proof (Nat.mod_upper_bound (length out + 19) 20). lia.
Qed.

End Pages.

Section ViewerClaim.

Variable toLowerCase : str -> str.
Hypothesis lower_empty : toLowerCase [] = [].

(** C8.  On a catalogue whose records the filter can read (the name,
    the message and the description are strings, the category name is a
    string or missing, and the priority converts to a text: it is no
    object with a property [toString] of its own, and its numbers are
    integers of magnitude at most 2^53 or infinite), and for every state
    of the filters, [applyFilters] keeps exactly the records that pass
    the three conditions: no category is selected or the category of the
    record is one of those selected; no priority is selected or the text
    of the priority of the record is one of those selected; the search
    term (the text of the search box, lower-cased and trimmed) is empty
    or occurs in the lower-cased [name], [message], [description] or
    [categoryName].  The page is set to 1, and the pages are slices of
    20 records of the result: each has at most 20 records, each page
    before the last has exactly 20, and the pages put end to end are the
    result. *)
Theorem C8_filter_and_pages (f : Viewer.filters) (st : Viewer.state) :
  Forall (fun r => Viewer.filterable r = true) (Viewer.rules st) ->
  exists out,
    Viewer.applyFilters toLowerCase f st
    = Some (Viewer.State (Viewer.rules st) out 1)
    /\ (forall r,
          In r out <->
          In r (Viewer.rules st)
          /\ Viewer.selected toLowerCase f
               (trim (toLowerCase (Viewer.searchValue f))) r)
    /\ (forall p,
          1 <= p ->
          Viewer.pageRules (Viewer.State (Viewer.rules st) out p)
          = firstn 20 (skipn ((p - 1) * 20) out)
          /\ length (Viewer.pageRules
                       (Viewer.State (Viewer.rules st) out p)) <= 20
          /\ (p * 20 <= length out ->
              length (Viewer.pageRules
                        (Viewer.State (Viewer.rules st) out p)) = 20))
    /\ concat (List.map
                 (fun p => Viewer.pageRules
                             (Viewer.State (Viewer.rules st) out p))
                 (seq 1 (Viewer.totalPages
                           (Viewer.State (Viewer.rules st) out 1))))
       = out.
Proof.
  intros V.
  destruct (filterM_spec
              (Viewer.keeps toLowerCase f
                 (trim (toLowerCase (Viewer.searchValue f))))
              (Viewer.selected toLowerCase f
                 (trim (toLowerCase (Viewer.searchValue f))))
              (Viewer.rules st)) as (out & Eo & _ & Hin).
  { eapply List.Forall_impl; [|exact V]. intros r Hr.
    now apply keeps_spec. }
  exists out. split; [|split; [exact Hin|split]].
  - unfold Viewer.applyFilters. now rewrite Eo.
  - intros p Hp. split; [reflexivity|]. split.
    + apply page_length.
    + intros Hl. now apply page_full.
  - apply pages_concat.
Qed.

End ViewerClaim.

(* ===================================================================== *)
(** * The records of the rule parser *)
(* ===================================================================== *)

Section RuleParser.

Import Builder.

(** What a record is made of, when the loop emits one. *)
Lemma ruleOfMatch_inv (category rulesetName : str) (m : rmatch) (r : rule) :
  ruleOfMatch category rulesetName m = Some r ->
  rx_test false refRegex (attrsOf m) = false
  /\ extractAttr (attrsOf m) (lit "name") <> []
  /\ r = Rule (extractAttr (attrsOf m) (lit "name")) category rulesetName
           (extractAttr (attrsOf m) (lit "since"))
           (extractAttr (attrsOf m) (lit "message"))
           (extractAttr (attrsOf m) (lit "class"))
           (replace_all (lit "${pmd.website.baseurl}")
              (lit "https://docs.pmd-code.org/latest")
              (extractAttr (attrsOf m) (lit "externalInfoUrl")))
           (extractFirstElement (bodyOf m) (lit "description"))
           (priorityOf (extractFirstElement (bodyOf m) (lit "priority")))
           (extractExamples (bodyOf m))
           (match extractProperties (bodyOf m) with
            | [] => None
            | _ :: _ => Some (extractProperties (bodyOf m))
            end)
           (nonEmpty (extractAttr (attrsOf m)
                        (lit "maximumLanguageVersion")))
           (nonEmpty (extractAttr (attrsOf m)
                        (lit "minimumLanguageVersion"))).
Proof.
  unfold ruleOfMatch.
  destruct (rx_test false refRegex (attrsOf m)); [discriminate|].
  destruct (extractAttr (attrsOf m) (lit "name")) as [|c t] eqn:E;
    [discriminate|].
  intros H. injection H as <-. repeat split. discriminate.
Qed.

Lemma parseXmlFile_In (xml category : str) (r : rule) :
  In r (parseXmlFile xml category) <->
  exists m, In m (exec_all false ruleRegex xml)
            /\ ruleOfMatch category (rulesetNameOf xml category) m = Some r.
Proof.
  unfold parseXmlFile. rewrite <- list_elem_of_In, list_elem_of_omap.
  split; intros (m & Hm & E); exists m; split; try assumption;
    now apply list_elem_of_In.
Qed.


(** The records of a file stand one to one, in order, for the matches
    of the rule pattern at which the loop emits a record. *)
Lemma parseXmlFile_blocks (xml category : str) :
  Forall2 (fun m r =>
             In m (exec_all false ruleRegex xml)
             /\ ruleOfMatch category (rulesetNameOf xml category) m = Some r)
          (ruleBlocks xml category) (parseXmlFile xml category).
Proof.
  unfold ruleBlocks, parseXmlFile.
  assert (G : forall l0 l,
             (forall m, In m l -> In m l0) ->
             Forall2 (fun m r =>
                        In m l0
                        /\ ruleOfMatch category (rulesetNameOf xml category) m
                           = Some r)
               (List.filter
                  (fun m =>
                     match ruleOfMatch category
                             (rulesetNameOf xml category) m with
                     | Some _ => true
                     | None => false
                     end) l)
               (omap (ruleOfMatch category (rulesetNameOf xml category))
                     l)).
  { intros l0 l. induction l as [|m l IH]; intros Hl; [constructor|].
    cbn [List.filter omap list_omap].
    destruct (ruleOfMatch category (rulesetNameOf xml category) m)
      as [r|] eqn:E.
    - constructor.
      + split; [apply Hl; now left | exact E].
      + apply IH. intros m' Hm'. apply Hl. now right.
    - apply IH. intros m' Hm'. apply Hl. now right. }
  apply G. auto.
Qed.

(** Every emitted record has a name that is not empty and comes from a
    match of the rule pattern whose attribute text passes no test for
    [ref=]. *)
Lemma records_named (xml category : str) (r : rule) :
  In r (parseXmlFile xml category) ->
  name r <> []
  /\ exists m,
       In m (exec_all false ruleRegex xml)
       /\ m_before m ++ m_0 m ++ m_after m = xml
       /\ rx_test false refRegex (attrsOf m) = false
       /\ extractAttr (attrsOf m) (lit "name") = name r.
Proof.
  intros Hr. apply parseXmlFile_In in Hr as (m & Hm & E).
  apply ruleOfMatch_inv in E as (Href & Hname & ->). cbn [name].
  split; [assumption|]. exists m. repeat split; try assumption.
  now apply exec_all_spec in Hm as [? _].
Qed.


End RuleParser.

Section RuleParserExamples.

Import Builder Examples.

(** The end-to-end scenario of the specification: one rule [Foo] with
    priority 2 and neither examples nor properties. *)
Example parse_scenario :
  parseXmlFile docPriority2 design
  = [Rule (lit "Foo") design (lit "Design") (lit "1.0") (lit "msg") [] []
          (lit "d") (Fin 2) [] None None None].
Proof. vm_compute. reflexivity. Qed.

(** A reference to a rule gives no record. *)
Example parse_reference : parseXmlFile docRef design = [].
Proof. vm_compute. reflexivity. Qed.



(** C6, at the failing input.  A reference that overrides the name and
    the message of a rule, with the sign [>] in the message and [ref]
    after it: the attribute string of the block holds the assignment
    [ref=], yet the rule pattern ends the attributes at the first [>],
    the test for [ref=] sees the text before it only, and the record
    [Late] is emitted.  With [ref] before the message the block is
    skipped.  In the same way a block without an attribute [name] gives
    a record when the name of another attribute ends in [name]: the
    pattern of [extractAttr] has no word boundary before the name, the
    one that the test for [ref=] has. *)
Theorem C6_reference_after_gt_emitted :
  rx_test false refRegex refLateAttrs = true
  /\ List.map attrsOf (exec_all false ruleRegex docRefLate)
     = [lit "name=" ++ q "Late" ++ lit " message=" ++ [dquote] ++ lit "a "]
  /\ List.map name (parseXmlFile docRefLate design) = [lit "Late"]
  /\ rx_test false refRegex refFirstAttrs = true
  /\ parseXmlFile docRefFirst design = []
  /\ List.map attrsOf (exec_all false ruleRegex docSuffixName)
     = [lit "xname=" ++ q "Foo"]
  /\ List.map name (parseXmlFile docSuffixName design) = [lit "Foo"].
Proof. repeat split; vm_compute; reflexivity. Qed.

(** C7, at the failing input.  The body holds a self-closing property
    [version] followed by a property [foo] in block form.  The property
    pattern matches at the place of [foo], with the name [foo]; yet the
    scan gives one match only, which starts at [version] and runs to the
    end of [foo], so that [extractProperties] returns nothing and the
    record has no [properties].  With the block form first, [foo] is
    found. *)
Theorem C7_property_after_self_closing_lost :
  (exists pre rest m,
      rev pre ++ rest = bodySwallow
      /\ match_at true propRegex pre rest = Some m
      /\ m_group m 1 = Some (lit "foo"))
  /\ List.map (fun m => m_group m 1) (exec_all true propRegex bodySwallow)
     = [Some (lit "version")]
  /\ extractProperties bodySwallow = []
  /\ List.map properties (parseXmlFile docSwallow design) = [None]
  /\ extractProperties bodyBlockFirst
     = [Property (lit "foo") (lit "2") []].
Proof.
  split.
  - exists (rev (lit "<property name=" ++ q "version" ++ lit " value="
                   ++ q "2.0" ++ lit "/>")),
           (lit "<property name=" ++ q "foo"
              ++ lit "><value>2</value></property>").
    eexists. split; [vm_compute; reflexivity|].
    split; vm_compute; reflexivity.
  - repeat split; vm_compute; reflexivity.
Qed.

End RuleParserExamples.

(* ===================================================================== *)
(** * Objects *)
(* ===================================================================== *)

Section ObjectFacts.

Lemma obj_get_has (o : list (str * json)) (k : str) :
  obj_has o k = true <-> exists v, obj_get o k = Some v.
Proof.
  induction o as [|[k' v'] o IH]; cbn [obj_has obj_get].
  - split; [discriminate | intros (v & E); discriminate E].
  - destruct (str_eqb k' k); cbn [orb]; [|exact IH].
    split; [intros _; now eexists | reflexivity].
Qed.

Lemma obj_get_replace_eq (o : list (str * json)) (k : str) (v : json) :
  obj_has o k = true -> obj_get (obj_replace o k v) k = Some v.
Proof.
  induction o as [|[k' v'] o IH]; cbn [obj_has obj_replace]; [discriminate|].
  destruct (str_eqb k' k) eqn:E; cbn [orb obj_get]; rewrite E; auto.
Qed.

Lemma obj_get_replace_ne (o : list (str * json)) (k k' : str) (v : json) :
  k' <> k -> obj_get (obj_replace o k v) k' = obj_get o k'.
Proof.
  intros Hne. induction o as [|[k0 v0] o IH]; cbn [obj_replace]; [reflexivity|].
  destruct (str_eqb k0 k) eqn:E; cbn [obj_get]; [|now rewrite IH].
  apply str_eqb_eq in E. subst k0.
  replace (str_eqb k k') with false
    by (symmetry; apply str_eqb_neq; intros E'; apply Hne; now symmetry).
  reflexivity.
Qed.

Lemma obj_get_app (o1 o2 : list (str * json)) (k : str) :
  obj_get (o1 ++ o2) k
  = match obj_get o1 k with Some v => Some v | None => obj_get o2 k end.
Proof.
  induction o1 as [|[k0 v0] o1 IH]; cbn [app obj_get]; [reflexivity|].
  now destruct (str_eqb k0 k).
Qed.

(** Reading the property that was just written. *)
Lemma obj_get_set_eq (o : list (str * json)) (k : str) (v : json) :
  obj_get (obj_set o k v) k = Some v.
Proof.
  unfold obj_set. destruct (obj_has o k) eqn:E.
  - now apply obj_get_replace_eq.
  - rewrite obj_get_app. cbn [obj_get]. rewrite str_eqb_refl.
    destruct (obj_get o k) eqn:G; [|reflexivity].
    assert (obj_has o k = true) by (apply obj_get_has; eexists; exact G).
    congruence.
Qed.

(** Writing a property leaves the others as they were. *)
Lemma obj_get_set_ne (o : list (str * json)) (k k' : str) (v : json) :
  k' <> k -> obj_get (obj_set o k v) k' = obj_get o k'.
Proof.
  intros Hne. unfold obj_set. destruct (obj_has o k).
  - now apply obj_get_replace_ne.
  - rewrite obj_get_app. cbn [obj_get].
    replace (str_eqb k k') with false
      by (symmetry; apply str_eqb_neq; intros E'; apply Hne; now symmetry).
    now destruct (obj_get o k').
Qed.

Lemma keys_replace (o : list (str * json)) (k : str) (v : json) :
  List.map fst (obj_replace o k v) = List.map fst o.
Proof.
  induction o as [|[k0 v0] o IH]; cbn [obj_replace]; [reflexivity|].
  destruct (str_eqb k0 k); cbn [List.map fst]; [reflexivity|now rewrite IH].
Qed.

(** The names of an object after a write: the same, in the same order,
    with the new name last when it is new. *)
Lemma keys_set (o : list (str * json)) (k : str) (v : json) :
  List.map fst (obj_set o k v)
  = if obj_has o k then List.map fst o else List.map fst o ++ [k].
Proof.
  unfold obj_set. destruct (obj_has o k).
  - apply keys_replace.
  - now rewrite List.map_app.
Qed.

Lemma obj_replace_same (o : list (str * json)) (k : str) (v : json) :
  obj_get o k = Some v -> obj_replace o k v = o.
Proof.
  induction o as [|[k0 v0] o IH]; cbn [obj_get obj_replace]; [reflexivity|].
  destruct (str_eqb k0 k).
  - intros E. injection E as ->. reflexivity.
  - intros E. now rewrite IH.
Qed.

(** Writing the value that a property already has changes nothing. *)
Lemma obj_set_same (o : list (str * json)) (k : str) (v : json) :
  obj_get o k = Some v -> obj_set o k v = o.
Proof.
  intros E. unfold obj_set.
  replace (obj_has o k) with true
    by (symmetry; apply obj_get_has; eexists; exact E).
  now apply obj_replace_same.
Qed.

Lemma wfb_obj_intro (l : list (str * json)) :
  forallb (fun p => negb (isIndexKey (fst p))) l = true ->
  forallb (fun p => wfb (snd p)) l = true ->
  List.NoDup (List.map fst l) ->
  wfb (JObj l) = true.
Proof.
  intros Hi Hv Hd. cbn [wfb]. apply andb_true_iff. split.
  - rewrite forallb_forall in *. intros p Hp.
    now rewrite (Hi p Hp), (Hv p Hp).
  - now apply distinct_NoDup.
Qed.

Lemma forallb_replace (P : str * json -> bool) (o : list (str * json))
  (k : str) (v : json) :
  (forall k0 v0, P (k0, v0) = true -> P (k0, v) = true) ->
  forallb P o = true -> forallb P (obj_replace o k v) = true.
Proof.
  intros Hv. induction o as [|[k0 v0] o IH]; cbn [obj_replace forallb];
    [reflexivity|].
  rewrite andb_true_iff. intros [H0 Ho].
  destruct (str_eqb k0 k); cbn [forallb];
    rewrite ?(Hv _ _ H0), ?H0; auto.
Qed.

(** Writing a well-formed value under a name that is not an integer
    index keeps an object well formed. *)
Lemma wfb_obj_set (o : list (str * json)) (k : str) (v : json) :
  wfb (JObj o) = true -> isIndexKey k = false -> wfb v = true ->
  wfb (JObj (obj_set o k v)) = true.
Proof.
  intros W Hk Hv. destruct (wfb_obj_split o W) as (Wi & Wv & Wd).
  apply wfb_obj_intro.
  - unfold obj_set. destruct (obj_has o k).
    + apply forallb_replace; [|assumption]. intros k0 v0 H. exact H.
    + rewrite forallb_app, Wi. cbn [forallb fst]. now rewrite Hk.
  - unfold obj_set. destruct (obj_has o k).
    + apply forallb_replace; [|assumption]. intros k0 v0 _. exact Hv.
    + rewrite forallb_app, Wv. cbn [forallb snd]. now rewrite Hv.
  - rewrite keys_set. destruct (obj_has o k) eqn:E; [assumption|].
    apply List.NoDup_app; [assumption | repeat constructor; intros [] |].
    intros x Hx [<-|[]]. apply obj_has_In in Hx. congruence.
Qed.

End ObjectFacts.

(* ===================================================================== *)
(** * What [JSON.parse] returns *)
(* ===================================================================== *)

Section ParseResults.

Lemma pbind_ok {A B} (x : pres A) (f : A -> pres B) (b : B) :
  pbind x f = POk b -> exists a, x = POk a /\ f a = POk b.
Proof. destruct x; try discriminate. intros H. now exists a. Qed.

Lemma pnumber_wf (neg : bool) (s : str) (v : json) (r : str) :
  pnumber neg s = POk (v, r) -> wfb v = true.
Proof.
  unfold pnumber. destruct (read_uint s) as [u rest].
  destruct (uintNil u); [discriminate|].
  destruct (leadingZero u); [discriminate|].
  destruct (fractionAhead rest); [discriminate|]. cbv zeta.
  destruct (safeb _) eqn:E; [|discriminate].
  intros H. injection H as <- _. exact E.
Qed.

Lemma build_obj_wf (ms : list (str * json)) :
  forall acc o,
    build_obj acc ms = POk o ->
    wfb (JObj acc) = true ->
    forallb (fun p => wfb (snd p)) ms = true ->
    wfb (JObj o) = true.
Proof.
  induction ms as [|[k v] ms IH]; intros acc o H Wa Wm.
  - injection H as <-. exact Wa.
  - cbn [build_obj] in H. destruct (isIndexKey k) eqn:Ek; [discriminate|].
    cbn [forallb snd] in Wm. apply andb_true_iff in Wm as [Wv Wm].
    apply (IH _ _ H); [|assumption]. now apply wfb_obj_set.
Qed.

(** Every value that the parser returns is in the domain of the round
    trip: its numbers are safe integers and its objects have distinct
    names, none of them an integer index. *)
Lemma parser_wf (n : nat) :
  (forall s v r, pvalue n s = POk (v, r) -> wfb v = true)
  /\ (forall s l r, pelems n s = POk (l, r) -> forallb wfb l = true)
  /\ (forall s ms r,
        pmembers n s = POk (ms, r) ->
        forallb (fun p => wfb (snd p)) ms = true).
Proof.
  induction n as [|n (IHv & IHe & IHm)];
    [repeat split; intros; discriminate|].
  repeat split.
  - intros s v r. cbn [pvalue].
    destruct (skip_ws s) as [|c t]; [discriminate|].
    destruct (c =? 34)%N.
    { intros H. apply pbind_ok in H as ([x r'] & _ & H).
      injection H as <- _. reflexivity. }
    destruct (c =? 91)%N.
    { destruct (eat 93%N (skip_ws t)).
      - intros H. injection H as <- _. reflexivity.
      - intros H. apply pbind_ok in H as ([l r'] & Hl & H).
        injection H as <- _. cbn [wfb]. now apply IHe in Hl. }
    destruct (c =? 123)%N.
    { destruct (eat 125%N (skip_ws t)).
      - intros H. injection H as <- _. reflexivity.
      - intros H. apply pbind_ok in H as ([ms r'] & Hm & H).
        apply pbind_ok in H as (o & Ho & H). injection H as <- _.
        apply (build_obj_wf _ _ _ Ho); [reflexivity|].
        now apply IHm in Hm. }
    destruct (c =? 45)%N; [apply pnumber_wf|].
    destruct (isDigit c); [apply pnumber_wf|].
    destruct (startsWith (lit "true") (c :: t)).
    { intros H. injection H as <- _. reflexivity. }
    destruct (startsWith (lit "false") (c :: t)).
    { intros H. injection H as <- _. reflexivity. }
    destruct (startsWith (lit "null") (c :: t)); [|discriminate].
    intros H. injection H as <- _. reflexivity.
  - intros s l r. cbn [pelems]. intros H.
    apply pbind_ok in H as ([v r1] & Hv & H). apply IHv in Hv.
    destruct (eat 44%N (skip_ws r1)).
    + apply pbind_ok in H as ([l' r2] & Hl & H). injection H as <- _.
      cbn [forallb]. rewrite Hv. now apply IHe in Hl.
    + destruct (eat 93%N (skip_ws r1)); [|discriminate].
      injection H as <- _. cbn [forallb]. now rewrite Hv.
  - intros s ms r. cbn [pmembers].
    destruct (eat 34%N (skip_ws s)); [|discriminate]. intros H.
    apply pbind_ok in H as ([k r1] & _ & H).
    destruct (eat 58%N (skip_ws r1)); [|discriminate].
    apply pbind_ok in H as ([v r2] & Hv & H). apply IHv in Hv.
    destruct (eat 44%N (skip_ws r2)).
    + apply pbind_ok in H as ([ms' r3] & Hm & H). injection H as <- _.
      cbn [forallb snd]. rewrite Hv. now apply IHm in Hm.
    + destruct (eat 125%N (skip_ws r2)); [|discriminate].
      injection H as <- _. cbn [forallb snd]. now rewrite Hv.
Qed.

Theorem JSON_parse_wf (s : str) (v : json) :
  JSON_parse s = POk v -> wfb v = true.
Proof.
  unfold JSON_parse. intros H.
  apply pbind_ok in H as ([v' r] & Hv & H).
  destruct (skip_ws r); [|discriminate]. injection H as <-.
  now apply (proj1 (parser_wf _)) in Hv.
Qed.

End ParseResults.

(* ===================================================================== *)
(** * The tier annotator *)
(* ===================================================================== *)

Section AnnotatorFacts.

Import Annotator.

Variable TIER_MAP : gmap str tierInfo.

Lemma tier_ne_comment : lit "tier" <> lit "claude_comment".
Proof. intros E. vm_compute in E. discriminate E. Qed.

Lemma name_other : otherKey (lit "name") = true.
Proof. vm_compute. reflexivity. Qed.

Lemma otherKey_spec (k : str) :
  otherKey k = true <-> k <> lit "tier" /\ k <> lit "claude_comment".
Proof.
  unfold otherKey. rewrite andb_true_iff, !negb_true_iff, !str_eqb_neq.
  reflexivity.
Qed.

Lemma wfb_tier_json (t : tierValue) : wfb (tier_json t) = true.
Proof. destruct t; reflexivity. Qed.

(** What the loop of step 3 does to a record. *)
Lemma annotate_inv (r r' : json) :
  annotate TIER_MAP r = Some r' ->
  exists o s ti,
    r = JObj o
    /\ obj_get o (lit "name") = Some (JStr s)
    /\ TIER_MAP !! s = Some ti
    /\ r' = JObj (obj_set (obj_set o (lit "tier") (tier_json (tier ti)))
                          (lit "claude_comment")
                          (JStr (claude_comment ti))).
Proof.
  unfold annotate. destruct r as [| | | | |o]; try discriminate.
  destruct (obj_get o (lit "name")) as [[| | |s| |]|] eqn:En;
    try discriminate.
  destruct (TIER_MAP !! s) as [ti|] eqn:Et; [|discriminate].
  intros H. injection H as <-. now exists o, s, ti.
Qed.

Lemma filter_other_app_tier (ks : list str) :
  List.filter otherKey (ks ++ [lit "tier"]) = List.filter otherKey ks.
Proof. rewrite List.filter_app. cbn. now rewrite app_nil_r. Qed.

Lemma filter_other_app_comment (ks : list str) :
  List.filter otherKey (ks ++ [lit "claude_comment"])
  = List.filter otherKey ks.
Proof. rewrite List.filter_app. cbn. now rewrite app_nil_r. Qed.

(** The frame of step 3: only [tier] and [claude_comment] change. *)
Lemma annotate_frame (r r' : json) :
  annotate TIER_MAP r = Some r' -> sameButTier r r'.
Proof.
  intros H. apply annotate_inv in H as (o & s & ti & -> & En & Et & ->).
  eexists _, _. split; [reflexivity|]. split; [reflexivity|]. split.
  - intros k Hk. apply otherKey_spec in Hk as [K1 K2].
    now rewrite !obj_get_set_ne by assumption.
  - rewrite !keys_set.
    destruct (obj_has (obj_set o (lit "tier") _) (lit "claude_comment"));
      destruct (obj_has o (lit "tier"));
      now rewrite ?filter_other_app_comment, ?filter_other_app_tier.
Qed.

(** Step 3 on a record that already carries the tier and the comment of
    the table changes nothing. *)
Lemma annotate_idempotent (r r' : json) :
  annotate TIER_MAP r = Some r' -> annotate TIER_MAP r' = Some r'.
Proof.
  intros H. apply annotate_inv in H as (o & s & ti & -> & En & Et & ->).
  cbn [annotate].
  rewrite !obj_get_set_ne, En, Et
    by (intros E; vm_compute in E; discriminate E).
  do 2 f_equal.
  rewrite (obj_set_same _ (lit "tier")).
  - apply obj_set_same. apply obj_get_set_eq.
  - rewrite obj_get_set_ne by exact tier_ne_comment.
    apply obj_get_set_eq.
Qed.

Lemma annotate_wf (r r' : json) :
  annotate TIER_MAP r = Some r' -> wfb r = true -> wfb r' = true.
Proof.
  intros H W. apply annotate_inv in H as (o & s & ti & -> & En & Et & ->).
  apply wfb_obj_set; [|reflexivity|reflexivity].
  apply wfb_obj_set; [assumption|reflexivity|apply wfb_tier_json].
Qed.

Lemma annotate_hasKey (r r' : json) :
  annotate TIER_MAP r = Some r' ->
  Annotator.isNull r' = false
  /\ hasKey TIER_MAP (get_field r' (lit "name")) = true.
Proof.
  intros H. apply annotate_inv in H as (o & s & ti & -> & En & Et & ->).
  split; [reflexivity|]. cbn [get_field].
  rewrite !obj_get_set_ne, En
    by (intros E; vm_compute in E; discriminate E).
  cbn [hasKey]. apply bool_decide_eq_true. now rewrite Et.
Qed.

(** A run that ends normally: what was read and what was written. *)
Lemma main_done_inv (file file' : str) :
  main TIER_MAP file = (Done, file') ->
  exists rules rules',
    JSON_parse (stripWrapper file) = POk (JArr rules)
    /\ mapM (annotate TIER_MAP) rules = Some rules'
    /\ file' = Builder.wrap (JArr rules').
Proof.
  unfold main. destruct (JSON_parse (stripWrapper file)) as [v| | |] eqn:P;
    try discriminate.
  unfold run. destruct v as [| | | |rules|]; try discriminate.
  destruct (existsb isNull rules); [discriminate|].
  destruct (missingFromMap TIER_MAP rules); [|discriminate].
  destruct (mapM (annotate TIER_MAP) rules) as [rules'|] eqn:M;
    [|discriminate].
  intros H. injection H as <-. now exists rules, rules'.
Qed.

(** The records that step 3 wrote are fixed by step 3. *)
Lemma annotated_fixed (rules rules' : list json) :
  mapM (annotate TIER_MAP) rules = Some rules' ->
  mapM (annotate TIER_MAP) rules' = Some rules'.
Proof.
  intros M. apply mapM_Some_1 in M. apply mapM_Some_2.
  induction M as [|r r' l l' Hr _ IH]; constructor; [|exact IH].
  now apply annotate_idempotent in Hr.
Qed.

(** A run that ends normally wrote a data module that reads back as the
    annotated catalogue. *)
Lemma main_done_reread (file file' : str) :
  main TIER_MAP file = (Done, file') ->
  exists rules rules',
    JSON_parse (stripWrapper file) = POk (JArr rules)
    /\ mapM (annotate TIER_MAP) rules = Some rules'
    /\ file' = Builder.wrap (JArr rules')
    /\ JSON_parse (stripWrapper file') = POk (JArr rules').
Proof.
  intros H. apply main_done_inv in H as (rules & rules' & P & M & ->).
  exists rules, rules'. repeat split; try assumption.
  pose proof (JSON_parse_wf _ _ P) as W. cbn [wfb] in W.
  apply parse_wrap. cbn [wfb]. apply mapM_Some_1 in M. clear P.
  induction M as [|r r' l l' Hr _ IH]; [reflexivity|].
  cbn [forallb] in *. apply andb_true_iff in W as [Wr Wl].
  rewrite (annotate_wf r r' Hr Wr). now apply IH.
Qed.

(** A catalogue all of whose names have an entry goes through the three
    steps. *)
Lemma run_succeeds (rules : list json) :
  (forall r, In r rules ->
             hasKey TIER_MAP (get_field r (lit "name")) = true) ->
  exists rules',
    mapM (annotate TIER_MAP) rules = Some rules'
    /\ run TIER_MAP (JArr rules)
       = (Done, Some (Builder.wrap (JArr rules'))).
Proof.
  intros H.
  assert (A : forall r, In r rules ->
                isNull r = false
                /\ exists r', annotate TIER_MAP r = Some r').
  { intros r Hr. specialize (H r Hr). unfold hasKey in H.
    destruct r as [| | | | |o]; try discriminate H. split; [reflexivity|].
    cbn [get_field annotate] in *.
    destruct (obj_get o (lit "name")) as [[| | |s| |]|];
      try discriminate H.
    apply bool_decide_eq_true in H. destruct H as [ti Hti].
    rewrite Hti. now eexists. }
  assert (N : existsb isNull rules = false).
  { clear H. induction rules as [|r l IH]; [reflexivity|].
    cbn [existsb]. rewrite (proj1 (A r (or_introl eq_refl))).
    apply IH. intros r0 Hr0. apply A. now right. }
  assert (Mi : missingFromMap TIER_MAP rules = []).
  { clear A N. unfold missingFromMap.
    induction rules as [|r l IH]; [reflexivity|].
    cbn [List.map List.filter]. rewrite (H r (or_introl eq_refl)).
    cbn [negb]. apply IH. intros r0 Hr0. apply H. now right. }
  assert (M : exists rules', mapM (annotate TIER_MAP) rules = Some rules').
  { clear H N Mi. induction rules as [|r l IH]; [now exists []|].
    destruct (A r (or_introl eq_refl)) as (_ & r' & Hr').
    destruct IH as (l' & Hl'); [intros r0 Hr0; apply A; now right|].
    exists (r' :: l'). apply mapM_Some_2. constructor; [assumption|].
    now apply mapM_Some_1. }
  destruct M as (rules' & M). exists rules'. split; [assumption|].
  unfold run. now rewrite N, Mi, M.
Qed.

Lemma run_annotated (rules rules' : list json) :
  mapM (annotate TIER_MAP) rules = Some rules' ->
  run TIER_MAP (JArr rules')
  = (Done, Some (Builder.wrap (JArr rules'))).
Proof.
  intros M. apply mapM_Some_1 in M.
  assert (F : Forall (fun r' => Annotator.isNull r' = false
                         /\ hasKey TIER_MAP (get_field r' (lit "name"))
                            = true
                         /\ annotate TIER_MAP r' = Some r') rules').
  { induction M as [|r r' l l' Hr _ IH]; constructor; [|exact IH].
    destruct (annotate_hasKey _ _ Hr) as [? ?].
    repeat split; try assumption. now apply annotate_idempotent in Hr. }
  clear M. unfold run.
  assert (N : existsb isNull rules' = false).
  { induction F as [|r' l (Hn & _) _ IH]; [reflexivity|].
    cbn [existsb]. now rewrite Hn, IH. }
  assert (Mi : missingFromMap TIER_MAP rules' = []).
  { clear N. unfold missingFromMap.
    induction F as [|r' l (_ & Hk & _) _ IH]; [reflexivity|].
    cbn [List.map List.filter]. rewrite Hk. cbn [negb]. exact IH. }
  assert (Id : mapM (annotate TIER_MAP) rules' = Some rules').
  { clear N Mi. apply mapM_Some_2.
    induction F as [|r' l (_ & _ & Ha) _ IH]; constructor; assumption. }
  now rewrite N, Mi, Id.
Qed.

End AnnotatorFacts.

Section AnnotatorClaims.

Import Annotator.

Variable TIER_MAP : gmap str tierInfo.

(** C3.  When the catalogue that the annotator reads has a record whose
    name has no entry in the table, the run ends with the exit status 1
    and the file is what it was: nothing is written.  The run ends by
    [process.exit(1)] when no element of the catalogue is [null]. *)
Theorem C3_missing_entry_fails_without_writing (file : str)
  (rules : list json) :
  JSON_parse (stripWrapper file) = POk (JArr rules) ->
  (exists r, In r rules
             /\ hasKey TIER_MAP (get_field r (lit "name")) = false) ->
  exists o,
    main TIER_MAP file = (o, file)
    /\ exit_status o = Some 1%Z
    /\ (existsb isNull rules = false -> o = ExitFailure).
Proof.
  intros P (r & Hin & Hk). unfold main. rewrite P. unfold run.
  destruct (existsb isNull rules).
  - exists Uncaught. repeat split. discriminate.
  - assert (M : missingFromMap TIER_MAP rules <> []).
    { unfold missingFromMap. intros E.
      assert (In (get_field r (lit "name"))
                 (List.filter (fun name => negb (hasKey TIER_MAP name))
                    (List.map (fun r => get_field r (lit "name")) rules))).
      { apply List.filter_In. split; [|cbv beta; now rewrite Hk].
        apply List.in_map_iff. now exists r. }
      rewrite E in H. contradiction. }
    destruct (missingFromMap TIER_MAP rules); [contradiction|].
    exists ExitFailure. repeat split.
Qed.

(** C9.  A run that ends normally read a catalogue and wrote a catalogue
    with as many records, in the same order, each of which differs from
    the record read at most in [tier] and [claude_comment]: every other
    property has the same value and the other property names keep their
    order.  The text written is the data module of the new catalogue, and
    reading it again gives that catalogue. *)
Theorem C9_only_tier_fields_change (file file' : str) :
  main TIER_MAP file = (Done, file') ->
  exists rules rules',
    JSON_parse (stripWrapper file) = POk (JArr rules)
    /\ file' = Builder.wrap (JArr rules')
    /\ JSON_parse (stripWrapper file') = POk (JArr rules')
    /\ length rules' = length rules
    /\ Forall2 sameButTier rules rules'.
Proof.
  intros H. apply main_done_reread in H as (rules & rules' & P & M & -> & P').
  exists rules, rules'. repeat split; try assumption.
  - symmetry. apply mapM_Some_1 in M. now apply Forall2_length in M.
  - apply mapM_Some_1 in M. clear P P'.
    induction M as [|r r' l l' Hr _ IH]; [constructor|].
    constructor; [now apply (annotate_frame TIER_MAP)|exact IH].
Qed.

(** C5.  When every record of the catalogue read has a name with an
    entry in the table, the run ends normally, and a second run on the
    file that it wrote ends normally too and writes the same file: the
    catalogue read back is the annotated one, every name still has its
    entry, and step 3 sets each [tier] and [claude_comment] to the value
    that it already has, in the place that it already has. *)
Theorem C5_second_run_changes_nothing (file : str) (rules : list json) :
  JSON_parse (stripWrapper file) = POk (JArr rules) ->
  (forall r, In r rules ->
             hasKey TIER_MAP (get_field r (lit "name")) = true) ->
  exists file1 rules1,
    main TIER_MAP file = (Done, file1)
    /\ main TIER_MAP file1 = (Done, file1)
    /\ exit_status Done = Some 0%Z
    /\ mapM (annotate TIER_MAP) rules = Some rules1
    /\ JSON_parse (stripWrapper file1) = POk (JArr rules1)
    /\ mapM (annotate TIER_MAP) rules1 = Some rules1.
Proof.
  intros P H. destruct (run_succeeds TIER_MAP rules H) as (rules1 & M & R).
  assert (First : main TIER_MAP file
                  = (Done, Builder.wrap (JArr rules1)))
    by (unfold main; now rewrite P, R).
  exists (Builder.wrap (JArr rules1)), rules1.
  pose proof (main_done_reread TIER_MAP _ _ First)
    as (rules0 & rules1' & P0 & M0 & Ew & P1).
  split; [exact First|]. split; [|split; [reflexivity|]].
  - unfold main. rewrite P1, (run_annotated TIER_MAP rules0 rules1' M0).
    now rewrite <- Ew.
  - split; [exact M|].
    assert (rules1' = rules1).
    { unfold Builder.wrap in Ew. apply app_inv_head in Ew.
      apply app_inv_head in Ew. apply app_inv_tail in Ew.
      rewrite P in P0. injection P0 as <-. congruence. }
    subst rules1'. split; [exact P1|].
    now apply (annotated_fixed TIER_MAP rules).
Qed.

End AnnotatorClaims.

(* ===================================================================== *)
(** * The catalogue between the converter, the annotator and the viewer *)
(* ===================================================================== *)

Section CatalogueClaims.

Import Builder.













Lemma get_mandatory (r : rule) :
  get_field (rule_json r) (lit "name") = Some (JStr (name r))
  /\ get_field (rule_json r) (lit "category") = Some (JStr (category r))
  /\ get_field (rule_json r) (lit "categoryName")
     = Some (JStr (categoryName r))
  /\ get_field (rule_json r) (lit "since") = Some (JStr (since r))
  /\ get_field (rule_json r) (lit "message") = Some (JStr (message r))
  /\ get_field (rule_json r) (lit "ruleClass") = Some (JStr (ruleClass r))
  /\ get_field (rule_json r) (lit "externalInfoUrl")
     = Some (JStr (externalInfoUrl r))
  /\ get_field (rule_json r) (lit "description")
     = Some (JStr (description r))
  /\ get_field (rule_json r) (lit "priority") = Some (JNum (priority r))
  /\ get_field (rule_json r) (lit "examples")
     = Some (JArr (List.map JStr (examples r))).
Proof.
  destruct r as [n c cn si me rc ex de pr exs ps mx mn].
  repeat split; reflexivity.
Qed.

Lemma get_optional (r : rule) :
  get_field (rule_json r) (lit "properties")
  = option_map (fun ps => JArr (List.map property_json ps)) (properties r)
  /\ get_field (rule_json r) (lit "maxLanguageVersion")
     = option_map JStr (maxLanguageVersion r)
  /\ get_field (rule_json r) (lit "minLanguageVersion")
     = option_map JStr (minLanguageVersion r).
Proof.
  destruct r as [n c cn si me rc ex de pr exs ps mx mn].
  destruct ps, mx, mn; repeat split; reflexivity.
Qed.


Lemma replace_all_nil (p t0 : str) : replace_all p t0 [] = [].
Proof. reflexivity. Qed.


End CatalogueClaims.

(* ===================================================================== *)
(** * The order of the catalogue *)
(* ===================================================================== *)

Section NumOrder.

Lemma num_eqb_eq (a b : num) : num_eqb a b = true <-> a = b.
Proof.
  destruct a as [x|x], b as [y|y]; cbn [num_eqb];
    try (split; discriminate).
  - rewrite Z.eqb_eq. split; [now intros -> | now intros [= ->]].
  - rewrite Bool.eqb_true_iff. split; [now intros -> | now intros [= ->]].
Qed.

Lemma num_sub_anti (a b : num) : num_sub_sign b a = (- num_sub_sign a b)%Z.
Proof.
  destruct a as [x|[|]], b as [y|[|]]; cbn; try reflexivity.
  rewrite <- Z.sgn_opp. f_equal. lia.
Qed.

Lemma num_sub_zero (a b : num) : num_sub_sign a b = 0%Z <-> a = b.
Proof.
  destruct a as [x|[|]], b as [y|[|]]; cbn;
    try (split; [discriminate | intros [=]]); try tauto.
  rewrite Z.sgn_null_iff. split; [intros H; f_equal; lia | intros [= ->]; lia].
Qed.

Lemma num_sub_trans (a b c : num) :
  (num_sub_sign a b <= 0)%Z -> (num_sub_sign b c <= 0)%Z ->
  (num_sub_sign a c <= 0)%Z.
Proof.
  destruct a as [x|[|]], b as [y|[|]], c as [z|[|]]; cbn;
    rewrite ?Z.sgn_nonpos; lia.
Qed.

End NumOrder.

Section KeyOrder.

Import Builder.

Variable lc : str -> str -> Z.
Hypothesis lc_refl : forall a, lc a a = 0%Z.
Hypothesis lc_anti : forall a b, Z.sgn (lc b a) = (- Z.sgn (lc a b))%Z.
Hypothesis lc_trans :
  forall a b c, (lc a b <= 0)%Z -> (lc b c <= 0)%Z -> (lc a c <= 0)%Z.
Hypothesis lc_sep :
  forall c1 c2,
    In c1 categoryNames -> In c2 categoryNames -> lc c1 c2 = 0%Z -> c1 = c2.

Lemma lc_flip_le (a b : str) : (lc a b <= 0)%Z <-> (0 <= lc b a)%Z.
Proof.
  pose proof (lc_anti a b). rewrite <- Z.sgn_nonpos, <- Z.sgn_nonneg. lia.
Qed.

Lemma lc_flip_lt (a b : str) : (lc a b < 0)%Z <-> (0 < lc b a)%Z.
Proof.
  pose proof (lc_anti a b). rewrite <- Z.sgn_neg_iff, <- Z.sgn_pos_iff. lia.
Qed.

Lemma lc_trans_lt_le (a b c : str) :
  (lc a b < 0)%Z -> (lc b c <= 0)%Z -> (lc a c < 0)%Z.
Proof.
  intros H1 H2. destruct (Z.lt_ge_cases (lc a c) 0) as [|G]; [assumption|].
  exfalso. apply lc_flip_le in G.
  pose proof (lc_trans b c a H2 G) as H3.
  apply lc_flip_lt in H1. lia.
Qed.

Lemma lc_trans_le_lt (a b c : str) :
  (lc a b <= 0)%Z -> (lc b c < 0)%Z -> (lc a c < 0)%Z.
Proof.
  intros H1 H2. destruct (Z.lt_ge_cases (lc a c) 0) as [|G]; [assumption|].
  exfalso. apply lc_flip_le in G.
  pose proof (lc_trans c a b G H1) as H3.
  apply lc_flip_lt in H2. lia.
Qed.

(** The comparator does not exceed zero exactly when the first record
    comes first in the order of the three keys. *)
Lemma compare_keyLe (a b : rule) :
  catOK a -> catOK b ->
  ((compareRules lc a b <= 0)%Z <-> keyLe lc a b).
Proof.
  intros Ca Cb. unfold compareRules, keyLe.
  destruct (str_eqb (category a) (category b)) eqn:Ec; cbn [negb].
  - apply str_eqb_eq in Ec. rewrite Ec, lc_refl.
    destruct (num_eqb (priority a) (priority b)) eqn:Ep; cbn [negb].
    + apply num_eqb_eq in Ep. rewrite Ep.
      assert (num_sub_sign (priority b) (priority b) = 0%Z)
        by now apply num_sub_zero.
      split; [intros H0; right; split; [reflexivity|right; now split]|].
      intros [?|[_ [?|[_ ?]]]]; lia.
    + assert (Hn : priority a <> priority b).
      { intros E. apply num_eqb_eq in E. congruence. }
      assert (num_sub_sign (priority a) (priority b) <> 0%Z)
        by now rewrite num_sub_zero.
      split; [intros H0; right; split; [reflexivity|left; lia]|].
      intros [?|[_ [?|[? _]]]]; [lia | lia | contradiction].
  - apply str_eqb_neq in Ec.
    assert (lc (category a) (category b) <> 0%Z)
      by (intros E; now apply lc_sep in E).
    split; [intros H0; left; lia|].
    intros [?|[? _]]; [lia | contradiction].
Qed.

Lemma compare_anti (a b : rule) :
  Z.sgn (compareRules lc b a) = (- Z.sgn (compareRules lc a b))%Z.
Proof.
  unfold compareRules.
  replace (str_eqb (category b) (category a))
    with (str_eqb (category a) (category b)).
  2:{ destruct (str_eqb (category a) (category b)) eqn:E.
      - apply str_eqb_eq in E. symmetry. now apply str_eqb_eq.
      - apply str_eqb_neq in E. symmetry. apply str_eqb_neq. congruence. }
  replace (num_eqb (priority b) (priority a))
    with (num_eqb (priority a) (priority b)).
  2:{ destruct (num_eqb (priority a) (priority b)) eqn:E.
      - apply num_eqb_eq in E. symmetry. now apply num_eqb_eq.
      - symmetry. destruct (num_eqb (priority b) (priority a)) eqn:E';
          [|reflexivity].
        apply num_eqb_eq in E'. symmetry in E'. apply num_eqb_eq in E'.
        congruence. }
  destruct (str_eqb _ _); cbn [negb]; [|apply lc_anti].
  destruct (num_eqb _ _); cbn [negb]; [apply lc_anti|].
  rewrite num_sub_anti, Z.sgn_opp. reflexivity.
Qed.

Lemma keyLe_trans (a b c : rule) :
  keyLe lc a b -> keyLe lc b c -> keyLe lc a c.
Proof.
  unfold keyLe.
  intros [H1|[E1 P1]] [H2|[E2 P2]].
  - left. apply (lc_trans_lt_le _ (category b)); [assumption|lia].
  - left. now rewrite <- E2.
  - left. now rewrite E1.
  - right. split; [congruence|].
    destruct P1 as [P1|[Q1 N1]], P2 as [P2|[Q2 N2]].
    + left. pose proof (num_sub_trans (priority a) (priority b)
                          (priority c) ltac:(lia) ltac:(lia)) as T.
      destruct (Z.eq_dec (num_sub_sign (priority a) (priority c)) 0%Z)
        as [Z0|]; [|lia].
      apply num_sub_zero in Z0. rewrite Z0 in P1.
      rewrite num_sub_anti in P1. lia.
    + left. now rewrite <- Q2.
    + left. now rewrite Q1.
    + right. split; [congruence|]. now apply (lc_trans _ (name b)).
Qed.

Lemma keyLe_total (a b : rule) :
  catOK a -> catOK b -> keyLe lc a b \/ keyLe lc b a.
Proof.
  intros Ca Cb.
  rewrite <- !compare_keyLe by assumption.
  pose proof (compare_anti a b) as A.
  destruct (Z.le_gt_cases (compareRules lc a b) 0) as [|G]; [now left|].
  right. apply Z.sgn_pos_iff in G. rewrite <- Z.sgn_nonpos. lia.
Qed.

(** Two records tie exactly when each comes first before the other. *)
Lemma tieb_keyLe (a b : rule) :
  catOK a -> catOK b ->
  (tieb lc a b = true <-> keyLe lc a b /\ keyLe lc b a).
Proof.
  intros Ca Cb. unfold tieb. rewrite Z.eqb_eq.
  rewrite <- !compare_keyLe by assumption.
  pose proof (compare_anti a b) as A.
  rewrite <- (Z.sgn_nonpos (compareRules lc b a)), A.
  rewrite <- (Z.sgn_null_iff (compareRules lc a b)).
  rewrite <- (Z.sgn_nonpos (compareRules lc a b)). lia.
Qed.

Lemma tieb_refl (a : rule) : catOK a -> tieb lc a a = true.
Proof.
  intros Ca. apply tieb_keyLe; [assumption..|].
  destruct (keyLe_total a a Ca Ca); now split.
Qed.

Lemma tieb_sym (a b : rule) :
  catOK a -> catOK b -> tieb lc a b = tieb lc b a.
Proof.
  intros Ca Cb. apply eq_true_iff_eq.
  rewrite !tieb_keyLe by assumption. tauto.
Qed.

Lemma tieb_trans (a b c : rule) :
  catOK a -> catOK b -> catOK c ->
  tieb lc a b = true -> tieb lc b c = true -> tieb lc a c = true.
Proof.
  intros Ca Cb Cc. rewrite !tieb_keyLe by assumption.
  intros [? ?] [? ?]. split; eapply keyLe_trans; eassumption.
Qed.

(** Records that tie have the same category. *)
Lemma tieb_category (a b : rule) :
  catOK a -> catOK b -> tieb lc a b = true -> category a = category b.
Proof.
  intros Ca Cb. rewrite tieb_keyLe by assumption. unfold keyLe.
  intros [[H1|[E1 _]] [H2|[E2 _]]]; try assumption; try congruence.
  apply lc_flip_lt in H1. lia.
Qed.

Lemma insert_perm (x : rule) (l : list rule) :
  Permutation (insert lc x l) (x :: l).
Proof.
  induction l as [|y l IH]; cbn [insert]; [reflexivity|].
  destruct (compareRules lc x y <=? 0)%Z; [reflexivity|].
  rewrite IH. apply perm_swap.
Qed.

(** The sorted array holds the records of the array, each as often. *)
Lemma sort_perm (l : list rule) : Permutation (sortRules lc l) l.
Proof.
  induction l as [|x l IH]; cbn [sortRules]; [reflexivity|].
  rewrite insert_perm. now constructor.
Qed.

Lemma sort_catOK (l : list rule) :
  Forall catOK l -> Forall catOK (sortRules lc l).
Proof.
  intros H. rewrite List.Forall_forall in *. intros x Hx. apply H.
  eapply Permutation_in; [apply sort_perm | exact Hx].
Qed.

Lemma insert_sorted (x : rule) (l : list rule) :
  catOK x -> Forall catOK l ->
  StronglySorted (keyLe lc) l -> StronglySorted (keyLe lc) (insert lc x l).
Proof.
  intros Cx. induction l as [|y l IH]; intros Cl S; cbn [insert].
  - repeat constructor.
  - apply List.Forall_cons_iff in Cl as [Cy Cl].
    apply StronglySorted_inv in S as [S Hy].
    destruct (Z.leb_spec (compareRules lc x y) 0) as [L|G].
    + apply compare_keyLe in L; [|assumption..].
      constructor; [constructor; assumption|].
      constructor; [assumption|].
      rewrite List.Forall_forall in *. intros z Hz.
      apply (keyLe_trans x y z); [assumption|now apply Hy].
    + assert (Lyx : keyLe lc y x).
      { destruct (keyLe_total y x Cy Cx) as [|K]; [assumption|].
        apply compare_keyLe in K; [lia|assumption..]. }
      constructor; [now apply IH|].
      rewrite List.Forall_forall in *. intros z Hz.
      apply (Permutation_in _ (insert_perm x l)) in Hz.
      destruct Hz as [<-|Hz]; [assumption|now apply Hy].
Qed.

(** The sorted array is in the order of the three keys: every record
    comes first before every record after it. *)
Lemma sort_sorted (l : list rule) :
  Forall catOK l -> StronglySorted (keyLe lc) (sortRules lc l).
Proof.
  induction l as [|x l IH]; intros C; cbn [sortRules]; [constructor|].
  apply List.Forall_cons_iff in C as [Cx Cl].
  apply insert_sorted; [assumption | now apply sort_catOK | now apply IH].
Qed.

Lemma filter_tie_insert (x a : rule) (s : list rule) :
  catOK x -> catOK a -> Forall catOK s ->
  List.filter (tieb lc x) (insert lc a s)
  = if tieb lc x a then a :: List.filter (tieb lc x) s
    else List.filter (tieb lc x) s.
Proof.
  intros Cx Ca. induction s as [|y s IH]; intros Cs; cbn [insert].
  - cbn [List.filter]. reflexivity.
  - apply List.Forall_cons_iff in Cs as [Cy Cs].
    destruct (Z.leb_spec (compareRules lc a y) 0) as [L|G].
    + cbn [List.filter]. reflexivity.
    + cbn [List.filter]. rewrite (IH Cs).
      destruct (tieb lc x a) eqn:Ta; [|reflexivity].
      destruct (tieb lc x y) eqn:Ty; [|reflexivity].
      exfalso.
      assert (T : tieb lc a y = true).
      { apply (tieb_trans a x y); try assumption.
        now rewrite tieb_sym. }
      unfold tieb in T. apply Z.eqb_eq in T. lia.
Qed.

(** Stability: among the records that tie with a given one, the sorted
    array keeps the order of the array. *)
Lemma filter_tie_sort (x : rule) (l : list rule) :
  catOK x -> Forall catOK l ->
  List.filter (tieb lc x) (sortRules lc l) = List.filter (tieb lc x) l.
Proof.
  intros Cx. induction l as [|a l IH]; intros C; cbn [sortRules];
    [reflexivity|].
  apply List.Forall_cons_iff in C as [Ca Cl].
  rewrite filter_tie_insert by (try assumption; now apply sort_catOK).
  cbn [List.filter]. now rewrite (IH Cl).
Qed.

(** Two arrays in the order of the keys that agree on every class of
    ties are the same array. *)
Lemma sorted_unique (l1 : list rule) :
  forall l2,
    Forall catOK l1 -> Forall catOK l2 ->
    StronglySorted (keyLe lc) l1 -> StronglySorted (keyLe lc) l2 ->
    (forall x, catOK x ->
               List.filter (tieb lc x) l1 = List.filter (tieb lc x) l2) ->
    l1 = l2.
Proof.
  induction l1 as [|a l1 IH]; intros l2 C1 C2 S1 S2 HF.
  - destruct l2 as [|b l2]; [reflexivity|].
    apply List.Forall_cons_iff in C2 as [Cb _].
    specialize (HF b Cb). cbn [List.filter] in HF.
    rewrite tieb_refl in HF by assumption. discriminate HF.
  - apply List.Forall_cons_iff in C1 as [Ca C1].
    apply StronglySorted_inv in S1 as [S1 Ha].
    destruct l2 as [|b l2].
    { specialize (HF a Ca). cbn [List.filter] in HF.
      rewrite tieb_refl in HF by assumption. discriminate HF. }
    apply List.Forall_cons_iff in C2 as [Cb C2].
    apply StronglySorted_inv in S2 as [S2 Hb].
    assert (E : a = b).
    { pose proof (HF a Ca) as Fa. pose proof (HF b Cb) as Fb.
      cbn [List.filter] in Fa, Fb.
      rewrite tieb_refl in Fa, Fb by assumption.
      rewrite (tieb_sym b a) in Fb by assumption.
      destruct (tieb lc a b) eqn:T.
      - now injection Fa.
      - exfalso.
        assert (Ia : In a l2).
        { assert (In a (List.filter (tieb lc a) l2))
            by (rewrite <- Fa; now left).
          now apply List.filter_In in H as [? _]. }
        assert (Ib : In b l1).
        { assert (In b (List.filter (tieb lc b) l1))
            by (rewrite Fb; now left).
          now apply List.filter_In in H as [? _]. }
        rewrite List.Forall_forall in Ha, Hb.
        assert (tieb lc a b = true)
          by (apply tieb_keyLe; [assumption..|]; split;
              [now apply Ha | now apply Hb]).
        congruence. }
    subst b. f_equal. apply IH; try assumption.
    intros x Cx. specialize (HF x Cx). cbn [List.filter] in HF.
    destruct (tieb lc x a); [now injection HF | assumption].
Qed.

Lemma collect_flat_map (files : list (str * str)) :
  collect files = flat_map rulesOfFile files.
Proof.
  induction files as [|[file xml] files IH]; [reflexivity|].
  cbn [collect flat_map]. unfold rulesOfFile. cbn [fst snd].
  destruct (endsWith file (lit ".xml")); [|exact IH].
  destruct (CATEGORY_MAP !! file); [now rewrite IH | exact IH].
Qed.

Lemma category_of_parsed (xml c : str) (r : rule) :
  In r (parseXmlFile xml c) -> category r = c.
Proof.
  intros H. apply parseXmlFile_In in H as (m & _ & E).
  now apply ruleOfMatch_inv in E as (_ & _ & ->).
Qed.

Lemma rulesOfFile_category (e : str * str) (r : rule) :
  In r (rulesOfFile e) -> CATEGORY_MAP !! fst e = Some (category r).
Proof.
  unfold rulesOfFile. destruct (endsWith _ _); [|contradiction].
  destruct (CATEGORY_MAP !! fst e) as [c|]; [|contradiction].
  intros H. now rewrite (category_of_parsed _ _ _ H).
Qed.

Lemma category_table_lookup (file c : str) :
  CATEGORY_MAP !! file = Some c -> In (file, c) categoryTable.
Proof.
  intros H. apply list_elem_of_In.
  now apply elem_of_list_to_map_2 in H.
Qed.

Lemma category_names_distinct : List.NoDup categoryNames.
Proof. apply distinct_NoDup. vm_compute. reflexivity. Qed.

(** [CATEGORY_MAP] sends different files to different categories. *)
Lemma category_map_injective (f1 f2 c : str) :
  CATEGORY_MAP !! f1 = Some c -> CATEGORY_MAP !! f2 = Some c -> f1 = f2.
Proof.
  intros H1 H2. apply category_table_lookup in H1, H2.
  pose proof category_names_distinct as D. unfold categoryNames in D.
  revert H1 H2 D. generalize categoryTable as t.
  induction t as [|[f0 c0] t IH]; [contradiction|].
  cbn [List.map snd]. intros [E1|H1] [E2|H2] D;
    inversion D as [|? ? Hn Hd]; subst.
  - congruence.
  - injection E1 as -> ->. exfalso. apply Hn.
    apply List.in_map_iff. now exists (f2, c).
  - injection E2 as -> ->. exfalso. apply Hn.
    apply List.in_map_iff. now exists (f1, c).
  - now apply IH.
Qed.

Lemma rulesOfFile_catOK (e : str * str) (r : rule) :
  In r (rulesOfFile e) -> catOK r.
Proof.
  intros H. apply rulesOfFile_category, category_table_lookup in H.
  unfold catOK, categoryNames. apply List.in_map_iff.
  now exists (fst e, category r).
Qed.

(** Every record of the catalogue has one of the eight categories. *)
Lemma collect_catOK (files : list (str * str)) : Forall catOK (collect files).
Proof.
  rewrite collect_flat_map. apply List.Forall_forall. intros r Hr.
  apply List.in_flat_map in Hr as (e & _ & Hr).
  now apply rulesOfFile_catOK in Hr.
Qed.

Lemma filter_flat_map {A B} (f : B -> bool) (g : A -> list B) (l : list A) :
  List.filter f (flat_map g l) = flat_map (fun e => List.filter f (g e)) l.
Proof.
  induction l as [|a l IH]; [reflexivity|].
  cbn [flat_map]. now rewrite List.filter_app, IH.
Qed.

(** A concatenation to which at most one entry of the listing
    contributes does not depend on the order of the listing. *)
Lemma flat_map_one_source {A B} (g : A -> list B) (l l' : list A) :
  Permutation l l' ->
  List.NoDup l ->
  (forall e1 e2, In e1 l -> In e2 l -> g e1 <> [] -> g e2 <> [] -> e1 = e2) ->
  flat_map g l = flat_map g l'.
Proof.
  induction 1 as [|x l l' P IH|x y l|l l' l'' P1 IH1 P2 IH2];
    intros D U.
  - reflexivity.
  - cbn [flat_map]. f_equal. apply IH.
    + now inversion D.
    + intros e1 e2 H1 H2. apply U; now right.
  - cbn [flat_map].
    destruct (g x) as [|bx tx] eqn:Gx; [reflexivity|].
    destruct (g y) as [|by' ty] eqn:Gy; [reflexivity|].
    exfalso. inversion D as [|? ? Hn _]; subst. apply Hn. left.
    apply U; [right; now left | now left | now rewrite Gx | now rewrite Gy].
  - rewrite IH1 by assumption. apply IH2.
    + now apply (Permutation_NoDup P1).
    + intros e1 e2 H1 H2. apply U; eapply Permutation_in;
        try eassumption; now apply Permutation_sym.
Qed.

(** The records that tie with a given one all come from one file, so
    their order in the catalogue does not depend on the order of the
    directory listing. *)
Lemma ties_one_file (x : rule) (files files' : list (str * str)) :
  catOK x ->
  Permutation files files' -> List.NoDup (List.map fst files) ->
  List.filter (tieb lc x) (collect files)
  = List.filter (tieb lc x) (collect files').
Proof.
  intros Cx P D. rewrite !collect_flat_map, !filter_flat_map.
  apply flat_map_one_source; [assumption | now apply NoDup_map_inv in D |].
  intros e1 e2 H1 H2 G1 G2.
  assert (K : forall e, List.filter (tieb lc x) (rulesOfFile e) <> [] ->
                        CATEGORY_MAP !! fst e = Some (category x)).
  { intros e G.
    destruct (List.filter (tieb lc x) (rulesOfFile e)) as [|r t] eqn:F;
      [contradiction|].
    assert (Hr : In r (List.filter (tieb lc x) (rulesOfFile e)))
      by (rewrite F; now left).
    apply List.filter_In in Hr as [Hr T].
    rewrite (tieb_category x r Cx (rulesOfFile_catOK e r Hr) T).
    now apply rulesOfFile_category. }
  pose proof (category_map_injective _ _ _ (K e1 G1) (K e2 G2)) as E.
  destruct e1 as [f1 x1], e2 as [f2 x2]. cbn [fst] in E. subst f2.
  f_equal.
  clear - D H1 H2. induction files as [|[f0 x0] files IH];
    [contradiction|].
  cbn [List.map fst] in D. inversion D as [|? ? Hn Hd]; subst.
  destruct H1 as [E1|H1], H2 as [E2|H2].
  - congruence.
  - injection E1 as -> ->. exfalso. apply Hn.
    apply List.in_map_iff. now exists (f1, x2).
  - injection E2 as -> ->. exfalso. apply Hn.
    apply List.in_map_iff. now exists (f1, x1).
  - now apply IH.
Qed.

(** C2.  The catalogue that [main] writes is the array of the records of
    all files, sorted: it holds the same records, and every record comes
    before every later one in the order of the three keys, which is
    category first (in the collation of [localeCompare]), then priority
    (as numbers), then name (in the collation).  The text written does
    not depend on the order in which the directory lists the files, and
    [main] is a function of its input.  The collation is a parameter: a
    consistent comparator that tells the eight category names apart. *)
Theorem C2_catalogue_order (files : list (str * str)) :
  main lc files
  = wrap (JArr (List.map rule_json (sortRules lc (collect files))))
  /\ Permutation (sortRules lc (collect files)) (collect files)
  /\ StronglySorted (keyLe lc) (sortRules lc (collect files))
  /\ (forall files',
        Permutation files files' -> List.NoDup (List.map fst files) ->
        sortRules lc (collect files') = sortRules lc (collect files)
        /\ main lc files' = main lc files).
Proof.
  split; [reflexivity|]. split; [apply sort_perm|].
  split; [apply sort_sorted, collect_catOK|].
  intros files' P D.
  assert (E : sortRules lc (collect files') = sortRules lc (collect files)).
  { apply sorted_unique;
      try (apply sort_catOK, collect_catOK);
      try (apply sort_sorted, collect_catOK).
    intros x Cx.
    rewrite !filter_tie_sort by (try assumption; apply collect_catOK).
    symmetry. now apply ties_one_file. }
  split; [exact E|]. unfold main. now rewrite E.
Qed.

End KeyOrder.

Section CodeUnitOrder.

Import Examples.

Lemma codeUnitCompare_refl (a : str) : codeUnitCompare a a = 0%Z.
Proof.
  induction a as [|x a IH]; [reflexivity|].
  cbn [codeUnitCompare]. now rewrite N.ltb_irrefl.
Qed.

Lemma codeUnitCompare_anti (a b : str) :
  Z.sgn (codeUnitCompare b a) = (- Z.sgn (codeUnitCompare a b))%Z.
Proof.
  revert b. induction a as [|x a IH]; intros [|y b]; try reflexivity.
  cbn [codeUnitCompare].
  destruct (N.ltb_spec x y), (N.ltb_spec y x); try reflexivity; try lia.
  apply IH.
Qed.

Lemma codeUnitCompare_trans (a b c : str) :
  (codeUnitCompare a b <= 0)%Z -> (codeUnitCompare b c <= 0)%Z ->
  (codeUnitCompare a c <= 0)%Z.
Proof.
  revert b c. induction a as [|x a IH]; intros [|y b] [|z c];
    cbn [codeUnitCompare]; try lia.
  destruct (N.ltb_spec x y), (N.ltb_spec y x), (N.ltb_spec y z),
    (N.ltb_spec z y), (N.ltb_spec x z), (N.ltb_spec z x);
    try lia.
  apply IH.
Qed.

Lemma codeUnitCompare_sep (a b : str) : codeUnitCompare a b = 0%Z -> a = b.
Proof.
  revert b. induction a as [|x a IH]; intros [|y b];
    cbn [codeUnitCompare]; try discriminate; [reflexivity|].
  destruct (N.ltb_spec x y), (N.ltb_spec y x); try discriminate.
  intros E. f_equal; [lia | now apply IH].
Qed.

End CodeUnitOrder.

(* ===================================================================== *)
(** * The claims on sample inputs *)
(* ===================================================================== *)

Section Samples.

Import Builder Examples.

(** The sample listing sorted: the rules of [design] before the rule of
    [security], priority 1 before priority 3, [A] before [B]. *)
Example sorted_sample :
  List.map name (sortRules codeUnitCompare (collect sampleDir))
  = [lit "C"; lit "A"; lit "B"; lit "Sec"].
Proof. vm_compute. reflexivity. Qed.

Lemma C2_witness :
  StronglySorted (keyLe codeUnitCompare)
    (sortRules codeUnitCompare (collect sampleDir))
  /\ main codeUnitCompare (rev sampleDir) = main codeUnitCompare sampleDir.
Proof.
  destruct (C2_catalogue_order codeUnitCompare codeUnitCompare_refl
              codeUnitCompare_anti codeUnitCompare_trans
              (fun c1 c2 _ _ => codeUnitCompare_sep c1 c2) sampleDir)
    as (_ & _ & S & I).
  split; [exact S|].
  apply (I (rev sampleDir)).
  - apply Permutation_rev.
  - apply distinct_NoDup. vm_compute. reflexivity.
Defined.

Lemma C3_witness :
  exists o,
    Annotator.main sampleTable barFile = (o, barFile)
    /\ Annotator.exit_status o = Some 1%Z
    /\ (existsb Annotator.isNull
          (List.map rule_json (parseXmlFile docSwallow design)) = false ->
        o = Annotator.ExitFailure).
Proof.
  apply (C3_missing_entry_fails_without_writing sampleTable barFile
           (List.map rule_json (parseXmlFile docSwallow design))).
  - vm_compute. reflexivity.
  - eexists. split; [left; reflexivity|]. vm_compute. reflexivity.
Defined.


Lemma C5_witness :
  exists file1,
    Annotator.main sampleTable fooFile = (Annotator.Done, file1)
    /\ Annotator.main sampleTable file1 = (Annotator.Done, file1).
Proof.
  destruct (C5_second_run_changes_nothing sampleTable fooFile
              (List.map rule_json (parseXmlFile docPriority2 design)))
    as (file1 & rules1 & R1 & R2 & _).
  - vm_compute. reflexivity.
  - intros r [<-|[]]. vm_compute. reflexivity.
  - exists file1. split; assumption.
Defined.

Lemma C9_witness :
  exists rules rules',
    JSON_parse (Annotator.stripWrapper fooFile) = POk (JArr rules)
    /\ snd (Annotator.main sampleTable fooFile) = wrap (JArr rules')
    /\ JSON_parse (Annotator.stripWrapper
                     (snd (Annotator.main sampleTable fooFile)))
       = POk (JArr rules')
    /\ length rules' = length rules
    /\ Forall2 Annotator.sameButTier rules rules'.
Proof.
  apply (C9_only_tier_fields_change sampleTable fooFile).
  vm_compute. reflexivity.
Defined.

Lemma C8_witness :
  exists out,
    Viewer.applyFilters asciiLower sampleFilters sampleState
    = Some (Viewer.State (Viewer.rules sampleState) out 1)
    /\ concat (List.map
                 (fun p => Viewer.pageRules
                             (Viewer.State (Viewer.rules sampleState) out
                                           p))
                 (seq 1 (Viewer.totalPages
                           (Viewer.State (Viewer.rules sampleState) out
                                         1))))
       = out.
Proof.
  destruct (C8_filter_and_pages asciiLower eq_refl sampleFilters
              sampleState) as (out & E & _ & _ & Hc).
  - assert (F : forallb Viewer.filterable (Viewer.rules sampleState)
                = true) by (vm_compute; reflexivity).
    rewrite forallb_forall in F. apply List.Forall_forall. exact F.
  - exists out. split; [exact E | exact Hc].
Defined.


(** A record whose priority is an object with a property [toString] of
    its own: with a priority box ticked the filter throws, and the
    variables stay as they were. *)
Example filter_throws :
  Viewer.applyFilters asciiLower (Viewer.Filters [] [lit "2"] [])
    (Viewer.State
       [JObj [(lit "name", JStr (lit "Foo")); (lit "message", JStr []);
              (lit "description", JStr []);
              (lit "priority", JObj [(lit "toString", JNum (Fin 0))])]]
       [] 1)
  = None.
Proof. vm_compute. reflexivity. Qed.

(** The filter on the sample catalogue: the search for [foo] in any
    case finds the rule [Foo]. *)
Example filter_sample :
  option_map (fun st => List.length (Viewer.filteredRules st))
    (Viewer.applyFilters asciiLower sampleFilters
       (Viewer.State (List.map rule_json (parseXmlFile docPriority2 design))
                     [] 1))
  = Some 1.
Proof. vm_compute. reflexivity. Qed.

(** The annotator on the sample catalogue: a run that ends normally,
    and a run that fails and writes nothing. *)
Example annotate_sample :
  fst (Annotator.main sampleTable fooFile) = Annotator.Done
  /\ Annotator.main sampleTable barFile = (Annotator.ExitFailure, barFile).
Proof. split; vm_compute; reflexivity. Qed.

End Samples.

(* ===================================================================== *)
(** * Trimmed texts *)
(* ===================================================================== *)

Section TrimFacts.

(** [trimStart] drops a prefix of white space. *)
Lemma trimStart_split (s : str) :
  exists a, s = a ++ trimStart s /\ forallb isSpace a = true.
Proof.
  induction s as [|c s (a & E & F)]; [now exists []|].
  cbn [trimStart]. destruct (isSpace c) eqn:Hc.
  - exists (c :: a). cbn [app forallb]. rewrite Hc, F. now rewrite <- E.
  - now exists [].
Qed.

Lemma trimStart_inv (s : str) (c : cu) (t : str) :
  trimStart s = c :: t -> isSpace c = false.
Proof.
  induction s as [|x s IH]; [discriminate|].
  cbn [trimStart]. destruct (isSpace x) eqn:Hx; [exact IH|].
  intros [= <- <-]. exact Hx.
Qed.

Lemma trimStart_spaces (s : str) :
  forallb isSpace s = true -> trimStart s = [].
Proof.
  induction s as [|c s IH]; [reflexivity|].
  cbn [forallb trimStart]. intros H. apply andb_prop in H as [Hc H].
  rewrite Hc. exact (IH H).
Qed.

Lemma trimStart_last (l : str) (c : cu) :
  isSpace c = false -> trimStart (l ++ [c]) <> [].
Proof.
  intros Hc. induction l as [|x l IH]; cbn [app trimStart].
  - now rewrite Hc.
  - destruct (isSpace x); [exact IH|discriminate].
Qed.

(** [trimEnd] keeps a prefix. *)
Lemma trimEnd_split (s : str) :
  exists b, s = trimEnd s ++ b /\ forallb isSpace b = true.
Proof.
  unfold trimEnd. destruct (trimStart_split (rev s)) as (a & E & F).
  exists (rev a). split.
  - rewrite <- rev_app_distr, <- E. now rewrite rev_involutive.
  - rewrite forallb_forall in *. intros x Hx. apply F.
    now apply in_rev.
Qed.

(** A trimmed text, when it is not empty, starts with a character that
    is not white space. *)
Lemma trim_head (s : str) (c : cu) (t : str) :
  trim s = c :: t -> isSpace c = false.
Proof.
  unfold trim. intros H.
  destruct (trimEnd_split (trimStart s)) as (b & E & _).
  rewrite H in E. cbn [app] in E.
  exact (trimStart_inv s c _ E).
Qed.

(** ... and ends with one. *)
Lemma trim_last (s : str) (c : cu) (t : str) :
  trim s = t ++ [c] -> isSpace c = false.
Proof.
  unfold trim, trimEnd. intros H.
  apply (f_equal (@rev cu)) in H.
  rewrite rev_involutive, rev_app_distr in H. cbn [rev app] in H.
  exact (trimStart_inv _ c _ H).
Qed.

Lemma trim_spaces (s : str) : forallb isSpace s = true -> trim s = [].
Proof.
  intros H. unfold trim. now rewrite (trimStart_spaces s H).
Qed.

(** A text that starts with a character that is not white space keeps it
    when trimmed. *)
Lemma trim_keeps_head (c : cu) (t : str) :
  isSpace c = false -> exists t', trim (c :: t) = c :: t'.
Proof.
  intros Hc. unfold trim. rewrite (trimStart_head c t Hc).
  destruct (trimEnd_split (c :: t)) as (b & E & F).
  destruct (trimEnd (c :: t)) as [|x t'] eqn:T.
  - cbn [app] in E. subst b. cbn [forallb] in F.
    rewrite Hc in F. discriminate.
  - injection E as <- _. now exists t'.
Qed.

Lemma trimEnd_fixed (s : str) (c : cu) :
  isSpace c = false -> trimEnd (s ++ [c]) = s ++ [c].
Proof.
  intros Hc. unfold trimEnd. rewrite rev_app_distr. cbn [rev app].
  rewrite (trimStart_head c _ Hc). cbn [rev].
  now rewrite rev_involutive.
Qed.

(** Trimming twice is trimming once. *)
Lemma trim_idempotent (s : str) : trim (trim s) = trim s.
Proof.
  destruct (trim s) as [|c t] eqn:E; [reflexivity|].
  pose proof (trim_head s c t E) as Hc.
  destruct (@exists_last _ (c :: t) ltac:(discriminate)) as (t' & z & Ez).
  rewrite Ez in E. pose proof (trim_last s z t' E) as Hz.
  unfold trim at 1. rewrite (trimStart_head c t Hc), Ez.
  apply (trimEnd_fixed t' z Hz).
Qed.

End TrimFacts.

(* ===================================================================== *)
(** * The description tab *)
(* ===================================================================== *)

Section DetailFacts.

Import Detail.

(** The first piece of a split goes on from the piece being read. *)
Lemma split_scan_head (r : re) :
  forall rest pre skip piece,
  exists x ps,
    split_scan r pre rest skip piece = (rev piece ++ x) :: ps.
Proof.
  induction rest as [|c rest IH]; intros pre skip piece.
  - exists [], []. rewrite app_nil_r. now destruct skip.
  - destruct skip as [|n]; cbn [split_scan].
    + destruct (match_at false r pre (c :: rest)) as [m|].
      * eexists [], _. rewrite app_nil_r. reflexivity.
      * destruct (IH (c :: pre) 0 (c :: piece)) as (x & ps & E).
        rewrite E. exists (c :: x), ps. cbn [rev].
        now rewrite <- app_assoc.
    + apply IH.
Qed.

(** The pieces of a split are made of characters of the text. *)
Lemma split_scan_chars (r : re) (P : cu -> bool) :
  forall rest pre skip piece,
    forallb P rest = true -> forallb P piece = true ->
    Forall (fun x => forallb P x = true)
           (split_scan r pre rest skip piece).
Proof.
  assert (R : forall l, forallb P l = true -> forallb P (rev l) = true).
  { intros l H. rewrite forallb_forall in *. intros x Hx. apply H.
    now apply in_rev. }
  induction rest as [|c rest IH]; intros pre skip piece Hr Hp.
  - destruct skip; cbn [split_scan]; repeat constructor; now apply R.
  - cbn [forallb] in Hr. apply andb_prop in Hr as [Hc Hr].
    destruct skip as [|n]; cbn [split_scan].
    + destruct (match_at false r pre (c :: rest)) as [m|].
      * constructor; [now apply R|]. now apply IH.
      * apply IH; [exact Hr|]. cbn [forallb]. now rewrite Hc, Hp.
    + now apply IH.
Qed.

Lemma break_needs_newline (c : cu) (pre rest : str) :
  c <> 10%N -> match_at false paragraphBreak pre (c :: rest) = None.
Proof.
  intros H. unfold match_at, paragraphBreak. cbn [mt lit_match].
  unfold chr_match. destruct (N.eqb_spec 10 c) as [E|_]; [congruence|].
  reflexivity.
Qed.

Lemma split_first_piece (c : cu) (t : str) :
  isSpace c = false ->
  exists x ps, split paragraphBreak (c :: t) = (c :: x) :: ps.
Proof.
  intros Hc. unfold split. cbn [split_scan].
  rewrite break_needs_newline by (intros ->; discriminate).
  destruct (split_scan_head paragraphBreak t [c] 0 [c]) as (x & ps & E).
  rewrite E. now exists x, ps.
Qed.

Lemma paragraph_tagged (para : str) :
  paragraph para = [] \/ exists b, paragraph para = lit "<p>" ++ b.
Proof.
  unfold paragraph. destruct (trim para); [now left|right].
  eexists. reflexivity.
Qed.

Lemma paragraph_nonempty (c : cu) (x : str) :
  isSpace c = false -> paragraph (c :: x) <> [].
Proof.
  intros Hc. unfold paragraph.
  destruct (trim_keeps_head c x Hc) as (t' & ->). discriminate.
Qed.

Lemma paragraph_blank (x : str) :
  forallb isSpace x = true -> paragraph x = [].
Proof. intros H. unfold paragraph. now rewrite (trim_spaces x H). Qed.

(** The joined paragraphs start with the tag of a paragraph. *)
Lemma joined_tagged (l : list str) :
  let kept := List.filter (fun s => negb (str_eqb s []))
                          (List.map paragraph l) in
  kept = [] \/ exists b, Viewer.join [10%N] kept = lit "<p>" ++ b.
Proof.
  induction l as [|x l IH]; [now left|].
  cbn [List.map List.filter].
  destruct (paragraph_tagged x) as [->|(b & E)].
  - exact IH.
  - rewrite E. right.
    change (negb (str_eqb (lit "<p>" ++ b) [])) with true. cbn iota.
    destruct (List.filter _ (List.map paragraph l)) as [|y kept].
    + now exists b.
    + cbn [Viewer.join]. rewrite <- app_assoc. eexists. reflexivity.
Qed.

Lemma join_nil (sep : str) (l : list str) :
  Viewer.join sep l = [] -> Forall (fun x => x = []) l.
Proof.
  induction l as [|x l IH]; [constructor|].
  cbn [Viewer.join]. destruct l as [|y l].
  - intros ->. now repeat constructor.
  - intros H. apply app_eq_nil in H as [-> H].
    apply app_eq_nil in H as [_ H]. constructor; [reflexivity|].
    exact (IH H).
Qed.

Lemma tagged_includes (b : str) : includes (lit "<p>" ++ b) (lit "<p>") = true.
Proof. destruct b; reflexivity. Qed.

Lemma format_tagged (b : str) :
  formatDescription (lit "<p>" ++ b) = lit "<p>" ++ b.
Proof.
  unfold formatDescription.
  change (lit "<p>" ++ b) with (60%N :: 112%N :: 62%N :: b) at 1.
  cbv iota.
  now rewrite tagged_includes.
Qed.

(** The three outcomes of [formatDescription] on a text that is not
    empty. *)
Lemma format_cases (c : cu) (t : str) :
  (includes (c :: t) (lit "<p>") || includes (c :: t) (lit "<ul>")
   || includes (c :: t) (lit "<h") = true
   /\ formatDescription (c :: t) = c :: t)
  \/ formatDescription (c :: t) = []
  \/ exists b, formatDescription (c :: t) = lit "<p>" ++ b.
Proof.
  unfold formatDescription.
  destruct (includes (c :: t) (lit "<p>") || includes (c :: t) (lit "<ul>")
            || includes (c :: t) (lit "<h")); [now left|right].
  destruct (joined_tagged (split paragraphBreak (c :: t))) as [E|E];
    cbn zeta in E.
  - left. now rewrite E.
  - now right.
Qed.

(** X6.  Formatting a description twice gives what formatting it once
    gives, unless the first result is the empty text: the result of
    [formatDescription] is the text itself when that holds a tag [p],
    [ul] or [h...], and starts with a paragraph tag in every other case
    in which it is not empty. *)
Theorem X6_format_twice (text : str) :
  Detail.formatDescription text <> [] ->
  Detail.formatDescription (Detail.formatDescription text)
  = Detail.formatDescription text.
Proof.
  intros H. destruct text as [|c t]; [reflexivity|].
  destruct (format_cases c t) as [(M & ->)|[E|(b & ->)]].
  - unfold formatDescription. now rewrite M.
  - now destruct H.
  - apply format_tagged.
Qed.

(** X7.  A text of white space only, not empty, is formatted to the
    empty text: neither a paragraph nor the sentence that says that
    there is no description. *)
Theorem X7_blank_description (text : str) :
  text <> [] -> forallb isSpace text = true ->
  Detail.formatDescription text = []
  /\ Detail.formatDescription [] = Detail.noDescription
  /\ Detail.noDescription <> [].
Proof.
  intros Hne Hs. split; [|split; [reflexivity|discriminate]].
  unfold formatDescription. destruct text as [|c t]; [now destruct Hne|].
  assert (M : forall tag, In 60%N tag -> includes (c :: t) tag = false).
  { intros tag Ht. destruct (includes (c :: t) tag) eqn:I; [|reflexivity].
    apply includes_spec in I as (a & b & E).
    rewrite forallb_forall in Hs.
    assert (S : isSpace 60%N = true).
    { apply Hs. rewrite E. apply in_or_app. right.
      apply in_or_app. now left. }
    discriminate. }
  rewrite !M by (cbn; tauto). cbn [orb].
  pose proof (split_scan_chars paragraphBreak isSpace (c :: t) [] 0 []
                Hs eq_refl) as F.
  fold (split paragraphBreak (c :: t)) in F.
  induction F as [|x l Hx _ IH]; [reflexivity|].
  cbn [List.map List.filter]. rewrite (paragraph_blank x Hx).
  exact IH.
Qed.

Section ConverterDescriptions.

Import Builder.

Lemma extractFirstElement_trimmed (xml tag : str) (c : cu) (t : str) :
  extractFirstElement xml tag = c :: t -> isSpace c = false.
Proof.
  unfold extractFirstElement.
  destruct (rx_match true (elementRegex tag) xml); [|discriminate].
  apply trim_head.
Qed.

(** A text that starts with a character that is not white space is
    never formatted to the empty text. *)
Lemma format_nonempty (c : cu) (t : str) :
  isSpace c = false -> formatDescription (c :: t) <> [].
Proof.
  intros Hc. unfold formatDescription.
  destruct (includes (c :: t) (lit "<p>") || includes (c :: t) (lit "<ul>")
            || includes (c :: t) (lit "<h")); [discriminate|].
  destruct (split_first_piece c t Hc) as (x & ps & ->).
  cbn [List.map List.filter].
  pose proof (paragraph_nonempty c x Hc) as P.
  destruct (paragraph (c :: x)) as [|y p] eqn:E; [now destruct P|].
  change (negb (str_eqb (y :: p) [])) with true. cbn iota.
  cbn [Viewer.join]. now destruct (List.filter _ _).
Qed.

(** X8.  The description tab of a rule of the converter is never
    blank: the description that [parseXmlFile] stores is trimmed, so
    [formatDescription] gives the sentence for a missing description,
    the description itself, or at least one paragraph. *)
Theorem X8_description_tab_not_blank (xml category : str) (r : rule) :
  In r (parseXmlFile xml category) ->
  trim (description r) = description r
  /\ Detail.formatDescription (description r) <> []
  /\ Detail.descriptionHtml (rule_json r)
     = Some (Detail.formatDescription (description r)).
Proof.
  intros H. apply parseXmlFile_In in H as (m & _ & H).
  apply ruleOfMatch_inv in H as (_ & _ & ->). cbn [description].
  set (d := extractFirstElement (bodyOf m) (lit "description")).
  assert (T : trim d = d).
  { subst d. unfold extractFirstElement.
    destruct (rx_match true _ (bodyOf m)); [|reflexivity].
    apply trim_idempotent. }
  assert (N : formatDescription d <> []).
  { destruct d as [|c t] eqn:E; [discriminate|].
    apply format_nonempty.
    exact (extractFirstElement_trimmed _ _ c t E). }
  split; [exact T|]. split; [exact N|].
  unfold descriptionHtml.
  match goal with
  | |- context [get_field (rule_json ?x) _] =>
      destruct (get_mandatory x) as (_ & _ & _ & _ & _ & _ & _ & G & _)
  end.
  rewrite G. cbn [description]. fold d.
  destruct d; reflexivity.
Qed.

End ConverterDescriptions.

End DetailFacts.

(* ===================================================================== *)
(** * The counts beside the filter boxes *)
(* ===================================================================== *)

Section CountFacts.

Import Counts.

Lemma numeric_empty : numeric empty.
Proof. intros k H. rewrite lookup_empty in H. discriminate. Qed.

Lemma shown_empty (k : str) :
  isProto k = false -> shown (empty : counts) k = CNum 0.
Proof. intros H. unfold shown. rewrite lookup_empty, H. reflexivity. Qed.

Lemma bump_numeric (m : counts) (k : str) : numeric m -> numeric (bump m k).
Proof.
  intros N k0 H. unfold bump in H.
  destruct (m !! k) as [[n|]|] eqn:E.
  - destruct (decide (k = k0)) as [->|Ne].
    + rewrite lookup_insert_eq in H. discriminate.
    + rewrite lookup_insert_ne in H by exact Ne. exact (N _ H).
  - exact (N _ H).
  - destruct (isProto k) eqn:P.
    + destruct (str_eqb k (lit "__proto__")); [exact (N _ H)|].
      destruct (decide (k = k0)) as [->|Ne]; [exact P|].
      rewrite lookup_insert_ne in H by exact Ne. exact (N _ H).
    + destruct (decide (k = k0)) as [->|Ne].
      * rewrite lookup_insert_eq in H. discriminate.
      * rewrite lookup_insert_ne in H by exact Ne. exact (N _ H).
Qed.

Lemma shown_numeric (m : counts) (k : str) :
  numeric m -> isProto k = false -> exists n, shown m k = CNum n.
Proof.
  intros N P. unfold shown. destruct (m !! k) as [[n|]|] eqn:E.
  - now exists n.
  - rewrite (N _ E) in P. discriminate.
  - rewrite P. now exists 0.
Qed.

(** One more under the name [k'], the other names as before. *)
Lemma shown_bump (m : counts) (k' k : str) (n : nat) :
  numeric m -> isProto k = false -> shown m k = CNum n ->
  shown (bump m k') k = CNum (if str_eqb k' k then S n else n).
Proof.
  intros N P S. unfold str_eqb. case_bool_decide as D.
  - subst k'. unfold shown, bump in *.
    destruct (m !! k) as [[n0|]|] eqn:E.
    + rewrite lookup_insert_eq. congruence.
    + discriminate.
    + rewrite P in *. rewrite lookup_insert_eq. congruence.
  - unfold shown, bump in *.
    destruct (m !! k') as [[n0|]|] eqn:E.
    + rewrite lookup_insert_ne by exact D. exact S.
    + exact S.
    + destruct (isProto k'); [destruct (str_eqb k' (lit "__proto__"))|];
        rewrite ?lookup_insert_ne by exact D; exact S.
Qed.

(** A record that [updateCounts] can count is not [null], and its
    category and its priority convert to texts. *)
Lemma countable_inv (r : json) :
  countable r = true ->
  Annotator.isNull r = false
  /\ Viewer.toStringU (get_field r (lit "category"))
     = Some (keyOf "category" r)
  /\ Viewer.toStringU (get_field r (lit "priority"))
     = Some (keyOf "priority" r).
Proof.
  unfold countable, keyOf. rewrite !andb_true_iff, negb_true_iff.
  intros [[Hn Hc] Hp].
  apply printableU_toStringU in Hc as (kc & ->), Hp as (kp & ->).
  now repeat split.
Qed.

Lemma matchesPriority_total (f : Viewer.filters) (r : json) :
  countable r = true ->
  Viewer.matchesPriority f r
  = Some (default false (Viewer.matchesPriority f r)).
Proof.
  intros (H & _ & Hp)%countable_inv. unfold Viewer.matchesPriority.
  destruct (Viewer.priorities f); [reflexivity|]. rewrite H, Hp.
  reflexivity.
Qed.

Lemma matchesCategory_total (f : Viewer.filters) (r : json) :
  Annotator.isNull r = false ->
  Viewer.matchesCategory f r
  = Some (default false (Viewer.matchesCategory f r)).
Proof.
  intros H. unfold Viewer.matchesCategory.
  destruct (Viewer.categories f); [reflexivity|]. rewrite H.
  now destruct (get_field r (lit "category")) as [[]|].
Qed.

Lemma countRule_total (f : Viewer.filters) (acc : counts * counts)
  (r : json) :
  countable r = true ->
  countRule f acc r
  = Some (if default false (Viewer.matchesPriority f r)
          then bump (fst acc) (keyOf "category" r) else fst acc,
          if default false (Viewer.matchesCategory f r)
          then bump (snd acc) (keyOf "priority" r) else snd acc).
Proof.
  intros C. pose proof (countable_inv r C) as (H & Hc & Hp).
  unfold countRule, bumpField.
  rewrite (matchesPriority_total f r C), (matchesCategory_total f r H), H.
  rewrite Hc, Hp. cbn [default].
  now destruct (default false (Viewer.matchesPriority f r)),
               (default false (Viewer.matchesCategory f r)).
Qed.

Lemma countRule_null (f : Viewer.filters) (acc : counts * counts)
  (r : json) :
  Annotator.isNull r = true -> countRule f acc r = None.
Proof.
  intros H. destruct r; try discriminate.
  unfold countRule, Viewer.matchesPriority, Viewer.matchesCategory,
    bumpField.
  cbn [Annotator.isNull].
  destruct (Viewer.priorities f); [|reflexivity].
  reflexivity.
Qed.

(** The loop throws on a catalogue that holds a [null]. *)
Lemma countAll_null (f : Viewer.filters) (rules : list json) :
  forall acc,
    existsb Annotator.isNull rules = true -> countAll f acc rules = None.
Proof.
  induction rules as [|r rules IH]; intros acc; cbn [countAll existsb].
  - discriminate.
  - destruct (Annotator.isNull r) eqn:E.
    + now rewrite (countRule_null f acc r E).
    + cbn [orb]. intros H. destruct (countRule f acc r); [|reflexivity].
      now apply IH.
Qed.

Lemma countAll_spec (f : Viewer.filters) (rules : list json) :
  forall acc,
    forallb countable rules = true ->
    numeric (fst acc) -> numeric (snd acc) ->
    exists cc pc,
      countAll f acc rules = Some (cc, pc)
      /\ (forall k n,
            isProto k = false -> shown (fst acc) k = CNum n ->
            shown cc k
            = CNum (n + tally (fun r =>
                                 default false (Viewer.matchesPriority f r)
                                 && str_eqb (keyOf "category" r) k)
                              rules))
      /\ (forall k n,
            isProto k = false -> shown (snd acc) k = CNum n ->
            shown pc k
            = CNum (n + tally (fun r =>
                                 default false (Viewer.matchesCategory f r)
                                 && str_eqb (keyOf "priority" r) k)
                              rules)).
Proof.
  induction rules as [|r rules IH]; intros [cc0 pc0] Hn N1 N2;
    cbn [countAll forallb fst snd] in *.
  - exists cc0, pc0. unfold tally. cbn [List.filter length].
    split; [reflexivity|].
    split; intros k n _ S; rewrite Nat.add_0_r; exact S.
  - apply andb_true_iff in Hn as [Hr Hn].
    rewrite (countRule_total f _ r Hr). cbn [fst snd].
    set (cc1 := if default false (Viewer.matchesPriority f r)
                then bump cc0 (keyOf "category" r) else cc0).
    set (pc1 := if default false (Viewer.matchesCategory f r)
                then bump pc0 (keyOf "priority" r) else pc0).
    assert (N1' : numeric cc1)
      by (subst cc1; destruct (default false (Viewer.matchesPriority f r));
          [apply bump_numeric|]; exact N1).
    assert (N2' : numeric pc1)
      by (subst pc1; destruct (default false (Viewer.matchesCategory f r));
          [apply bump_numeric|]; exact N2).
    destruct (IH (cc1, pc1) Hn N1' N2') as (cc & pc & E & C & P).
    exists cc, pc. split; [exact E|].
    cbn [fst snd] in C, P. unfold tally in *. cbn [List.filter].
    split; intros k n Pk S.
    + subst cc1.
      destruct (default false (Viewer.matchesPriority f r)); cbn [andb].
      * rewrite (C k _ Pk (shown_bump cc0 _ k n N1 Pk S)).
        destruct (str_eqb (keyOf "category" r) k); cbn [length];
          f_equal; lia.
      * exact (C k n Pk S).
    + subst pc1.
      destruct (default false (Viewer.matchesCategory f r)); cbn [andb].
      * rewrite (P k _ Pk (shown_bump pc0 _ k n N2 Pk S)).
        destruct (str_eqb (keyOf "priority" r) k); cbn [length];
          f_equal; lia.
      * exact (P k n Pk S).
Qed.

Lemma countOf_map (g : str -> cval) (keys : list str) (k : str) :
  In k keys ->
  countOf (List.map (fun c => (c, g c)) keys) k
  = match g k with CNum n => Some n | CText => None end.
Proof.
  unfold countOf. induction keys as [|c keys IH]; intros H; [destruct H|].
  cbn [List.map List.find fst]. unfold str_eqb at 1.
  case_bool_decide as D.
  - subst c. reflexivity.
  - destruct H as [->|H]; [congruence|]. exact (IH H).
Qed.

Lemma categoryKeys_own (c : str) : In c categoryKeys -> isProto c = false.
Proof.
  intros H. repeat (destruct H as [<-|H]; [vm_compute; reflexivity|]).
  destruct H.
Qed.

Lemma priorityKeys_own (p : str) : In p priorityKeys -> isProto p = false.
Proof.
  intros H. repeat (destruct H as [<-|H]; [vm_compute; reflexivity|]).
  destruct H.
Qed.

(** What [updateCounts] shows, as numbers of records. *)
Lemma updateCounts_spec (f : Viewer.filters) (rules : list json) :
  forallb countable rules = true ->
  exists sc,
    updateCounts f rules = Some sc
    /\ (forall c,
          In c categoryKeys ->
          countOf (byCategory sc) c
          = Some (tally (fun r =>
                           default false (Viewer.matchesPriority f r)
                           && str_eqb (keyOf "category" r) c)
                        rules))
    /\ (forall p,
          In p priorityKeys ->
          countOf (byPriority sc) p
          = Some (tally (fun r =>
                           default false (Viewer.matchesCategory f r)
                           && str_eqb (keyOf "priority" r) p)
                        rules)).
Proof.
  intros Hn. unfold updateCounts.
  destruct (countAll_spec f rules (empty, empty) Hn numeric_empty
              numeric_empty) as (cc & pc & E & C & P).
  rewrite E. eexists. split; [reflexivity|]. cbn [byCategory byPriority].
  split; intros k Hk; rewrite (countOf_map _ _ _ Hk).
  - rewrite (C k 0 (categoryKeys_own k Hk)
               (shown_empty k (categoryKeys_own k Hk))).
    reflexivity.
  - rewrite (P k 0 (priorityKeys_own k Hk)
               (shown_empty k (priorityKeys_own k Hk))).
    reflexivity.
Qed.

Lemma filterM_total (cb : json -> option bool) (l : list json) :
  (forall r, In r l -> cb r <> None) ->
  Viewer.filterM cb l
  = Some (List.filter (fun r => default false (cb r)) l).
Proof.
  induction l as [|x l IH]; intros H; [reflexivity|].
  cbn [Viewer.filterM List.filter].
  destruct (cb x) as [b|] eqn:E; [|destruct (H x (or_introl eq_refl) E)].
  rewrite IH by (intros r Hr; apply H; now right). reflexivity.
Qed.

Section Facets.

Variable toLowerCase : str -> str.
Hypothesis lower_empty : toLowerCase [] = [].

(** With an empty search box, the filter keeps the records that pass
    the two tests of the boxes. *)
Lemma applyFilters_boxes (cs ps : list str) (rules out0 : list json)
  (page : nat) :
  forallb countable rules = true ->
  Viewer.applyFilters toLowerCase (Viewer.Filters cs ps [])
    (Viewer.State rules out0 page)
  = Some (Viewer.State rules
            (List.filter
               (fun r =>
                  default false
                    (Viewer.matchesCategory (Viewer.Filters cs ps []) r)
                  && default false
                       (Viewer.matchesPriority (Viewer.Filters cs ps [])
                          r))
               rules)
            1).
Proof.
  intros Hn. unfold Viewer.applyFilters.
  cbn [Viewer.searchValue Viewer.rules]. rewrite lower_empty.
  change (trim []) with (@nil cu).
  assert (K : forall r, In r rules ->
            Viewer.keeps toLowerCase (Viewer.Filters cs ps []) [] r
            = Some (default false
                      (Viewer.matchesCategory (Viewer.Filters cs ps []) r)
                    && default false
                         (Viewer.matchesPriority
                            (Viewer.Filters cs ps []) r))).
  { intros r Hr. rewrite forallb_forall in Hn.
    pose proof (Hn r Hr) as Cr.
    pose proof (countable_inv r Cr) as (Nr & _).
    unfold Viewer.keeps.
    rewrite (matchesCategory_total _ r Nr),
      (matchesPriority_total _ r Cr).
    cbn [Viewer.matchesSearch default]. now rewrite andb_true_r. }
  rewrite filterM_total by (intros r Hr; rewrite (K r Hr); discriminate).
  do 2 f_equal. apply List.filter_ext_in. intros r Hr.
  rewrite (K r Hr). reflexivity.
Qed.

(** X1.  On a catalogue whose records are not [null] and have a
    category and a priority that convert to texts (no object with a
    property [toString] of its own, numbers that are integers of
    magnitude at most 2^53 or infinite), [updateCounts] does not throw
    and the number it writes beside a box is the number of rules that
    the list shows when the search box is empty and that box alone is
    ticked in its group, the other group being as it is: beside a
    category, the rules of that category that pass the priority boxes
    (for records whose [category] is a text); beside a priority from 1
    to 5, the rules of that priority that pass the category boxes.
    The search text and the boxes of the own group play no part. *)
Theorem X1_counts_are_facets (f : Viewer.filters) (rules : list json) :
  forallb Counts.countable rules = true ->
  exists sc,
    Counts.updateCounts f rules = Some sc
    /\ (forall c,
          In c Counts.categoryKeys ->
          Forall (fun r =>
                    Viewer.isStr (get_field r (lit "category")) = true)
                 rules ->
          exists out,
            Viewer.applyFilters toLowerCase
              (Viewer.Filters [c] (Viewer.priorities f) [])
              (Viewer.State rules rules 1)
            = Some (Viewer.State rules out 1)
            /\ Counts.countOf (Counts.byCategory sc) c
               = Some (length out))
    /\ (forall p,
          In p Counts.priorityKeys ->
          exists out,
            Viewer.applyFilters toLowerCase
              (Viewer.Filters (Viewer.categories f) [p] [])
              (Viewer.State rules rules 1)
            = Some (Viewer.State rules out 1)
            /\ Counts.countOf (Counts.byPriority sc) p
               = Some (length out)).
Proof.
  intros Hn.
  destruct (updateCounts_spec f rules Hn) as (sc & E & C & P).
  exists sc. split; [exact E|].
  assert (Nn : forall r, In r rules -> countable r = true)
    by now apply forallb_forall.
  split.
  - intros c Hc Hs. eexists.
    split; [apply (applyFilters_boxes _ _ rules rules 1 Hn)|].
    rewrite (C c Hc). unfold tally. do 2 f_equal.
    apply List.filter_ext_in. intros r Hr.
    rewrite List.Forall_forall in Hs. specialize (Hs r Hr).
    destruct (countable_inv r (Nn r Hr)) as (Nr & Kc & Kp).
    destruct (get_field r (lit "category")) as [[]|] eqn:G;
      try discriminate.
    unfold Viewer.matchesCategory, Viewer.matchesPriority.
    cbn [Viewer.categories Viewer.priorities].
    rewrite Nr, G, Kp.
    cbn [Viewer.toStringU Viewer.toString] in Kc.
    injection Kc as <-.
    cbn [default existsb].
    rewrite orb_false_r. apply andb_comm.
  - intros p Hp. eexists.
    split; [apply (applyFilters_boxes _ _ rules rules 1 Hn)|].
    rewrite (P p Hp). unfold tally. do 2 f_equal.
    apply List.filter_ext_in. intros r Hr.
    destruct (countable_inv r (Nn r Hr)) as (Nr & Kc & Kp).
    unfold Viewer.matchesCategory, Viewer.matchesPriority.
    cbn [Viewer.categories Viewer.priorities].
    rewrite Nr, Kp. cbn [default existsb]. rewrite orb_false_r.
    reflexivity.
Qed.

End Facets.

End CountFacts.

(* ===================================================================== *)
(** * The pagination bar *)
(* ===================================================================== *)

Section PagingFacts.

Import Paging.

Lemma half_window : (maxVisiblePages / 2 = 2)%Z.
Proof. reflexivity. Qed.

Lemma window_bounds (total current : Z) :
  (1 <= current <= total)%Z ->
  (1 <= startPage total current <= current)%Z
  /\ (current <= endPage total current <= total)%Z
  /\ (endPage total current - startPage total current + 1
      = Z.min maxVisiblePages total)%Z.
Proof.
  intros H. unfold startPage, endPage, startPage0. rewrite half_window.
  unfold maxVisiblePages.
  destruct (Z.ltb_spec (Z.min total (Z.max 1 (current - 2) + 5 - 1)
                        - Z.max 1 (current - 2) + 1) 5); lia.
Qed.

Lemma range_In (a b z : Z) : In z (range a b) <-> (a <= z <= b)%Z.
Proof.
  unfold range. rewrite in_map_iff. split.
  - intros (k & <- & Hk). apply in_seq in Hk. lia.
  - intros H. exists (Z.to_nat (z - a)). split; [lia|].
    apply in_seq. lia.
Qed.

Lemma range_sorted (a b : Z) : StronglySorted Z.lt (range a b).
Proof.
  unfold range. generalize (Z.to_nat (b + 1 - a)) as n. intros n.
  generalize 0 as i. induction n as [|n IH]; intros i; cbn [seq List.map].
  - constructor.
  - constructor; [apply IH|].
    apply List.Forall_forall. intros z Hz. apply in_map_iff in Hz.
    destruct Hz as (k & <- & Hk). apply in_seq in Hk. lia.
Qed.

Lemma sorted_app (l1 l2 : list Z) :
  StronglySorted Z.lt l1 -> StronglySorted Z.lt l2 ->
  (forall x y, In x l1 -> In y l2 -> (x < y)%Z) ->
  StronglySorted Z.lt (l1 ++ l2).
Proof.
  induction l1 as [|x l1 IH]; intros S1 S2 H; [exact S2|].
  cbn [app]. inversion S1 as [|? ? S1' F1]; subst.
  constructor.
  - apply IH; [exact S1'|exact S2|]. intros a b Ha Hb.
    apply H; [now right|exact Hb].
  - apply List.Forall_app. split; [exact F1|].
    apply List.Forall_forall. intros y Hy. apply H; [now left|exact Hy].
Qed.

Lemma numbered_window (current : Z) (l : list Z) :
  omap numbered (List.map (fun i => Number (i =? current)%Z i) l) = l.
Proof.
  induction l as [|z l IH]; [reflexivity|].
  cbn [List.map]. cbn [omap list_omap numbered]. now rewrite IH.
Qed.

(** The page numbers on the buttons of the bar. *)
Lemma numbered_items (total current : Z) :
  (1 < total)%Z ->
  omap numbered (items total current)
  = (if (1 <? startPage total current)%Z then [1%Z] else [])
      ++ range (startPage total current) (endPage total current)
      ++ (if (endPage total current <? total)%Z then [total] else []).
Proof.
  intros H. unfold items.
  destruct (Z.leb_spec total 1) as [L|_]; [lia|].
  cbn zeta. rewrite !omap_app, numbered_window.
  cbn [omap list_omap numbered app].
  f_equal.
  - destruct (1 <? startPage total current)%Z; [|reflexivity].
    now destruct (2 <? startPage total current)%Z.
  - rewrite app_nil_r. f_equal.
    destruct (endPage total current <? total)%Z; [|reflexivity].
    now destruct (endPage total current <? total - 1)%Z.
Qed.

(** X2.  On page [current] of [total] pages, more than one, the numbered
    buttons of the bar show pages in increasing order without repeats,
    all between 1 and [total]; the first page, the current page and the
    last page are always among them, and so is every page of the window
    around the current page, which spans five pages ([total] pages when
    there are fewer than five). *)
Theorem X2_bar_numbers (total current : Z) :
  (1 < total)%Z -> (1 <= current <= total)%Z ->
  let shown := omap Paging.numbered (Paging.items total current) in
  StronglySorted Z.lt shown
  /\ Forall (fun z => 1 <= z <= total)%Z shown
  /\ In 1%Z shown /\ In current shown /\ In total shown
  /\ (Paging.startPage total current <= current
      <= Paging.endPage total current)%Z
  /\ (Paging.endPage total current - Paging.startPage total current + 1
      = Z.min 5 total)%Z
  /\ (forall z,
        (Paging.startPage total current <= z
         <= Paging.endPage total current)%Z ->
        In z shown).
Proof.
  intros Ht Hc shown. subst shown. rewrite (numbered_items _ _ Ht).
  destruct (window_bounds total current Hc) as ((S1 & S2) & (E1 & E2) & W).
  set (s := startPage total current) in *.
  set (e := endPage total current) in *.
  assert (R : forall z, In z (range s e) <-> (s <= z <= e)%Z)
    by (intros z; apply range_In).
  split; [|split; [|split; [|split; [|split; [|split; [|split]]]]]].
  - apply sorted_app.
    + destruct (1 <? s)%Z; repeat constructor.
    + apply sorted_app; [apply range_sorted| |].
      * destruct (e <? total)%Z; repeat constructor.
      * intros x y Hx Hy. apply R in Hx.
        destruct (Z.ltb_spec e total); [|destruct Hy].
        destruct Hy as [<-|[]]. lia.
    + intros x y Hx Hy.
      destruct (Z.ltb_spec 1 s); [|destruct Hx].
      destruct Hx as [<-|[]].
      apply in_app_or in Hy as [Hy|Hy]; [apply R in Hy; lia|].
      destruct (Z.ltb_spec e total); [|destruct Hy].
      destruct Hy as [<-|[]]. lia.
  - apply List.Forall_forall. intros z Hz.
    apply in_app_or in Hz as [Hz|Hz].
    + destruct (1 <? s)%Z; [|destruct Hz]. destruct Hz as [<-|[]]. lia.
    + apply in_app_or in Hz as [Hz|Hz]; [apply R in Hz; lia|].
      destruct (e <? total)%Z; [|destruct Hz].
      destruct Hz as [<-|[]]. lia.
  - destruct (Z.ltb_spec 1 s).
    + apply in_or_app. left. now left.
    + apply in_or_app. right. apply in_or_app. left. apply R. lia.
  - apply in_or_app. right. apply in_or_app. left. apply R. lia.
  - apply in_or_app. right. apply in_or_app.
    destruct (Z.ltb_spec e total).
    + right. now left.
    + left. apply R. lia.
  - lia.
  - exact W.
  - intros z Hz. apply in_or_app. right. apply in_or_app. left.
    now apply R.
Qed.

Lemma dataPage_items (total current : Z) (i : item) (d : str) :
  (1 <= current <= total)%Z ->
  In i (items total current) -> dataPage i = Some d ->
  exists z, d = Z_str z /\ (0 <= z <= total + 1)%Z.
Proof.
  intros Hc Hi Hd. unfold items in Hi.
  destruct (total <=? 1)%Z; [destruct Hi|]. cbn zeta in Hi.
  destruct (window_bounds total current Hc) as ((S1 & S2) & (E1 & E2) & _).
  repeat (apply in_app_or in Hi as [Hi|Hi]).
  - destruct Hi as [<-|[]]. injection Hd as <-. eexists. split; [reflexivity|lia].
  - destruct (1 <? startPage total current)%Z; [|destruct Hi].
    destruct Hi as [<-|Hi].
    + injection Hd as <-. eexists. split; [reflexivity|lia].
    + destruct (2 <? startPage total current)%Z; [|destruct Hi].
      destruct Hi as [<-|[]]. discriminate.
  - apply in_map_iff in Hi as (z & <- & Hz). apply range_In in Hz.
    injection Hd as <-. eexists. split; [reflexivity|lia].
  - destruct (endPage total current <? total)%Z; [|destruct Hi].
    apply in_app_or in Hi as [Hi|Hi].
    + destruct (endPage total current <? total - 1)%Z; [|destruct Hi].
      destruct Hi as [<-|[]]. discriminate.
    + destruct Hi as [<-|[]]. injection Hd as <-.
      eexists. split; [reflexivity|lia].
  - destruct Hi as [<-|[<-|[]]]; [|discriminate].
    injection Hd as <-. eexists. split; [reflexivity|lia].
Qed.

Section Clicks.

(** The click listener on a button whose [data-page] is the text of
    an integer. *)
Lemma clickButton_Z_str (z total : Z) (p : page) :
  (Z.abs z < 2 ^ 53)%Z ->
  clickButton (Button (Z_str z) total) p
  = if ((1 <=? z) && (z <=? total)
        && negb (z =? Z.of_nat (Viewer.currentPage (vars p))))%Z
    then rendered (Page (Viewer.State (Viewer.rules (vars p))
                                      (Viewer.filteredRules (vars p))
                                      (Z.to_nat z))
                        (bar p))
    else p.
Proof.
  intros H. unfold clickButton. cbn [data_page totalPages].
  rewrite (parseInt_Z_str z H).
  destruct (Z.eqb_spec z 0) as [->|N0]; [reflexivity|].
  cbn [negb andb].
  destruct (z =? Z.of_nat (Viewer.currentPage (vars p)))%Z;
    cbn [negb andb]; [now rewrite andb_false_r|].
  now rewrite andb_true_r.
Qed.

(** The page after [renderRules] when the cards of the current page
    can be drawn. *)
Lemma rendered_drawn (p : page) :
  Forall (fun r => is_Some (cardTexts r)) (Viewer.pageRules (vars p)) ->
  rendered p
  = Page (vars p)
         (match Viewer.pageRules (vars p) with
          | [] => []
          | _ :: _ => renderPagination (vars p)
          end).
Proof.
  intros H. unfold rendered, renderRules.
  destruct (Viewer.pageRules (vars p)) as [|r rs]; [reflexivity|].
  apply mapM_is_Some in H as (texts & ->). reflexivity.
Qed.

(** X3.  A click on a button of the bar drawn for the page [current]
    of [total] shows the page that the button names when that is
    another page from 1 to [total], and changes nothing otherwise:
    the button of the current page, the left arrow on page 1 and the
    right arrow on the last page are inert, whether the browser
    honours [disabled] or not.  Showing a page sets the page number
    and calls [renderRules], which draws the cards of the page and the
    bar anew; when the template of a card throws, the page number is
    set and nothing is drawn.  Every button of the bar names a page
    from 0 to [total + 1]. *)
Theorem X3_click_goes_to_named_page (st : Viewer.state) (b : Paging.button) :
  (1 <= Z.of_nat (Viewer.currentPage st)
   <= Z.of_nat (Viewer.totalPages st))%Z ->
  (Z.of_nat (Viewer.totalPages st) < 2 ^ 53 - 1)%Z ->
  In b (Paging.renderPagination st) ->
  exists z,
    Paging.data_page b = Z_str z
    /\ (0 <= z <= Z.of_nat (Viewer.totalPages st) + 1)%Z
    /\ (forall bar,
         Paging.clickButton b (Paging.Page st bar)
         = if ((1 <=? z) && (z <=? Z.of_nat (Viewer.totalPages st))
               && negb (z =? Z.of_nat (Viewer.currentPage st)))%Z
           then Paging.rendered
                  (Paging.Page
                     (Viewer.State (Viewer.rules st)
                                   (Viewer.filteredRules st)
                                   (Z.to_nat z))
                     bar)
           else Paging.Page st bar)
    /\ (forall bar,
          let target :=
            Viewer.State (Viewer.rules st) (Viewer.filteredRules st)
                         (Z.to_nat z) in
          Forall (fun r => is_Some (Paging.cardTexts r))
                 (Viewer.pageRules target) ->
          Paging.rendered (Paging.Page target bar)
          = Paging.Page target
              (match Viewer.pageRules target with
               | [] => []
               | _ :: _ => Paging.renderPagination target
               end)).
Proof.
  intros Hc Ht Hb. unfold renderPagination in Hb.
  apply in_map_iff in Hb as (d & <- & Hd).
  apply list_elem_of_In, list_elem_of_omap in Hd as (i & Hi & Hd).
  apply list_elem_of_In in Hi.
  destruct (dataPage_items _ _ i d Hc Hi Hd) as (z & -> & Hz).
  exists z. split; [reflexivity|]. split; [exact Hz|]. split.
  - intros bar. rewrite clickButton_Z_str by lia. reflexivity.
  - intros bar target H. exact (rendered_drawn (Page target bar) H).
Qed.

End Clicks.

Lemma page_nonempty (rs out : list json) (n : nat) :
  1 <= n ->
  (out = [] \/ n <= Viewer.totalPages (Viewer.State rs out n)) ->
  (Viewer.pageRules (Viewer.State rs out n) = [] <-> out = []).
Proof.
  intros Hn H. rewrite pageRules_eq. unfold Viewer.RULES_PER_PAGE.
  split.
  - intros E. destruct H as [H|H]; [exact H|].
    unfold Viewer.totalPages, Viewer.RULES_PER_PAGE in H.
    cbn [Viewer.filteredRules] in H. change (20 - 1) with 19 in H.
    assert (L : (n - 1) * 20 < length out).
    { pose proof (Nat.div_mod_eq (length out + 19) 20).
      pose proof (Nat.mod_upper_bound (length out + 19) 20). lia. }
    apply (f_equal (@length json)) in E.
    rewrite length_firstn, length_skipn in E. cbn [length] in E.
    lia.
  - intros ->. now rewrite skipn_nil, firstn_nil.
Qed.

Lemma filterM_incl (cb : json -> option bool) (l out : list json) :
  Viewer.filterM cb l = Some out -> incl out l.
Proof.
  revert out. induction l as [|x l IH]; intros out H.
  - injection H as <-. apply incl_refl.
  - cbn [Viewer.filterM] in H. destruct (cb x) as [b|]; [|discriminate].
    destruct (Viewer.filterM cb l) as [r|]; [|discriminate].
    injection H as <-. specialize (IH r eq_refl).
    destruct b.
    + intros y [<-|Hy]; [now left|right; now apply IH].
    + intros y Hy. right. now apply IH.
Qed.

Section Sessions.

Variable toLowerCase : str -> str.

(** A record that the viewer can show can be counted, and its card
    can be drawn. *)
Lemma showable_countable (r : json) :
  showable r = true -> Counts.countable r = true.
Proof.
  unfold showable, Counts.countable. intros [Hn Hf]%andb_true_iff.
  rewrite Hn. cbn [andb]. rewrite forallb_forall in Hf.
  rewrite (Hf (lit "category")), (Hf (lit "priority")); [reflexivity| |];
    unfold cardFields; cbn [In]; tauto.
Qed.

Lemma showable_cardTexts (r : json) :
  showable r = true -> is_Some (cardTexts r).
Proof.
  unfold showable, cardTexts. intros [Hn Hf]%andb_true_iff.
  apply negb_true_iff in Hn. rewrite Hn.
  apply mapM_is_Some, List.Forall_forall. intros k Hk.
  rewrite forallb_forall in Hf. cbn [compose].
  destruct (printableU_toStringU _ (Hf k Hk)) as (text & ->).
  now eexists.
Qed.

Lemma cardTexts_not_null (r : json) :
  is_Some (cardTexts r) -> Annotator.isNull r = false.
Proof.
  unfold cardTexts. destruct (Annotator.isNull r); [|reflexivity].
  intros [? [=]].
Qed.

Lemma pageRules_incl (st : Viewer.state) :
  incl (Viewer.pageRules st) (Viewer.filteredRules st).
Proof.
  unfold Viewer.pageRules. intros r Hr.
  rewrite <- (firstn_skipn
                ((Viewer.currentPage st - 1) * Viewer.RULES_PER_PAGE)
                (Viewer.filteredRules st)).
  apply in_or_app. right.
  rewrite <- (firstn_skipn Viewer.RULES_PER_PAGE
                (skipn _ (Viewer.filteredRules st))).
  apply in_or_app. now left.
Qed.

(** What [renderRules] leaves when it returns. *)
Lemma renderRules_inv (p p' : page) :
  renderRules p = Some p' ->
  vars p' = vars p
  /\ Forall (fun r => is_Some (cardTexts r)) (Viewer.pageRules (vars p))
  /\ (forall b, In b (bar p') ->
                totalPages b = Z.of_nat (Viewer.totalPages (vars p)))
  /\ renderRules p' = Some p'.
Proof.
  unfold renderRules.
  destruct (Viewer.pageRules (vars p)) as [|r rs] eqn:E.
  - intros [= <-]. cbn [vars bar]. rewrite E.
    repeat split; [constructor | intros b []].
  - destruct (mapM cardTexts (r :: rs)) as [texts|] eqn:M; [|discriminate].
    intros [= <-]. cbn [vars bar]. rewrite E, M.
    split; [reflexivity|]. split; [|split; [|reflexivity]].
    + apply mapM_is_Some. now exists texts.
    + intros b Hb. unfold renderPagination in Hb.
      apply in_map_iff in Hb as (d & <- & _). reflexivity.
Qed.

(** [renderRules] returns when the cards of the page can be drawn. *)
Lemma renderRules_showable (p : page) :
  Forall (fun r => showable r = true) (Viewer.filteredRules (vars p)) ->
  exists p', renderRules p = Some p'.
Proof.
  intros H. unfold renderRules.
  destruct (Viewer.pageRules (vars p)) as [|r rs] eqn:E;
    [now eexists|].
  assert (M : is_Some (mapM cardTexts (r :: rs))).
  { apply mapM_is_Some, List.Forall_forall. intros x Hx.
    apply showable_cardTexts. rewrite List.Forall_forall in H.
    apply H, pageRules_incl. rewrite E. exact Hx. }
  destruct M as (texts & ->). now eexists.
Qed.

Lemma updateCounts_showable (f : Viewer.filters) (rules : list json) :
  forallb showable rules = true ->
  exists sc, Counts.updateCounts f rules = Some sc.
Proof.
  intros H.
  destruct (updateCounts_spec f rules) as (sc & E & _); [|now exists sc].
  apply forallb_forall. intros r Hr. apply showable_countable.
  rewrite forallb_forall in H. now apply H.
Qed.

Lemma loadRules_inv (f : Viewer.filters) (data : option json) (p : page) :
  loadRules f data = Some p ->
  exists rules,
    data = Some (JArr rules)
    /\ existsb Annotator.isNull rules = false
    /\ renderRules (Page (Viewer.State rules rules 1) []) = Some p.
Proof.
  unfold loadRules. intros H.
  destruct data as [[| | | |rules|]|]; try discriminate.
  destruct (Counts.updateCounts f rules) as [sc|] eqn:E; [|discriminate].
  exists rules. split; [reflexivity|].
  split; [|exact H].
  destruct (existsb Annotator.isNull rules) eqn:N; [|reflexivity].
  unfold Counts.updateCounts in E.
  rewrite (countAll_null f rules (empty, empty) N) in E. discriminate.
Qed.

Lemma first_page (rules : list json) :
  rules = []
  \/ 1 <= Viewer.totalPages (Viewer.State rules rules 1).
Proof.
  destruct rules as [|x rules]; [now left|right].
  unfold Viewer.totalPages, Viewer.RULES_PER_PAGE.
  cbn [Viewer.filteredRules length].
  change 1 with (20 / 20) at 1. apply Nat.Div0.div_le_mono. lia.
Qed.

Lemma step_consistent (rules : list json) (p p' : page) :
  forallb showable rules = true ->
  consistent rules p -> step toLowerCase p p' -> consistent rules p'.
Proof.
  intros Hs (R & I & C1 & C2 & D) S.
  assert (Sh : forall out, incl out rules ->
                           Forall (fun r => showable r = true) out).
  { intros out Ho. apply List.Forall_forall. intros r Hr.
    rewrite forallb_forall in Hs. now apply Hs, Ho. }
  destruct S as [f|k].
  - unfold onFilter.
    destruct (Viewer.applyFilters toLowerCase f (vars p)) as [st|] eqn:E;
      [|now repeat split].
    unfold Viewer.applyFilters in E.
    destruct (Viewer.filterM _ (Viewer.rules (vars p))) as [out|] eqn:F;
      [|discriminate].
    injection E as <-. cbn [Viewer.rules].
    pose proof (filterM_incl _ _ _ F) as Io. rewrite R in Io.
    rewrite R.
    destruct (updateCounts_showable f rules Hs) as (sc & ->).
    unfold rendered.
    destruct (renderRules_showable
                (Page (Viewer.State rules out 1) (bar p)))
      as (p1 & E1); [exact (Sh out Io)|].
    rewrite E1. cbn [default from_option id].
    destruct (renderRules_inv _ _ E1) as (V & _ & _ & Fx).
    unfold consistent. rewrite V.
    cbn [vars Viewer.rules Viewer.filteredRules Viewer.currentPage].
    split; [reflexivity|]. split; [exact Io|].
    split; [lia|]. split; [|exact Fx].
    destruct out as [|x out]; [now left|right].
    unfold Viewer.totalPages, Viewer.RULES_PER_PAGE.
    cbn [Viewer.filteredRules length].
    change 1 with (20 / 20) at 1. apply Nat.Div0.div_le_mono. lia.
  - unfold onClick.
    destruct (bar p !! k) as [b|] eqn:B; [|now repeat split].
    apply list_elem_of_lookup_2, list_elem_of_In in B.
    destruct (renderRules_inv _ _ D) as (_ & _ & T & _).
    apply T in B.
    unfold clickButton.
    destruct (parseInt (data_page b)) as [[z|]|]; try now repeat split.
    destruct (negb (z =? 0)%Z
              && negb (z =? Z.of_nat (Viewer.currentPage (vars p)))%Z
              && (1 <=? z)%Z && (z <=? totalPages b)%Z) eqn:G;
      [|now repeat split].
    apply andb_prop in G as [G G4]. apply andb_prop in G as [G G3].
    apply Z.leb_le in G3, G4. rewrite B in G4.
    unfold rendered.
    destruct (renderRules_showable
                (Page (Viewer.State (Viewer.rules (vars p))
                                    (Viewer.filteredRules (vars p))
                                    (Z.to_nat z))
                      (bar p)))
      as (p1 & E1); [exact (Sh _ I)|].
    rewrite E1. cbn [default from_option id].
    destruct (renderRules_inv _ _ E1) as (V & _ & _ & Fx).
    unfold consistent. rewrite V.
    cbn [vars Viewer.rules Viewer.filteredRules Viewer.currentPage].
    split; [exact R|]. split; [exact I|]. split; [lia|].
    split; [|exact Fx]. right.
    unfold Viewer.totalPages in *. cbn [Viewer.filteredRules]. lia.
Qed.

(** X4.  On a catalogue of records that the viewer can show (none is
    [null], and the six fields of a card convert to texts), throughout
    a session (the load, then changes of the filters and clicks on
    buttons of the bar, in any order and number) the catalogue stays
    the loaded array, the list holds rules of the catalogue only, the
    page number is at least 1 and at most the number of pages of the
    list, and the bar is the one drawn for the current list and page.
    So the list is shown empty only when no rule passes the filters: a
    click never leads past the last page, and a change of the filters
    never leaves the viewer on a page that the new list does not
    have. *)
Theorem X4_session_invariant (f0 : Viewer.filters) (rules : list json)
  (p : Paging.page) :
  forallb Paging.showable rules = true ->
  Paging.reachable toLowerCase f0 (Some (JArr rules)) p ->
  Viewer.rules (Paging.vars p) = rules
  /\ incl (Viewer.filteredRules (Paging.vars p)) rules
  /\ 1 <= Viewer.currentPage (Paging.vars p)
  /\ (Viewer.filteredRules (Paging.vars p) = []
      \/ Viewer.currentPage (Paging.vars p)
         <= Viewer.totalPages (Paging.vars p))
  /\ Paging.renderRules p = Some p
  /\ (Viewer.pageRules (Paging.vars p) = []
      <-> Viewer.filteredRules (Paging.vars p) = []).
Proof.
  intros Hs H.
  assert (G : consistent rules p).
  { induction H as [p L|p p' _ IH S].
    - destruct (loadRules_inv f0 _ p L) as (rules' & [= <-] & N & E).
      destruct (renderRules_inv _ _ E) as (V & _ & _ & Fx).
      unfold consistent. rewrite V.
      cbn [vars Viewer.rules Viewer.filteredRules Viewer.currentPage].
      split; [reflexivity|]. split; [apply incl_refl|].
      split; [lia|]. split; [apply first_page | exact Fx].
    - exact (step_consistent rules p p' Hs IH S). }
  destruct G as (R & I & C1 & C2 & D).
  repeat (split; [assumption|]).
  destruct (vars p) as [rs out n]. cbn [Viewer.filteredRules] in *.
  cbn [Viewer.currentPage] in *.
  apply page_nonempty; assumption.
Qed.

(** X5.  The viewer loads every array of records that it can show
    (none is [null], and the six fields of a card convert to texts),
    whatever boxes are ticked at that time: the list is then the whole
    catalogue, on page 1, and the bar is the one drawn for it.  When
    the viewer loads, [RULES_DATA] is an array without [null] in which
    the cards of the first 20 records can be drawn: a value that is
    undefined or is no array, a [null] anywhere in the array, or a
    field that does not convert to a text on the first page ends the
    load in the [catch], with the error message shown and no listener
    installed. *)
Theorem X5_load (f : Viewer.filters) (data : option json) :
  (forall rules,
      data = Some (JArr rules) ->
      forallb Paging.showable rules = true ->
      exists p,
        Paging.loadRules f data = Some p
        /\ Paging.vars p = Viewer.State rules rules 1
        /\ Viewer.pageRules (Paging.vars p) = firstn 20 rules
        /\ Paging.bar p
           = match rules with
             | [] => []
             | _ :: _ =>
                 Paging.renderPagination (Viewer.State rules rules 1)
             end)
  /\ (forall p,
        Paging.loadRules f data = Some p ->
        exists rules,
          data = Some (JArr rules)
          /\ existsb Annotator.isNull rules = false
          /\ Forall (fun r => is_Some (Paging.cardTexts r))
                    (firstn 20 rules)
          /\ Paging.vars p = Viewer.State rules rules 1)
  /\ (forall rules,
        data = Some (JArr rules) ->
        existsb Annotator.isNull rules = true
        \/ Exists (fun r => Paging.cardTexts r = None) (firstn 20 rules) ->
        Paging.loadRules f data = None).
Proof.
  split; [|split].
  - intros rules -> Hs. unfold loadRules.
    destruct (updateCounts_showable f rules Hs) as (sc & ->).
    destruct (renderRules_showable
                (Page (Viewer.State rules rules 1) [])) as (p & E).
    { apply List.Forall_forall. intros r Hr.
      rewrite forallb_forall in Hs. now apply Hs. }
    exists p. split; [exact E|].
    unfold renderRules in E. cbn [vars] in E.
    change (Viewer.pageRules (Viewer.State rules rules 1))
      with (firstn 20 rules) in E.
    destruct rules as [|r rules].
    + cbn [firstn] in E. injection E as <-. now repeat split.
    + cbn [firstn] in E.
      destruct (mapM cardTexts (r :: firstn 19 rules)); [|discriminate].
      injection E as <-. now repeat split.
  - intros p L. destruct (loadRules_inv f data p L) as (rules & -> & N & E).
    exists rules. split; [reflexivity|]. split; [exact N|].
    destruct (renderRules_inv _ _ E) as (V & Fc & _).
    split; [exact Fc | exact V].
  - intros rules -> H.
    destruct (loadRules f (Some (JArr rules))) as [p|] eqn:L;
      [|reflexivity].
    destruct (loadRules_inv f _ p L) as (rules' & [= <-] & N & E).
    destruct (renderRules_inv _ _ E) as (_ & Fc & _).
    destruct H as [H|H]; [congruence|].
    apply List.Exists_exists in H as (r & Hr & Er).
    rewrite List.Forall_forall in Fc. specialize (Fc r Hr).
    rewrite Er in Fc. now destruct Fc.
Qed.

End Sessions.

End PagingFacts.

Section DotsFacts.

Import Paging.

Lemma range_cons (a b : Z) :
  (a <= b)%Z -> range a b = a :: range (a + 1) b.
Proof.
  intros H. unfold range.
  replace (Z.to_nat (b + 1 - a)) with (S (Z.to_nat (b + 1 - (a + 1))))
    by lia.
  cbn [seq List.map]. f_equal; [lia|].
  rewrite <- seq_shift, List.map_map. apply List.map_ext. intros k. lia.
Qed.

Lemma range_nil (a b : Z) : (b < a)%Z -> range a b = [].
Proof.
  intros H. unfold range.
  replace (Z.to_nat (b + 1 - a)) with 0 by lia. reflexivity.
Qed.

(** The window: its pages follow one another. *)
Lemma window_marked (current e : Z) (rest : list item) :
  forall (n : nat) (s prev : Z) (dots : bool),
    n = Z.to_nat (e - s) -> (s <= e)%Z ->
    (if dots then (prev + 1 <? s)%Z else (s =? prev + 1)%Z) = true ->
    gapsMarked prev dots
      (List.map (fun i => Number (i =? current)%Z i) (range s e) ++ rest)
    = gapsMarked e false rest.
Proof.
  induction n as [|n IH]; intros s prev dots Hn Hs Hf;
    rewrite (range_cons s e Hs); cbn [List.map app gapsMarked];
    rewrite Hf; cbn [andb].
  - assert (s = e) by lia. subst s.
    rewrite range_nil by lia. reflexivity.
  - apply IH; [lia|lia|]. apply Z.eqb_refl.
Qed.

(** X19.  In the bar the numbered buttons start at page 1, a numbered
    button that stands next to another shows the page that follows, and
    an ellipsis stands exactly where pages are left out: between two
    numbered buttons that are more than one page apart, never twice in
    a row and never last. *)
Theorem X19_ellipsis_where_pages_are_left_out (total current : Z) :
  (1 < total)%Z -> (1 <= current <= total)%Z ->
  Paging.gapsMarked 0 false (Paging.items total current) = true.
Proof.
  intros Ht Hc. unfold items.
  destruct (Z.leb_spec total 1) as [L|_]; [lia|]. cbn zeta.
  destruct (window_bounds total current Hc) as ((S1 & S2) & (E1 & E2) & _).
  set (s := startPage total current) in *.
  set (e := endPage total current) in *.
  cbn [app gapsMarked].
  assert (Tail : gapsMarked e false
                   ((if (e <? total)%Z
                     then (if (e <? total - 1)%Z then [Dots] else [])
                            ++ [Jump total]
                     else [])
                      ++ [Arrow (current =? total)%Z (current + 1) 9654%N;
                          Info current total])
                 = true).
  { destruct (Z.ltb_spec e total) as [L1|L1]; [|reflexivity].
    destruct (Z.ltb_spec e (total - 1)) as [L2|L2];
      cbn [app gapsMarked negb andb].
    - replace (e + 1 <? total)%Z with true
        by (symmetry; apply Z.ltb_lt; lia).
      reflexivity.
    - replace (total =? e + 1)%Z with true
        by (symmetry; apply Z.eqb_eq; lia).
      reflexivity. }
  destruct (Z.ltb_spec 1 s) as [L1|L1].
  - destruct (Z.ltb_spec 2 s) as [L2|L2];
      cbn [app gapsMarked negb andb Z.eqb Z.add Pos.eqb].
    + rewrite (window_marked current e _ _ s 1 true eq_refl); [exact Tail|lia|].
      apply Z.ltb_lt. lia.
    + rewrite (window_marked current e _ _ s 1 false eq_refl); [exact Tail|lia|].
      apply Z.eqb_eq. lia.
  - cbn [app].
    rewrite (window_marked current e _ _ s 0 false eq_refl); [exact Tail|lia|].
    apply Z.eqb_eq. lia.
Qed.

End DotsFacts.

(* ===================================================================== *)
(** * [debounce] *)
(* ===================================================================== *)

Section DebounceFacts.

Import Debounce.

Variable A : Type.
Variable wait : nat.

Lemma run_app (es1 es2 : list (event A)) (s : dstate A) :
  run wait (es1 ++ es2) s
  = match run wait es1 s with
    | Some s' => run wait es2 s'
    | None => None
    end.
Proof.
  revert s. induction es1 as [|e es1 IH]; intros s; [reflexivity|].
  cbn [app run]. destruct (dstep wait e s); [apply IH|reflexivity].
Qed.

Lemma elapsed_app (es1 es2 : list (event A)) :
  elapsed (es1 ++ es2) = elapsed es1 + elapsed es2.
Proof.
  unfold elapsed. now rewrite List.map_app, list_sum_app.
Qed.

Lemma elapsed_ticks (ms : list nat) :
  elapsed (List.map (@Tick A) ms) = list_sum ms.
Proof.
  unfold elapsed. rewrite List.map_map. cbn beta iota.
  now rewrite List.map_id.
Qed.

Lemma elapsed_call_ticks (es1 : list (event A)) (a : A) (ms : list nat) :
  elapsed (es1 ++ Call a :: List.map Tick ms) = elapsed es1 + list_sum ms.
Proof.
  rewrite elapsed_app. change (Call a :: List.map Tick ms)
    with ([Call a] ++ List.map (@Tick A) ms).
  rewrite elapsed_app, elapsed_ticks. reflexivity.
Qed.

Lemma explained_more (start : nat) (es : list (event A)) (e : event A)
  (c : nat * A) :
  explained wait start es c -> explained wait start (es ++ [e]) c.
Proof.
  intros (es1 & ms & id & es3 & -> & W & T).
  exists es1, ms, id, (es3 ++ [e]). split; [|now split].
  rewrite <- !app_assoc. cbn [app]. rewrite <- !app_assoc. reflexivity.
Qed.

Lemma settled_step (start : nat) (es : list (event A)) (e : event A)
  (s s' : dstate A) :
  settled wait start es s -> dstep wait e s = Some s' ->
  settled wait start (es ++ [e]) s'.
Proof.
  intros (N & C & T) D.
  assert (C' : Forall (explained wait start (es ++ [e])) (calls s)).
  { eapply List.Forall_impl; [|exact C]. intros c. apply explained_more. }
  destruct e as [a|id|ms]; cbn [dstep] in D.
  - injection D as <-. unfold settled, executedFunction.
    cbn [now calls timers timeout].
    rewrite elapsed_app. cbn. split; [lia|]. split; [exact C'|].
    right. exists (nextId s), a, es, []. cbn [List.map].
    split; [|now split].
    destruct T as [->|(id & a0 & es1 & ms & -> & -> & _)].
    + rewrite N. now destruct (timeout s).
    + cbn [clearTimeout List.filter timer_id]. rewrite Nat.eqb_refl.
      cbn [negb]. now rewrite N.
  - unfold fire in D.
    destruct T as [T|(id0 & a0 & es1 & ms & T & O & E)];
      rewrite T in D; cbn [List.find] in D; [discriminate|].
    cbn [timer_id] in D. destruct (Nat.eqb_spec id0 id) as [->|_];
      [|discriminate].
    cbn [due] in D.
    destruct (Nat.leb_spec (start + elapsed es1 + wait) (now s)) as [L|_];
      [|discriminate].
    injection D as <-. unfold settled, later.
    cbn [now calls timers timeout clearTimeout List.filter timer_id args].
    rewrite Nat.eqb_refl. cbn [negb]. rewrite elapsed_app. cbn.
    split; [lia|]. split.
    + constructor; [|exact C'].
      exists es1, ms, id, []. cbn [fst snd].
      rewrite E, elapsed_call_ticks in N.
      split; [|split; lia].
      rewrite E, <- !app_assoc. reflexivity.
    + left. now destruct (timeout s).
  - injection D as <-. unfold settled.
    cbn [now calls timers timeout]. rewrite elapsed_app.
    cbn. split; [lia|]. split; [exact C'|].
    destruct T as [T|(id0 & a0 & es1 & ms0 & T & O & E)]; [now left|].
    right. exists id0, a0, es1, (ms0 ++ [ms]).
    split; [exact T|]. split; [exact O|].
    rewrite E, List.map_app, <- !app_assoc. reflexivity.
Qed.

Lemma run_settled (start : nat) (es : list (event A)) (s : dstate A) :
  run wait es (init start) = Some s -> settled wait start es s.
Proof.
  revert s. induction es as [|e es IH] using rev_ind; intros s H.
  - injection H as <-. unfold settled, init. cbn.
    split; [lia|]. split; [constructor|now left].
  - rewrite run_app in H.
    destruct (run wait es (init start)) as [s0|]; [|discriminate].
    cbn [run] in H.
    destruct (dstep wait e s0) as [s1|] eqn:D; [|discriminate].
    injection H as <-. exact (settled_step start es e s0 s1 (IH s0 eq_refl) D).
Qed.

(** X9.  The function that [debounce(func, wait)] returns calls [func]
    only when [wait] milliseconds or more have passed since its latest
    call without another call in between, with the arguments of that
    latest call, and at most once for it: every call of [func] comes
    right after a call of the debounced function followed by nothing
    but the passing of time.  And such a call is never lost: after a
    call, once [wait] milliseconds have passed, the host can run the
    timer, and [func] is then called with the arguments of the call.
    At most one timer is pending at any time. *)
Theorem X9_debounce (start : nat) (es : list (Debounce.event A))
  (s : Debounce.dstate A) :
  Debounce.run wait es (Debounce.init start) = Some s ->
  (forall t a,
      In (t, a) (Debounce.calls s) ->
      exists es1 ms id es3,
        es = es1 ++ Debounce.Call a
               :: List.map Debounce.Tick ms ++ Debounce.Fire id :: es3
        /\ wait <= list_sum ms
        /\ t = start + Debounce.elapsed es1 + list_sum ms)
  /\ length (Debounce.timers s) <= 1
  /\ (forall a,
      exists s',
        Debounce.run wait
          (es ++ [Debounce.Call a; Debounce.Tick wait;
                  Debounce.Fire (Debounce.nextId s)])
          (Debounce.init start)
        = Some s'
        /\ Debounce.calls s'
           = (Debounce.now s + wait, a) :: Debounce.calls s
        /\ Debounce.timers s' = []).
Proof.
  intros H. destruct (run_settled start es s H) as (N & C & T).
  split; [|split].
  - intros t a Hc. rewrite List.Forall_forall in C.
    exact (C (t, a) Hc).
  - destruct T as [->|(id & a & es1 & ms & -> & _)]; cbn; lia.
  - intros a. rewrite run_app, H. cbn [run dstep].
    unfold fire, executedFunction. cbn [timers now List.find timer_id].
    rewrite Nat.eqb_refl. cbn [due].
    destruct (Nat.leb_spec (now s + wait) (now s + wait)) as [_|L]; [|lia].
    eexists. split; [reflexivity|].
    unfold later.
    cbn [calls timers timeout now args clearTimeout List.filter timer_id nextId].
    rewrite Nat.eqb_refl. cbn [negb].
    split; [reflexivity|].
    assert (F : List.filter
                  (fun t : timer A => negb (timer_id t =? nextId s))
                  (clearTimeout (timeout s) (timers s)) = []).
    { destruct T as [->|(id & a0 & es1 & ms & -> & -> & _)].
      - now destruct (timeout s).
      - cbn [clearTimeout List.filter timer_id]. rewrite Nat.eqb_refl.
        reflexivity. }
    rewrite F. reflexivity.
Qed.

End DebounceFacts.

(* ===================================================================== *)
(** * More on the matcher: what a star takes and where a search stops *)
(* ===================================================================== *)

Section MatcherMore.

Lemma chr_match_refl (ci : bool) (c : cu) : chr_match ci c c = true.
Proof. unfold chr_match. destruct ci; apply N.eqb_refl. Qed.

Lemma canon_small (c : cu) : (c < 65)%N -> canon c = c.
Proof.
  intros H. unfold canon.
  destruct (N.leb_spec 97 c); [lia|reflexivity].
Qed.

(** A character below the letters matches itself only, with or without
    the flag [i]. *)
Lemma chr_match_small (ci : bool) (p c : cu) :
  (c < 65)%N -> chr_match ci p c = true -> p = c.
Proof.
  intros H. unfold chr_match. destruct ci; intros E; apply N.eqb_eq in E;
    [|exact E].
  rewrite (canon_small c H) in E. unfold canon in E.
  destruct ((97 <=? p) && (p <=? 122))%N eqn:R; [|exact E].
  apply andb_prop in R as [R1 R2]. apply N.leb_le in R1, R2. lia.
Qed.

Lemma chr_match_small_l (ci : bool) (p c : cu) :
  (p < 65)%N -> chr_match ci p c = true -> p = c.
Proof.
  intros H. unfold chr_match. destruct ci; intros E; apply N.eqb_eq in E;
    [|exact E].
  rewrite (canon_small p H) in E. unfold canon in E.
  destruct ((97 <=? c) && (c <=? 122))%N eqn:R; [|exact E].
  apply andb_prop in R as [R1 R2]. apply N.leb_le in R1, R2. lia.
Qed.

Lemma lit_match_here (ci : bool) (p pre rest : str) :
  lit_match ci p pre (p ++ rest) = Some (rev p ++ pre, rest).
Proof.
  revert pre. induction p as [|a p IH]; intros pre; [reflexivity|].
  cbn [lit_match app]. rewrite chr_match_refl, IH. cbn [rev].
  now rewrite <- app_assoc.
Qed.

Lemma lit_match_inv (ci : bool) (p : str) :
  forall pre rest pre' rest',
    lit_match ci p pre rest = Some (pre', rest') ->
    exists x,
      rest = x ++ rest' /\ pre' = rev x ++ pre
      /\ Forall2 (fun a c => chr_match ci a c = true) p x.
Proof.
  induction p as [|a p IH]; intros pre rest pre' rest' H; cbn [lit_match] in H.
  - injection H as <- <-. exists []. now repeat split.
  - destruct rest as [|c t]; [discriminate|].
    destruct (chr_match ci a c) eqn:M; [|discriminate].
    destruct (IH _ _ _ _ H) as (x & -> & -> & F).
    exists (c :: x). cbn [app rev]. rewrite <- app_assoc.
    split; [reflexivity|]. split; [reflexivity|]. now constructor.
Qed.

(** Whether a literal matches does not depend on the text before. *)
Lemma lit_match_pre (ci : bool) (p : str) :
  forall pre pre' rest,
    lit_match ci p pre rest = None -> lit_match ci p pre' rest = None.
Proof.
  induction p as [|a p IH]; intros pre pre' rest H; [discriminate|].
  cbn [lit_match] in *. destruct rest as [|c t]; [reflexivity|].
  destruct (chr_match ci a c); [|reflexivity]. exact (IH _ _ _ H).
Qed.

(** What a greedy star took: characters that its atom matches. *)
Lemma star_greedy_inv (ci : bool) (a : atom) (cs : caps) (k : cont)
  (st : mstate) :
  forall rest pre,
    star_greedy ci a pre rest cs k = Some st ->
    exists x rest',
      rest = x ++ rest' /\ forallb (atom_match ci a) x = true
      /\ k (rev x ++ pre) rest' cs = Some st.
Proof.
  induction rest as [|c rest IH]; intros pre H; cbn [star_greedy] in H.
  - exists [], []. now repeat split.
  - destruct (atom_match ci a c) eqn:M.
    + destruct (star_greedy ci a (c :: pre) rest cs k) as [r|] eqn:G.
      * injection H as <-. destruct (IH _ G) as (x & rest' & -> & F & K).
        exists (c :: x), rest'. cbn [app rev forallb]. rewrite M, F.
        rewrite <- app_assoc. now repeat split.
      * exists [], (c :: rest). now repeat split.
    + exists [], (c :: rest). now repeat split.
Qed.

(** A greedy star takes all the characters that its atom matches when
    what follows can be matched from there. *)
Lemma star_greedy_all (ci : bool) (a : atom) (cs : caps) (k : cont)
  (r : mstate) (rest : str) :
  forall x pre,
    forallb (atom_match ci a) x = true ->
    match rest with
    | c :: _ => atom_match ci a c = false
    | [] => True
    end ->
    k (rev x ++ pre) rest cs = Some r ->
    star_greedy ci a pre (x ++ rest) cs k = Some r.
Proof.
  induction x as [|c x IH]; intros pre F Hh K.
  - cbn [app rev] in *. destruct rest as [|c t]; [exact K|].
    cbn [star_greedy]. now rewrite Hh.
  - cbn [forallb] in F. apply andb_prop in F as [M F].
    cbn [app star_greedy]. rewrite M.
    rewrite (IH (c :: pre) F Hh); [reflexivity|].
    cbn [rev] in K. now rewrite <- app_assoc in K.
Qed.

(** A lazy star stops at the first place from which what follows can be
    matched. *)
Lemma star_lazy_first (ci : bool) (a : atom) (cs : caps) (k : cont)
  (r : mstate) (rest : str) :
  forall x pre,
    forallb (atom_match ci a) x = true ->
    (forall x1 x2,
        x = x1 ++ x2 -> x2 <> [] ->
        k (rev x1 ++ pre) (x2 ++ rest) cs = None) ->
    k (rev x ++ pre) rest cs = Some r ->
    star_lazy ci a pre (x ++ rest) cs k = Some r.
Proof.
  induction x as [|c x IH]; intros pre F N K.
  - cbn [app rev] in *. destruct rest; cbn [star_lazy]; now rewrite K.
  - cbn [forallb] in F. apply andb_prop in F as [M F].
    cbn [app star_lazy].
    pose proof (N [] (c :: x) eq_refl ltac:(discriminate)) as N0.
    cbn [rev app] in N0. rewrite N0, M.
    apply IH; [exact F| |].
    + intros x1 x2 E Hx. specialize (N (c :: x1) x2).
      cbn [rev app] in N. rewrite <- app_assoc in N.
      apply N; [now rewrite E|exact Hx].
    + cbn [rev] in K. now rewrite <- app_assoc in K.
Qed.

(** A search passes the places at which the pattern does not match. *)
Lemma search_from_skip (ci : bool) (r : re) (rest : str) :
  forall x pre,
    (forall x1 x2,
        x = x1 ++ x2 -> x2 <> [] ->
        match_at ci r (rev x1 ++ pre) (x2 ++ rest) = None) ->
    search_from ci r pre (x ++ rest) = search_from ci r (rev x ++ pre) rest.
Proof.
  induction x as [|c x IH]; intros pre N; [reflexivity|].
  cbn [app search_from].
  pose proof (N [] (c :: x) eq_refl ltac:(discriminate)) as N0.
  cbn [rev app] in N0. rewrite N0.
  cbn [rev]. rewrite <- app_assoc. apply IH.
  intros x1 x2 E Hx. specialize (N (c :: x1) x2).
  cbn [rev app] in N. rewrite <- app_assoc in N.
  apply N; [now rewrite E|exact Hx].
Qed.

Lemma search_from_inv (ci : bool) (r : re) (m : rmatch) :
  forall rest pre,
    search_from ci r pre rest = Some m ->
    exists pre' rest', match_at ci r pre' rest' = Some m.
Proof.
  induction rest as [|c rest IH]; intros pre H; cbn [search_from] in H.
  - destruct (match_at ci r pre []) eqn:E; [|discriminate].
    injection H as <-. now exists pre, [].
  - destruct (match_at ci r pre (c :: rest)) eqn:E.
    + injection H as <-. now exists pre, (c :: rest).
    + exact (IH _ H).
Qed.

(** No match of the literal [p] starts in [s]: the places of [s] at
    which [p] could start, read with what follows [s]. *)
Lemma search_lit_None (ci : bool) (p : str) :
  forall s pre,
    search_from ci (Lit p) pre s = None ->
    forall a b pre', s = a ++ b -> lit_match ci p pre' b = None.
Proof.
  induction s as [|c s IH]; intros pre H a b pre' E.
  - apply eq_sym, app_eq_nil in E as [-> ->].
    cbn [search_from] in H. unfold match_at in H. cbn [mt] in H.
    destruct (lit_match ci p pre []) as [[? ?]|] eqn:L; [discriminate|].
    exact (lit_match_pre ci p _ _ _ L).
  - cbn [search_from] in H.
    destruct (match_at ci (Lit p) pre (c :: s)) eqn:M; [discriminate|].
    destruct a as [|x a].
    + cbn [app] in E. subst b. unfold match_at in M. cbn [mt] in M.
      destruct (lit_match ci p pre (c :: s)) as [[? ?]|] eqn:L;
        [discriminate|].
      exact (lit_match_pre ci p _ _ _ L).
    + injection E as <- E. exact (IH _ H a b pre' E).
Qed.

(** A literal that matches at a place of [b ++ more] matches inside [b],
    or a part of it that is not its start matches at the start of
    [more]. *)
Lemma lit_match_straddle (ci : bool) (p : str) :
  forall b pre more,
    b <> [] ->
    lit_match ci p pre (b ++ more) <> None ->
    lit_match ci p pre b <> None
    \/ exists p1 a p2 c more',
         p = p1 ++ a :: p2 /\ p1 <> [] /\ more = c :: more'
         /\ chr_match ci a c = true.
Proof.
  induction p as [|a p IH]; intros b pre more Hb H.
  - left. discriminate.
  - destruct b as [|c b]; [now destruct Hb|].
    cbn [app lit_match] in *.
    destruct (chr_match ci a c) eqn:M; [|now destruct H].
    destruct b as [|c' b].
    + cbn [app] in H. destruct p as [|a' p]; [left; discriminate|].
      right. destruct more as [|y more']; [now destruct H|].
      cbn [lit_match] in H.
      destruct (chr_match ci a' y) eqn:M'; [|now destruct H].
      exists [a], a', p, y, more'. repeat split; try reflexivity.
      * discriminate.
      * exact M'.
    + destruct (IH (c' :: b) (c :: pre) more ltac:(discriminate) H)
        as [L|(p1 & a' & p2 & y & more' & -> & N1 & -> & M')].
      * now left.
      * right. exists (a :: p1), a', p2, y, more'.
        repeat split; try reflexivity; [discriminate|exact M'].
Qed.

End MatcherMore.

(* ===================================================================== *)
(** * The extractors of the converter *)
(* ===================================================================== *)

Section ExtractorFacts.

Import Builder.

(** The value that [extractAttr] returns is the text of the group
    between the two double quotes: it holds no double quote. *)
Lemma extractAttr_no_quote (attrStr name : str) :
  ~ In dquote (extractAttr attrStr name).
Proof.
  unfold extractAttr.
  destruct (rx_match true (attrRegex name) attrStr) as [m|] eqn:E;
    [|intros []].
  unfold rx_match in E. apply search_from_inv in E as (pre & rest & M).
  unfold match_at in M.
  destruct (mt true (attrRegex name) pre rest [] _) as [st|] eqn:T;
    [|discriminate].
  injection M as <-. unfold attrRegex in T. cbn [seqs mt] in T.
  destruct (lit_match true name pre rest) as [[p1 r1]|]; [|discriminate].
  apply star_greedy_inv in T as (x1 & r2 & _ & _ & T).
  destruct r2 as [|c2 r2]; [discriminate|].
  destruct (atom_match true (chr "=") c2); [|discriminate].
  apply star_greedy_inv in T as (x2 & r3 & _ & _ & T).
  destruct r3 as [|c3 r3]; [discriminate|].
  destruct (atom_match true (AChr dquote) c3); [|discriminate].
  apply star_greedy_inv in T as (x & r4 & _ & F & T).
  destruct r4 as [|c4 r4]; [discriminate|].
  destruct (atom_match true (AChr dquote) c4); [|discriminate].
  injection T as <-. unfold m_group, cap_get.
  cbn [m_caps st_caps List.find fst Nat.eqb snd default].
  change (S (length (rev x2 ++ c2 :: rev x1 ++ p1)))
    with (length (c3 :: rev x2 ++ c2 :: rev x1 ++ p1)).
  rewrite consumed_app, rev_involutive.
  intros H. rewrite forallb_forall in F. specialize (F _ H).
  discriminate.
Qed.

Lemma replace_lit_chars (p t : str) (c : cu) :
  forall s skip, In c (replace_lit p t s skip) -> In c t \/ In c s.
Proof.
  induction s as [|x s IH]; intros skip H.
  - destruct skip; destruct H.
  - destruct skip as [|n]; cbn [replace_lit] in H.
    + destruct (startsWith p (x :: s)).
      * apply in_app_or in H as [H|H]; [now left|].
        destruct (IH _ H); [now left|right; now right].
      * destruct H as [<-|H]; [right; now left|].
        destruct (IH _ H); [now left|right; now right].
    + destruct (IH _ H); [now left|right; now right].
Qed.

(** X10.  The texts that the converter reads off the attributes of a
    rule hold no double quote: the name, [since], the message, the
    class, the address of the documentation (after the base address is
    filled in) and the two language versions of every record. *)
Theorem X10_attribute_texts_hold_no_quote (xml category : str) (r : rule) :
  In r (parseXmlFile xml category) ->
  ~ In dquote (name r)
  /\ ~ In dquote (since r)
  /\ ~ In dquote (message r)
  /\ ~ In dquote (ruleClass r)
  /\ ~ In dquote (externalInfoUrl r)
  /\ (forall v, maxLanguageVersion r = Some v -> ~ In dquote v)
  /\ (forall v, minLanguageVersion r = Some v -> ~ In dquote v).
Proof.
  intros H. apply parseXmlFile_In in H as (m & _ & H).
  apply ruleOfMatch_inv in H as (_ & _ & ->).
  cbn [name since message ruleClass externalInfoUrl maxLanguageVersion
       minLanguageVersion].
  repeat split; try apply extractAttr_no_quote.
  - intros H. apply replace_lit_chars in H as [H|H].
    + revert H. vm_compute. intuition discriminate.
    + exact (extractAttr_no_quote _ _ H).
  - intros v E. unfold nonEmpty in E.
    destruct (extractAttr (attrsOf m) (lit "maximumLanguageVersion")) eqn:A;
      [discriminate|].
    injection E as <-. rewrite <- A. apply extractAttr_no_quote.
  - intros v E. unfold nonEmpty in E.
    destruct (extractAttr (attrsOf m) (lit "minimumLanguageVersion")) eqn:A;
      [discriminate|].
    injection E as <-. rewrite <- A. apply extractAttr_no_quote.
Qed.

Lemma extractExamples_spec (xml : str) :
  Forall (fun ex => ex <> [] /\ trim ex = ex) (extractExamples xml).
Proof.
  unfold extractExamples. apply List.Forall_forall. intros ex H.
  apply filter_In in H as [H N]. split.
  - intros ->. discriminate.
  - apply in_map_iff in H as (m & <- & _). apply trim_idempotent.
Qed.

Lemma extractProperties_names (xml : str) (p : property) :
  In p (extractProperties xml) ->
  prop_name p <> lit "xpath" /\ prop_name p <> lit "version".
Proof.
  unfold extractProperties. intros H.
  apply list_elem_of_In, list_elem_of_omap in H as (m & _ & H).
  unfold propertyOfMatch in H.
  destruct (str_eqb (default [] (m_group m 1)) (lit "xpath")
            || str_eqb (default [] (m_group m 1)) (lit "version")) eqn:E;
    [discriminate|].
  injection H as <-. cbn [prop_name].
  apply orb_false_elim in E as [E1 E2]. unfold str_eqb in *.
  split; intros E; rewrite E in *; discriminate.
Qed.

(** X11.  In every record of the converter the examples are texts that
    are not empty and are trimmed, a key [properties],
    [maxLanguageVersion] or [minLanguageVersion] that is present holds a
    value that is not empty, and no property is named [xpath] or
    [version]. *)
Theorem X11_record_values (xml category : str) (r : rule) :
  In r (parseXmlFile xml category) ->
  Forall (fun ex => ex <> [] /\ trim ex = ex) (examples r)
  /\ (forall v,
        get_field (rule_json r) (lit "properties") = Some v ->
        exists p ps,
          properties r = Some (p :: ps)
          /\ v = JArr (List.map property_json (p :: ps))
          /\ Forall (fun q => prop_name q <> lit "xpath"
                              /\ prop_name q <> lit "version") (p :: ps))
  /\ (forall v,
        get_field (rule_json r) (lit "maxLanguageVersion") = Some v ->
        exists c s, v = JStr (c :: s))
  /\ (forall v,
        get_field (rule_json r) (lit "minLanguageVersion") = Some v ->
        exists c s, v = JStr (c :: s)).
Proof.
  intros H. destruct (get_optional r) as (G1 & G2 & G3).
  rewrite G1, G2, G3. clear G1 G2 G3.
  apply parseXmlFile_In in H as (m & _ & H).
  apply ruleOfMatch_inv in H as (_ & _ & ->).
  cbn [examples properties maxLanguageVersion minLanguageVersion].
  split; [apply extractExamples_spec|]. split; [|split].
  - intros v E.
    destruct (extractProperties (bodyOf m)) as [|p ps] eqn:P;
      [discriminate|].
    injection E as <-. exists p, ps. split; [reflexivity|].
    split; [reflexivity|].
    apply List.Forall_forall. intros q Hq.
    apply (extractProperties_names (bodyOf m)). now rewrite P.
  - intros v E. unfold nonEmpty in E.
    destruct (extractAttr _ _) as [|c s]; [discriminate|].
    injection E as <-. now exists c, s.
  - intros v E. unfold nonEmpty in E.
    destruct (extractAttr _ _) as [|c s]; [discriminate|].
    injection E as <-. now exists c, s.
Qed.

End ExtractorFacts.

(* ===================================================================== *)
(** * Replacing a literal: [stripCdata] and the base address *)
(* ===================================================================== *)

Section ReplaceFacts.

Import Builder.

Lemma startsWith_app (p u : str) : startsWith p (p ++ u) = true.
Proof. apply startsWith_spec. now exists u. Qed.

(** A text that holds no [p] has no place at which [p] starts. *)
Lemma includes_false (s p : str) :
  includes s p = false ->
  forall a b, s = a ++ b -> startsWith p b = false.
Proof.
  intros H a b E. destruct (startsWith p b) eqn:S; [|reflexivity].
  apply startsWith_spec in S as (z & ->).
  assert (I : includes s p = true)
    by (apply includes_spec; now exists a, z).
  congruence.
Qed.

(** [p] starts at the head of [b ++ m]: inside [b], or a first part of
    [p] is [b] and the rest starts [m]. *)
Lemma startsWith_app_inv (p : str) :
  forall b m,
    startsWith p (b ++ m) = true ->
    startsWith p b = true
    \/ exists p2, p = b ++ p2 /\ p2 <> [] /\ startsWith p2 m = true.
Proof.
  induction p as [|a p IH]; intros b m H; [now left|].
  destruct b as [|c b].
  - right. exists (a :: p). repeat split; [discriminate|exact H].
  - cbn [app startsWith] in *. apply andb_prop in H as [E H].
    apply N.eqb_eq in E. subst c.
    destruct (IH b m H) as [S|(p2 & -> & N2 & S)].
    + left. now rewrite N.eqb_refl.
    + right. exists p2. now repeat split.
Qed.

Lemma replace_lit_skip (p t u : str) :
  forall x, replace_lit p t (x ++ u) (length x) = replace_lit p t u 0.
Proof. induction x as [|c x IH]; [reflexivity|exact IH]. Qed.

(** The places at which [p] does not start are copied. *)
Lemma replace_lit_pass (p t u : str) :
  forall x,
    (forall a b, x = a ++ b -> b <> [] -> startsWith p (b ++ u) = false) ->
    replace_lit p t (x ++ u) 0 = x ++ replace_lit p t u 0.
Proof.
  induction x as [|c x IH]; intros N; [reflexivity|].
  cbn [app replace_lit].
  pose proof (N [] (c :: x) eq_refl ltac:(discriminate)) as N0.
  cbn [app] in N0. rewrite N0. f_equal. apply IH.
  intros a b E Hb. apply (N (c :: a) b); [now rewrite E|exact Hb].
Qed.

(** A place at which [p] starts gives the replacement text. *)
Lemma replace_lit_hit (p t u : str) :
  p <> [] -> replace_lit p t (p ++ u) 0 = t ++ replace_lit p t u 0.
Proof.
  destruct p as [|c p]; [congruence|]. intros _.
  cbn [app replace_lit].
  change (c :: p ++ u) with ((c :: p) ++ u). rewrite startsWith_app.
  f_equal. replace (length (c :: p) - 1) with (length p)
    by (cbn [length]; lia).
  apply replace_lit_skip.
Qed.

Lemma replace_all_none (p t s : str) :
  includes s p = false -> replace_all p t s = s.
Proof.
  intros H. unfold replace_all.
  rewrite <- (app_nil_r s) at 1. rewrite replace_lit_pass.
  - cbn [replace_lit]. apply app_nil_r.
  - intros a b E _. rewrite app_nil_r.
    exact (includes_false s p H a b E).
Qed.

(** X12.  [stripCdata] returns a text without the two marks of a CDATA
    section as it is, and returns the content of a CDATA section whose
    content holds neither mark. *)
Theorem X12_stripCdata (t : str) :
  includes t (lit "<![CDATA[") = false ->
  includes t (lit "]]>") = false ->
  stripCdata t = t
  /\ stripCdata (lit "<![CDATA[" ++ t ++ lit "]]>") = t.
Proof.
  intros H1 H2. unfold stripCdata. split.
  - now rewrite (replace_all_none _ _ t H1), (replace_all_none _ _ t H2).
  - unfold replace_all at 2.
    rewrite replace_lit_hit by discriminate. cbn [app].
    rewrite replace_lit_pass.
    + change (replace_lit (lit "<![CDATA[") [] (lit "]]>") 0)
        with (lit "]]>").
      unfold replace_all. rewrite replace_lit_pass.
      * change (replace_lit (lit "]]>") [] (lit "]]>") 0) with (@nil cu).
        apply app_nil_r.
      * intros a b E Hb.
        destruct (startsWith (lit "]]>") (b ++ lit "]]>")) eqn:S;
          [|reflexivity].
        apply startsWith_app_inv in S as [S|(p2 & E2 & N2 & S)].
        -- rewrite (includes_false t _ H2 a b E) in S. discriminate.
        -- destruct b as [|b1 [|b2 [|b3 b]]]; [now destruct Hb| | |];
             injection E2 as <-; intros; subst; try discriminate.
           destruct b; [now destruct N2|discriminate].
    + intros a b E Hb.
      destruct (startsWith (lit "<![CDATA[") (b ++ lit "]]>")) eqn:S;
        [|reflexivity].
      apply startsWith_app_inv in S as [S|(p2 & E2 & N2 & S)].
      * rewrite (includes_false t _ H1 a b E) in S. discriminate.
      * destruct p2 as [|c p2]; [now destruct N2|].
        cbn [startsWith] in S. change (lit "]]>") with [93; 93; 62]%N in S.
        apply andb_prop in S as [S _]. apply N.eqb_eq in S. subst c.
        assert (I : In 93%N (lit "<![CDATA["))
          by (rewrite E2; apply in_or_app; right; now left).
        revert I. vm_compute. intuition discriminate.
Qed.

(** X13.  The records of a file stand one to one, in order, for the
    blocks at which the loop emits a record, and the address of the
    documentation of each record is the value of the attribute
    [externalInfoUrl] of its own block with the placeholder of the base
    address replaced: a value made of the placeholder and a path gives
    the base address of the PMD site followed by the path, and a value
    without a dollar sign is kept as it is. *)
Theorem X13_base_address (xml category : str) :
  Forall2
    (fun m r =>
       In m (exec_all false ruleRegex xml)
       /\ ruleOfMatch category (rulesetNameOf xml category) m = Some r
       /\ name r = extractAttr (attrsOf m) (lit "name")
       /\ (~ In 36%N (extractAttr (attrsOf m) (lit "externalInfoUrl")) ->
           externalInfoUrl r
           = extractAttr (attrsOf m) (lit "externalInfoUrl"))
       /\ (forall path,
             extractAttr (attrsOf m) (lit "externalInfoUrl")
             = lit "${pmd.website.baseurl}" ++ path ->
             ~ In 36%N path ->
             externalInfoUrl r
             = lit "https://docs.pmd-code.org/latest" ++ path))
    (ruleBlocks xml category) (parseXmlFile xml category).
Proof.
  eapply Forall2_impl; [apply parseXmlFile_blocks|].
  intros m r (Hm & H). split; [exact Hm|]. split; [exact H|].
  apply ruleOfMatch_inv in H as (_ & _ & ->). cbn [externalInfoUrl name].
  split; [reflexivity|].
  assert (D : forall s, ~ In 36%N s ->
              includes s (lit "${pmd.website.baseurl}") = false).
  { intros s Hs.
    destruct (includes s (lit "${pmd.website.baseurl}")) eqn:I;
      [|reflexivity].
    apply includes_spec in I as (a & b & ->). destruct Hs.
    apply in_or_app. right. now left. }
  split.
  - intros Hs. apply replace_all_none. now apply D.
  - intros path -> Hp. unfold replace_all.
    rewrite replace_lit_hit by discriminate. f_equal.
    now apply replace_all_none, D.
Qed.

End ReplaceFacts.

(* ===================================================================== *)
(** * The first element and the attribute of a name *)
(* ===================================================================== *)

Section ElementFacts.

Import Builder.

Lemma consumed_app_two (x y pre : str) :
  consumed (length (y ++ pre)) (x ++ y ++ pre) = rev x.
Proof. apply consumed_app. Qed.

Lemma any_all (ci : bool) (x : str) : forallb (atom_match ci AAny) x = true.
Proof. induction x; [reflexivity|exact IHx]. Qed.

Lemma not_all (ci : bool) (c : cu) (x : str) :
  (c < 65)%N -> ~ In c x -> forallb (atom_match ci (ANot c)) x = true.
Proof.
  intros Hc H. apply forallb_forall. intros y Hy. cbn [atom_match].
  destruct (chr_match ci c y) eqn:M; [|reflexivity].
  apply (chr_match_small_l ci c y Hc) in M. now subst y.
Qed.

(** The literal [p] does not occur in [s], with the flag [i], and no
    part of [p] after its start matches the character [c] that follows
    [s]: then [p] matches at no place of [s], read with what follows. *)
Lemma lit_nowhere (p s : str) (c : cu) (more : str) :
  rx_test true (Lit p) s = false ->
  (c < 65)%N ->
  (forall p1 p2, p = p1 ++ c :: p2 -> p1 = []) ->
  forall a b pre,
    s = a ++ b -> b <> [] ->
    lit_match true p pre (b ++ c :: more) = None.
Proof.
  intros T Hc Hp a b pre E Hb.
  unfold rx_test, rx_match in T.
  destruct (search_from true (Lit p) [] s) eqn:S; [discriminate|].
  destruct (lit_match true p pre (b ++ c :: more)) as [[? ?]|] eqn:L;
    [|reflexivity].
  destruct (lit_match_straddle true p b pre (c :: more) Hb)
    as [N|(p1 & x & p2 & y & more' & Ep & N1 & Em & M)].
  - now rewrite L.
  - destruct N. exact (search_lit_None true p s [] S a b pre E).
  - injection Em as <- <-.
    apply (chr_match_small true x c Hc) in M. subst x.
    destruct N1. exact (Hp p1 p2 Ep).
Qed.

Lemma open_tag_parts (tag p1 p2 : str) :
  ~ In 60%N tag -> lit "<" ++ tag = p1 ++ 60%N :: p2 -> p1 = [].
Proof.
  intros Ht E. destruct p1 as [|x p1]; [reflexivity|].
  cbn [app] in E. change (lit "<") with [60%N] in E.
  injection E as <- E. destruct Ht.
  refine (eq_ind_r (fun l => In 60%N l) _ E).
  apply in_or_app. right. now left.
Qed.

Lemma close_tag_parts (tag p1 p2 : str) :
  ~ In 60%N tag -> lit "</" ++ tag ++ lit ">" = p1 ++ 60%N :: p2 -> p1 = [].
Proof.
  intros Ht E. destruct p1 as [|x p1]; [reflexivity|].
  change (lit "</") with [60; 47]%N in E. cbn [app] in E.
  injection E as <- E. exfalso.
  assert (I : In 60%N (47%N :: tag ++ lit ">"))
    by (refine (eq_ind_r (fun l => In 60%N l) _ E);
        apply in_or_app; right; now left).
  destruct I as [I|I]; [discriminate|].
  apply in_app_or in I as [I|I]; [now destruct Ht|].
  revert I. vm_compute. intuition discriminate.
Qed.

Lemma word_no_lt (tag : str) : forallb isWord tag = true -> ~ In 60%N tag.
Proof.
  intros H I. rewrite forallb_forall in H. specialize (H _ I).
  vm_compute in H. discriminate H.
Qed.

(** X14.  [extractFirstElement] returns the content of the first
    element of the tag, with the marks of CDATA removed and trimmed: for
    a tag made of ASCII letters, digits and underscores and a text in
    which the tag does not open before the element (in any case of the
    letters), whose attributes hold no [>] and whose content does not
    hold the closing tag, whatever comes after the element. *)
Theorem X14_first_element (tag before attrs content after : str) :
  forallb isWord tag = true ->
  rx_test true (Lit (lit "<" ++ tag)) before = false ->
  ~ In 62%N attrs ->
  rx_test true (Lit (lit "</" ++ tag ++ lit ">")) content = false ->
  extractFirstElement
    (before ++ (lit "<" ++ tag) ++ attrs ++ lit ">" ++ content
       ++ (lit "</" ++ tag ++ lit ">") ++ after)
    tag
  = trim (stripCdata content).
Proof.
  intros Ht%word_no_lt Hb Ha Hc. unfold extractFirstElement, rx_match.
  set (closing := lit "</" ++ tag ++ lit ">") in *.
  rewrite search_from_skip.
  - assert (M : exists m,
               match_at true (elementRegex tag) (rev before ++ [])
                 ((lit "<" ++ tag) ++ attrs ++ lit ">" ++ content
                    ++ closing ++ after)
               = Some m
               /\ m_group m 1 = Some content).
    { unfold match_at, elementRegex. fold closing. cbn [seqs mt].
      rewrite lit_match_here.
      change (notchr ">") with (ANot 62%N).
      change (chr ">") with (AChr 62%N).
      erewrite star_greedy_all; cycle 1.
      - apply not_all; [lia|exact Ha].
      - reflexivity.
      - change (lit ">" ++ content ++ closing ++ after)
          with (62%N :: content ++ closing ++ after).
        cbn [atom_match]. rewrite chr_match_refl.
        erewrite star_lazy_first; [reflexivity|apply any_all| |].
        + intros x1 x2 E Hx. cbn beta.
          change (closing ++ after)
            with (60%N :: (47%N :: tag ++ lit ">") ++ after).
          erewrite (lit_nowhere closing content 60%N _ Hc ltac:(lia)
                      (fun p1 p2 => close_tag_parts tag p1 p2 Ht) x1 x2 _ E Hx).
          reflexivity.
        + cbn beta. rewrite lit_match_here.
          change (62%N :: rev attrs ++ rev (lit "<" ++ tag) ++ rev before ++ [])
            with ([62%N] ++ rev attrs ++ rev (lit "<" ++ tag) ++ rev before ++ []).
          rewrite consumed_app_two, rev_involutive. reflexivity.
      - eexists. split; [reflexivity|].
        unfold m_group, cap_get.
        cbn [m_caps st_caps List.find fst Nat.eqb snd]. reflexivity. }
    destruct M as (m & M & G).
    rewrite (search_from_here _ _ _ _ m M), G. reflexivity.
  - intros x1 x2 E Hx. unfold match_at, elementRegex. cbn [seqs mt].
    change ((lit "<" ++ tag) ++ attrs ++ lit ">" ++ content ++ closing
              ++ after)
      with (60%N :: tag ++ attrs ++ lit ">" ++ content ++ closing ++ after).
    erewrite (lit_nowhere (lit "<" ++ tag) before 60%N _ Hb ltac:(lia)
                (fun p1 p2 => open_tag_parts tag p1 p2 Ht) x1 x2 _ E Hx).
    reflexivity.
Qed.

End ElementFacts.

Section AttributeFacts.

Import Builder.

Lemma space_not_letter (w : cu) :
  isSpace w = true ->
  ~ (65 <= w <= 90)%N /\ ~ (97 <= w <= 122)%N.
Proof.
  unfold isSpace. rewrite !orb_true_iff, !andb_true_iff, !N.leb_le, !N.eqb_eq.
  lia.
Qed.

(** A white space character matches itself only, with or without the
    flag [i]. *)
Lemma chr_match_space (ci : bool) (a w : cu) :
  isSpace w = true -> chr_match ci a w = true -> a = w.
Proof.
  intros Hw. destruct (space_not_letter w Hw) as (U & L).
  unfold chr_match. destruct ci; intros E; apply N.eqb_eq in E; [|exact E].
  unfold canon in E.
  destruct (N.leb_spec 97 w), (N.leb_spec w 122); cbn [andb] in E;
    try lia;
    destruct (N.leb_spec 97 a), (N.leb_spec a 122); cbn [andb] in E; lia.
Qed.

(** A literal that matches at the head of [b ++ more] matches inside
    [b], or a first part of it matches the whole of [b]. *)
Lemma lit_match_covers (ci : bool) (p : str) :
  forall b pre more,
    lit_match ci p pre (b ++ more) <> None ->
    lit_match ci p pre b <> None
    \/ exists p1 p2,
         p = p1 ++ p2 /\ p2 <> []
         /\ Forall2 (fun a c => chr_match ci a c = true) p1 b.
Proof.
  induction p as [|a p IH]; intros b pre more H; [left; discriminate|].
  destruct b as [|c b].
  - right. exists [], (a :: p). repeat split; [discriminate|constructor].
  - cbn [app lit_match] in *.
    destruct (chr_match ci a c) eqn:M; [|now destruct H].
    destruct (IH b (c :: pre) more H) as [L|(p1 & p2 & -> & N2 & F)].
    + now left.
    + right. exists (a :: p1), p2. repeat split; [exact N2|].
      now constructor.
Qed.

Lemma Forall2_last (p b : str) (w : cu) (R : cu -> cu -> Prop) :
  Forall2 R p (b ++ [w]) -> exists a, In a p /\ R a w.
Proof.
  revert p. induction b as [|c b IH]; intros p F.
  - inversion F as [|a ? p' ? Ra F']; subst. exists a. split; [now left|exact Ra].
  - inversion F as [|a ? p' ? _ F']; subst.
    destruct (IH p' F') as (x & Hx & Rx). exists x. split; [now right|exact Rx].
Qed.

(** The name of an attribute matches at no place of what comes before
    it. *)
Lemma name_nowhere (name pre more : str) :
  forallb (fun c => negb (isSpace c)) name = true ->
  (pre = [] \/ exists pre' w, pre = pre' ++ [w] /\ isSpace w = true) ->
  rx_test true (Lit name) pre = false ->
  forall a b p,
    pre = a ++ b -> b <> [] -> lit_match true name p (b ++ more) = None.
Proof.
  intros Hn He T a b p E Hb.
  unfold rx_test, rx_match in T.
  destruct (search_from true (Lit name) [] pre) eqn:S; [discriminate|].
  destruct (lit_match true name p (b ++ more)) as [[? ?]|] eqn:L;
    [|reflexivity].
  exfalso.
  destruct (lit_match_covers true name b p more) as [N|(p1 & p2 & -> & N2 & F)].
  - now rewrite L.
  - destruct N. exact (search_lit_None true name pre [] S a b p E).
  - destruct He as [->|(pre' & w & -> & Hw)].
    + apply eq_sym, app_eq_nil in E as [_ ->]. now destruct Hb.
    + destruct (@exists_last _ b Hb) as (b' & w' & ->).
      rewrite app_assoc in E. apply app_inj_tail in E as [_ <-].
      destruct (Forall2_last p1 b' w _ F) as (x & Hx & Mx).
      apply (chr_match_space true x w Hw) in Mx. subst x.
      rewrite forallb_forall in Hn.
      specialize (Hn w (in_or_app _ _ _ (or_introl Hx))).
      rewrite Hw in Hn. discriminate.
Qed.

Lemma word_no_space (name : str) :
  forallb isWord name = true ->
  forallb (fun c => negb (isSpace c)) name = true.
Proof.
  intros H. apply forallb_forall. intros c Hc.
  rewrite forallb_forall in H. specialize (H c Hc).
  destruct (isSpace c) eqn:S; [|reflexivity].
  destruct (space_not_letter c S) as (U & L).
  unfold isWord in H. unfold isSpace in S.
  rewrite ?orb_true_iff, ?andb_true_iff, ?N.leb_le, ?N.eqb_eq in H.
  rewrite ?orb_true_iff, ?andb_true_iff, ?N.leb_le, ?N.eqb_eq in S.
  lia.
Qed.

(** X15.  [extractAttr] returns the value of the attribute of the given
    name: for a name made of ASCII letters, digits and underscores and
    an attribute string in which the name stands at the start or after
    white space and occurs nowhere before (in any case of the letters),
    followed by an equals sign with or without white space around it and
    a value between double quotes, whatever comes after. *)
Theorem X15_attribute_value (name pre ws1 ws2 v post : str) :
  forallb isWord name = true ->
  (pre = [] \/ exists pre' w, pre = pre' ++ [w] /\ isSpace w = true) ->
  rx_test true (Lit name) pre = false ->
  forallb isSpace ws1 = true -> forallb isSpace ws2 = true ->
  ~ In dquote v ->
  extractAttr
    (pre ++ name ++ ws1 ++ lit "=" ++ ws2 ++ dquote :: v ++ dquote :: post)
    name
  = v.
Proof.
  intros Hn%word_no_space He T H1 H2 Hv. unfold extractAttr, rx_match.
  rewrite search_from_skip.
  - assert (M : exists m,
               match_at true (attrRegex name) (rev pre ++ [])
                 (name ++ ws1 ++ lit "=" ++ ws2 ++ dquote :: v
                    ++ dquote :: post)
               = Some m
               /\ m_group m 1 = Some v).
    { unfold match_at, attrRegex. cbn [seqs mt].
      rewrite lit_match_here.
      change (chr "=") with (AChr 61%N). change (lit "=") with [61%N].
      erewrite star_greedy_all; cycle 1.
      - exact H1.
      - reflexivity.
      - cbn [app atom_match]. rewrite chr_match_refl.
        erewrite star_greedy_all; cycle 1.
        + exact H2.
        + reflexivity.
        + cbn [atom_match]. rewrite chr_match_refl.
          erewrite star_greedy_all; cycle 1.
          * apply not_all; [reflexivity|exact Hv].
          * cbn [atom_match]. now rewrite chr_match_refl.
          * cbn [atom_match]. rewrite chr_match_refl.
            match goal with
            | |- context [consumed (length ?p) (rev v ++ ?p)] =>
                rewrite (consumed_app (rev v) p)
            end.
            rewrite rev_involutive. reflexivity.
          * reflexivity.
        + reflexivity.
      - eexists. split; [reflexivity|].
        unfold m_group, cap_get.
        cbn [m_caps st_caps List.find fst Nat.eqb snd]. reflexivity. }
    destruct M as (m & M & G).
    rewrite (search_from_here _ _ _ _ m M), G. reflexivity.
  - intros x1 x2 E Hx. unfold match_at, attrRegex. cbn [seqs mt].
    erewrite (name_nowhere name pre _ Hn He T x1 x2 _ E Hx).
    reflexivity.
Qed.

End AttributeFacts.

Section InlineCodeFacts.

Import Detail.

Lemma replace_scan_skip (r : re) (f : rmatch -> str) (rest : str) :
  forall x pre,
    replace_scan r f pre (x ++ rest) (length x)
    = replace_scan r f (rev x ++ pre) rest 0.
Proof.
  induction x as [|c x IH]; intros pre; [reflexivity|].
  cbn [app length replace_scan rev]. rewrite <- app_assoc. apply IH.
Qed.

(** The places at which the pattern does not match are copied. *)
Lemma replace_scan_pass (r : re) (f : rmatch -> str) (rest : str) :
  forall x pre,
    (forall a b,
        x = a ++ b -> b <> [] ->
        match_at false r (rev a ++ pre) (b ++ rest) = None) ->
    replace_scan r f pre (x ++ rest) 0
    = x ++ replace_scan r f (rev x ++ pre) rest 0.
Proof.
  induction x as [|c x IH]; intros pre N; [reflexivity|].
  cbn [app replace_scan].
  pose proof (N [] (c :: x) eq_refl ltac:(discriminate)) as N0.
  cbn [rev app] in N0. rewrite N0. f_equal.
  cbn [rev]. rewrite <- app_assoc. apply IH.
  intros a b E Hb. specialize (N (c :: a) b).
  cbn [rev app] in N. rewrite <- app_assoc in N.
  apply N; [now rewrite E|exact Hb].
Qed.

(** A split at no place gives the text as its only piece. *)
Lemma split_scan_none (r : re) :
  forall x pre piece,
    (forall a b,
        x = a ++ b -> b <> [] ->
        match_at false r (rev a ++ pre) b = None) ->
    split_scan r pre x 0 piece = [rev piece ++ x].
Proof.
  induction x as [|c x IH]; intros pre piece N.
  - cbn [split_scan]. now rewrite app_nil_r.
  - cbn [split_scan].
    pose proof (N [] (c :: x) eq_refl ltac:(discriminate)) as N0.
    cbn [rev app] in N0. rewrite N0.
    rewrite IH.
    + cbn [rev]. now rewrite <- app_assoc.
    + intros a b E Hb. specialize (N (c :: a) b).
      cbn [rev app] in N. rewrite <- app_assoc in N.
      apply N; [now rewrite E|exact Hb].
Qed.

Lemma consumed_eq (x pre pre' : str) :
  pre' = x ++ pre -> consumed (length pre) pre' = rev x.
Proof. intros ->. apply consumed_app. Qed.

Lemma break_needs_two (pre rest : str) :
  startsWith [10; 10]%N rest = false ->
  match_at false paragraphBreak pre rest = None.
Proof.
  intros H. destruct rest as [|c rest]; [reflexivity|].
  destruct (N.eqb_spec 10 c) as [<-|Hc].
  - unfold match_at, paragraphBreak, Plus. cbn [mt lit_match chr_match].
    rewrite N.eqb_refl. destruct rest as [|d rest]; [reflexivity|].
    cbn [atom_match chr_match]. cbn [startsWith] in H.
    rewrite N.eqb_refl in H. cbn [andb] in H.
    rewrite andb_true_r in H. now rewrite H.
  - apply break_needs_newline. congruence.
Qed.

Lemma inline_needs_tick (c : cu) (pre rest : str) :
  c <> 96%N -> match_at false inlineCode pre (c :: rest) = None.
Proof.
  intros H. unfold match_at, inlineCode. cbn [Builder.seqs mt atom_match].
  unfold chr_match. destruct (N.eqb_spec 96 c) as [E|_]; [congruence|].
  reflexivity.
Qed.

Lemma no_tick_all (x : str) :
  ~ In 96%N x -> forallb (atom_match false (ANot 96%N)) x = true.
Proof.
  intros H. apply forallb_forall. intros y Hy. cbn [atom_match chr_match].
  destruct (N.eqb_spec 96 y) as [<-|_]; [now destruct H|reflexivity].
Qed.

(** A code span: a backquote, a text without backquote that is not
    empty, a backquote. *)
Lemma inline_match (code y pre : str) :
  ~ In 96%N code -> code <> [] ->
  exists m,
    match_at false inlineCode pre (96%N :: code ++ 96%N :: y) = Some m
    /\ m_0 m = 96%N :: code ++ [96%N]
    /\ m_group m 1 = Some code.
Proof.
  intros Hc Hn. destruct code as [|c code]; [now destruct Hn|].
  unfold match_at, inlineCode, Plus.
  cbn [Builder.seqs mt app atom_match chr_match].
  rewrite N.eqb_refl.
  assert (C : c <> 96%N) by (intros ->; apply Hc; now left).
  destruct (N.eqb_spec 96 c) as [E|_]; [congruence|]. cbn [negb].
  erewrite star_greedy_all; cycle 1.
  - apply no_tick_all. intros H. apply Hc. now right.
  - cbn [atom_match chr_match]. now rewrite N.eqb_refl.
  - cbn [atom_match chr_match]. rewrite N.eqb_refl. reflexivity.
  - eexists. split; [reflexivity|].
    cbn [m_0 st_pre st_caps m_caps]. split.
    + rewrite (consumed_eq (96%N :: rev code ++ [c; 96%N]) pre)
        by (cbn [app]; now rewrite <- app_assoc).
      cbn [rev]. rewrite rev_app_distr. cbn [rev app].
      now rewrite rev_involutive.
    + unfold m_group, cap_get.
      cbn [m_caps List.find fst Nat.eqb snd]. f_equal.
      rewrite (consumed_eq (rev code ++ [c]) (96%N :: pre))
        by (now rewrite <- app_assoc).
      rewrite rev_app_distr. cbn [rev app]. now rewrite rev_involutive.
Qed.

Lemma no_tick_nowhere (x rest pre : str) :
  ~ In 96%N x ->
  forall a b,
    x = a ++ b -> b <> [] ->
    match_at false inlineCode (rev a ++ pre) (b ++ rest) = None.
Proof.
  intros H a b E Hb. destruct b as [|c b]; [now destruct Hb|].
  apply inline_needs_tick. intros ->. apply H. rewrite E.
  apply in_or_app. right. now left.
Qed.

Lemma replace_no_tick (y pre : str) :
  ~ In 96%N y -> replace_scan inlineCode codeTag pre y 0 = y.
Proof.
  intros H. rewrite <- (app_nil_r y) at 1.
  rewrite replace_scan_pass by (apply no_tick_nowhere; exact H).
  cbn [replace_scan]. apply app_nil_r.
Qed.

(** X20.  A description of one paragraph without markup and with one
    code span is shown as one paragraph in which the span stands
    between the tags of [code]: for a trimmed text without an empty
    line, without the tags that mark a description as HTML, and with
    two backquotes around a text that is not empty. *)
Theorem X20_paragraph_with_code (x code y : str) :
  let text := x ++ 96%N :: code ++ 96%N :: y in
  trim text = text ->
  includes text [10; 10]%N = false ->
  includes text (lit "<p>") || includes text (lit "<ul>")
  || includes text (lit "<h") = false ->
  ~ In 96%N x -> ~ In 96%N code -> code <> [] -> ~ In 96%N y ->
  Detail.formatDescription text
  = lit "<p>" ++ x ++ lit "<code>" ++ code ++ lit "</code>" ++ y
      ++ lit "</p>".
Proof.
  intros text Ht Hb Hm Hx Hc Hn Hy. unfold formatDescription.
  destruct text as [|t0 text'] eqn:Et.
  { subst text. now destruct x. }
  rewrite Hm. rewrite <- Et in *. clear Et t0 text'.
  unfold split. rewrite split_scan_none.
  - cbn [rev app List.map List.filter]. unfold paragraph. rewrite Ht.
    assert (Q : replace_global inlineCode codeTag text
                = x ++ lit "<code>" ++ code ++ lit "</code>" ++ y).
    { unfold replace_global. subst text.
      rewrite replace_scan_pass by (apply no_tick_nowhere; exact Hx).
      f_equal. cbn [replace_scan].
      destruct (inline_match code y (rev x ++ []) Hc Hn) as (m & -> & M0 & G).
      unfold codeTag at 1. rewrite G, M0. cbn [default length]. unfold id.
      rewrite length_app. cbn [length].
      replace (S (length code + 1) - 1) with (length (code ++ [96%N]))
        by (rewrite length_app; cbn [length]; lia).
      replace (code ++ 96%N :: y) with ((code ++ [96%N]) ++ y)
        by (now rewrite <- app_assoc).
      rewrite replace_scan_skip, replace_no_tick by exact Hy.
      now rewrite <- !app_assoc. }
    destruct text as [|t0 text'] eqn:Et; [subst text; now destruct x|].
    rewrite Q. cbn [negb]. rewrite <- !app_assoc. reflexivity.
  - intros a b E _. apply break_needs_two.
    destruct (startsWith [10; 10]%N b) eqn:S; [|reflexivity].
    rewrite (includes_false text _ Hb a b E) in S. discriminate.
Qed.

End InlineCodeFacts.

(* ===================================================================== *)
(** * The annotator: when it succeeds, what the table is read for, and
      the converter followed by the annotator *)
(* ===================================================================== *)

Section AnnotatorMore.

Import Annotator.

Lemma missing_nil (T : gmap str tierInfo) (rules : list json) :
  missingFromMap T rules = []
  <-> forall r, In r rules -> hasKey T (get_field r (lit "name")) = true.
Proof.
  unfold missingFromMap. induction rules as [|x rules IH].
  - split; [intros _ r []|reflexivity].
  - cbn [List.map List.filter].
    destruct (hasKey T (get_field x (lit "name"))) eqn:E; cbn [negb].
    + rewrite IH. split.
      * intros H r [<-|Hr]; [exact E|now apply H].
      * intros H r Hr. apply H. now right.
    + split; [discriminate|]. intros H.
      specialize (H x (or_introl eq_refl)). congruence.
Qed.

Lemma hasKey_not_null (T : gmap str tierInfo) (rules : list json) :
  (forall r, In r rules -> hasKey T (get_field r (lit "name")) = true) ->
  existsb isNull rules = false.
Proof.
  intros H. destruct (existsb isNull rules) eqn:E; [|reflexivity].
  apply existsb_exists in E as (r & Hr & N). specialize (H r Hr).
  destruct r; discriminate.
Qed.

(** X16.  On a file on which the model of [JSON.parse] gives an answer
    (a value or a [SyntaxError]), the annotator ends normally exactly
    when the file parses to an array in which every element has a name
    with an entry in the table.  In every other case the run ends with
    the exit status 1 and the file is left as it was: when the text is
    no JSON the run ends by [process.exit(1)], and it never writes
    before it has checked every name. *)
Theorem X16_annotator_outcome (TIER_MAP : gmap str tierInfo) (file : str) :
  Annotator.decided file = true ->
  (fst (Annotator.main TIER_MAP file) = Done
   <-> exists rules,
         JSON_parse (stripWrapper file) = POk (JArr rules)
         /\ forall r,
              In r rules ->
              hasKey TIER_MAP (get_field r (lit "name")) = true)
  /\ (fst (Annotator.main TIER_MAP file) <> Done ->
      snd (Annotator.main TIER_MAP file) = file
      /\ exit_status (fst (Annotator.main TIER_MAP file)) = Some 1%Z)
  /\ (JSON_parse (stripWrapper file) = PSyntax ->
      Annotator.main TIER_MAP file = (ExitFailure, file)).
Proof.
  unfold main, decided.
  destruct (JSON_parse (stripWrapper file)) as [v| | |] eqn:P;
    try discriminate; intros _.
  - destruct v as [| | | |rules|];
      try (cbn [run fst snd exit_status]; repeat split;
           try discriminate; try congruence;
           intros (rules & [=] & _)).
    unfold run.
    destruct (existsb isNull rules) eqn:N.
    + cbn [fst snd exit_status].
      repeat split; try discriminate; try congruence.
      intros (rules' & [= <-] & H).
      rewrite (hasKey_not_null TIER_MAP rules H) in N. discriminate.
    + destruct (missingFromMap TIER_MAP rules) as [|x l] eqn:M.
      * pose proof (proj1 (missing_nil TIER_MAP rules) M) as H.
        destruct (run_succeeds TIER_MAP rules H) as (rules' & A & _).
        rewrite A. cbn [fst snd]. repeat split; try congruence.
        intros _. now exists rules.
      * cbn [fst snd exit_status].
        repeat split; try discriminate; try congruence.
        intros (rules' & [= <-] & H).
        apply (missing_nil TIER_MAP rules) in H. congruence.
  - cbn [fst snd exit_status].
    repeat split; try discriminate; try congruence.
    intros (rules & [=] & _).
Qed.

Lemma annotate_agree (T1 T2 : gmap str tierInfo) (r : json) :
  (forall s, get_field r (lit "name") = Some (JStr s) -> T1 !! s = T2 !! s) ->
  annotate T1 r = annotate T2 r /\
  hasKey T1 (get_field r (lit "name")) = hasKey T2 (get_field r (lit "name")).
Proof.
  intros H. unfold annotate, hasKey. destruct r as [| | | | |o]; try now split.
  cbn [get_field] in *.
  destruct (obj_get o (lit "name")) as [[| | |s| |]|]; try now split.
  rewrite (H s eq_refl). now split.
Qed.

Lemma run_agree (T1 T2 : gmap str tierInfo) (v : json) :
  (forall rules r s,
      v = JArr rules -> In r rules ->
      get_field r (lit "name") = Some (JStr s) -> T1 !! s = T2 !! s) ->
  run T1 v = run T2 v.
Proof.
  intros H. unfold run. destruct v as [| | | |rules|]; try reflexivity.
  specialize (H rules). destruct (existsb isNull rules); [reflexivity|].
  assert (A : forall r, In r rules ->
              annotate T1 r = annotate T2 r
              /\ hasKey T1 (get_field r (lit "name"))
                 = hasKey T2 (get_field r (lit "name"))).
  { intros r Hr. apply annotate_agree. intros s. now apply H. }
  clear H.
  assert (M : missingFromMap T1 rules = missingFromMap T2 rules
              /\ mapM (annotate T1) rules = mapM (annotate T2) rules).
  { unfold missingFromMap. induction rules as [|x rules IH]; [now split|].
    destruct (A x (or_introl eq_refl)) as (Ax & Hx).
    destruct IH as (IH1 & IH2); [intros r Hr; apply A; now right|].
    cbn [List.map List.filter]. rewrite Hx, IH1. split; [reflexivity|].
    cbn. rewrite Ax. cbn in IH2. now rewrite IH2. }
  destruct M as (-> & ->). reflexivity.
Qed.

(** X17.  On a file on which the model of [JSON.parse] gives an answer,
    the annotator reads the table only at the names of the catalogue:
    two tables that agree on every name of a record of the file give
    the same outcome and the same file.  Entries for other names, about
    which the script only warns, change nothing. *)
Theorem X17_table_read_at_names (T1 T2 : gmap str tierInfo) (file : str) :
  Annotator.decided file = true ->
  (forall rules r s,
      JSON_parse (stripWrapper file) = POk (JArr rules) ->
      In r rules ->
      get_field r (lit "name") = Some (JStr s) ->
      T1 !! s = T2 !! s) ->
  Annotator.main T1 file = Annotator.main T2 file.
Proof.
  intros _ H. unfold main.
  destruct (JSON_parse (stripWrapper file)) as [v| | |]; try reflexivity.
  rewrite (run_agree T1 T2 v); [reflexivity|].
  intros rules r s -> Hr Hs. exact (H rules r s eq_refl Hr Hs).
Qed.

Section Pipeline.

Import Builder.

(** The property names of a record of the converter. *)
Lemma rule_json_keys (r : rule) :
  exists o,
    rule_json r = JObj o
    /\ obj_get o (lit "name") = Some (JStr (name r))
    /\ ~ In (lit "tier") (List.map fst o)
    /\ ~ In (lit "claude_comment") (List.map fst (o ++ [(lit "tier", JNull)])).
Proof.
  unfold rule_json. eexists. split; [reflexivity|].
  split; [reflexivity|].
  destruct (properties r), (maxLanguageVersion r), (minLanguageVersion r);
    cbn [opt_key app List.map fst]; split; vm_compute;
    intuition discriminate.
Qed.

Lemma annotate_rule_json (T : gmap str tierInfo) (r : rule) (ti : tierInfo) :
  T !! name r = Some ti ->
  annotate T (rule_json r) = Some (Pipeline.annotated r ti).
Proof.
  intros H. unfold Pipeline.annotated.
  destruct (rule_json_keys r) as (o & -> & G & N1 & N2).
  unfold annotate. rewrite G, H.
  rewrite (obj_set_new o _ _ N1).
  rewrite obj_set_new.
  - now rewrite <- app_assoc.
  - rewrite List.map_app in *. exact N2.
Qed.

(** X18.  The converter followed by the annotator: when every
    priority of the catalogue is an integer of magnitude at most 2^53
    and every name has an entry in the table, the annotator run on the file that the
    converter wrote ends normally and writes the same catalogue, in
    the same order, each record with [tier] and [claude_comment] of
    its entry added after its other fields. *)
Theorem X18_converter_then_annotator (TIER_MAP : gmap str tierInfo)
  (localeCompare : str -> str -> Z) (files : list (str * str)) :
  let rules := sortRules localeCompare (collect files) in
  forallb safe_priority rules = true ->
  (forall r, In r rules -> is_Some (TIER_MAP !! name r)) ->
  exists entries,
    Forall2 (fun r ti => TIER_MAP !! name r = Some ti) rules entries
    /\ Annotator.main TIER_MAP (Builder.main localeCompare files)
       = (Done,
          wrap (JArr (List.map (fun p => Pipeline.annotated (fst p) (snd p))
                               (combine rules entries)))).
Proof.
  intros rules F H. unfold Builder.main. fold rules.
  assert (E : exists entries,
             Forall2 (fun r ti => TIER_MAP !! name r = Some ti) rules entries
             /\ mapM (annotate TIER_MAP) (List.map rule_json rules)
                = Some (List.map (fun p => Pipeline.annotated (fst p) (snd p))
                                 (combine rules entries))).
  { clear F. induction rules as [|r rules' IH].
    - exists []. split; [constructor|reflexivity].
    - destruct (H r (or_introl eq_refl)) as (ti & Hti).
      destruct IH as (entries & F2 & M); [intros x Hx; apply H; now right|].
      exists (ti :: entries). split; [now constructor|].
      cbn [List.map combine fst snd mapM].
      rewrite (annotate_rule_json TIER_MAP r ti Hti), M.
      reflexivity. }
  destruct E as (entries & F2 & M).
  exists entries. split; [exact F2|].
  unfold Annotator.main.
  rewrite (parse_wrap (catalogue_json rules) (wfb_catalogue rules F)).
  unfold catalogue_json, run.
  assert (K : forall x, In x (List.map rule_json rules) ->
              hasKey TIER_MAP (get_field x (lit "name")) = true).
  { intros x Hx. apply in_map_iff in Hx as (r & <- & Hr).
    destruct (rule_json_keys r) as (o & -> & G & _).
    cbn [get_field]. rewrite G. unfold hasKey.
    apply bool_decide_eq_true. exact (H r Hr). }
  rewrite (hasKey_not_null TIER_MAP _ K).
  rewrite (proj2 (missing_nil TIER_MAP _) K), M. reflexivity.
Qed.

End Pipeline.

End AnnotatorMore.

(* ===================================================================== *)
(** * The further properties on sample inputs *)
(* ===================================================================== *)

Section MoreSamples.

Import Builder Examples MoreExamples.

Lemma X1_witness :
  exists sc,
    Counts.updateCounts sampleFilters oneRule = Some sc
    /\ Counts.countOf (Counts.byCategory sc) (lit "design") = Some 1.
Proof.
  pose proof (X1_counts_are_facets asciiLower eq_refl sampleFilters oneRule
                eq_refl) as H.
  destruct H as (sc & E & C & _). exists sc. split; [exact E|].
  destruct (C (lit "design")) as (out & A & K).
  - vm_compute. tauto.
  - repeat constructor.
  - rewrite K. vm_compute in A. injection A as <-. reflexivity.
Defined.

Lemma X2_witness :
  StronglySorted Z.lt (omap Paging.numbered (Paging.items 10 5))
  /\ In 5%Z (omap Paging.numbered (Paging.items 10 5)).
Proof.
  destruct (X2_bar_numbers 10 5 eq_refl ltac:(lia)) as (S & _ & _ & I & _).
  split; [exact S|exact I].
Defined.

Lemma X3_witness :
  exists z,
    Paging.data_page (Paging.Button (lit "3") 3) = Z_str z
    /\ (0 <= z <= Z.of_nat (Viewer.totalPages threePages) + 1)%Z.
Proof.
  destruct (X3_click_goes_to_named_page threePages
              (Paging.Button (lit "3") 3))
    as (z & E & R & _).
  - vm_compute. split; discriminate.
  - vm_compute. reflexivity.
  - vm_compute. tauto.
  - exists z. split; [exact E|exact R].
Defined.

Lemma X4_witness :
  exists p0,
    Paging.loadRules sampleFilters (Some (JArr manyRules)) = Some p0
    /\ Paging.renderRules (Paging.onClick 2 p0)
       = Some (Paging.onClick 2 p0).
Proof.
  destruct (Paging.loadRules sampleFilters (Some (JArr manyRules)))
    as [p0|] eqn:L; [|vm_compute in L; discriminate L].
  exists p0. split; [reflexivity|].
  destruct (X4_session_invariant asciiLower sampleFilters manyRules
              (Paging.onClick 2 p0)) as (_ & _ & _ & _ & H & _).
  - vm_compute. reflexivity.
  - eapply Paging.ReachStep; [|apply Paging.StepClick].
    apply Paging.ReachLoad. exact L.
  - exact H.
Defined.

Lemma X6_witness :
  Detail.formatDescription (Detail.formatDescription (lit "a b"))
  = Detail.formatDescription (lit "a b").
Proof. apply X6_format_twice. vm_compute. discriminate. Defined.

Lemma X7_witness : Detail.formatDescription [32%N] = [].
Proof.
  exact (proj1 (X7_blank_description [32%N] ltac:(discriminate) eq_refl)).
Defined.

Lemma X8_witness :
  Detail.formatDescription
    (description (Rule (lit "Foo") design (lit "Design") (lit "1.0")
                       (lit "msg") [] [] (lit "d") (Fin 2) [] None None
                       None))
  <> [].
Proof.
  assert (H : In (Rule (lit "Foo") design (lit "Design") (lit "1.0")
                       (lit "msg") [] [] (lit "d") (Fin 2) [] None None
                       None)
                 (parseXmlFile docPriority2 design))
    by (vm_compute; left; reflexivity).
  destruct (X8_description_tab_not_blank docPriority2 design _ H)
    as (_ & N & _).
  exact N.
Defined.

Lemma X9_witness :
  length (Debounce.timers
            (Debounce.DState 300 2 [] (Some 1) [(300, 7)]))
  <= 1.
Proof.
  exact (proj1 (proj2 (X9_debounce nat 300 0
                         [Debounce.Call 7; Debounce.Tick 300;
                          Debounce.Fire 1]
                         (Debounce.DState 300 2 [] (Some 1) [(300, 7)])
                         eq_refl))).
Defined.

Lemma X10_witness :
  ~ In dquote
       (name (Rule (lit "Foo") design (lit "Design") (lit "1.0")
                   (lit "msg") [] [] (lit "d") (Fin 2) [] None None None)).
Proof.
  assert (H : In (Rule (lit "Foo") design (lit "Design") (lit "1.0")
                       (lit "msg") [] [] (lit "d") (Fin 2) [] None None
                       None)
                 (parseXmlFile docPriority2 design))
    by (vm_compute; left; reflexivity).
  destruct (X10_attribute_texts_hold_no_quote docPriority2 design _ H)
    as (N & _).
  exact N.
Defined.

Lemma X11_witness :
  Forall (fun ex => ex <> [] /\ trim ex = ex)
    (examples (Rule (lit "Foo") design (lit "Design") (lit "1.0")
                    (lit "msg") [] [] (lit "d") (Fin 2) [] None None
                    None)).
Proof.
  assert (H : In (Rule (lit "Foo") design (lit "Design") (lit "1.0")
                       (lit "msg") [] [] (lit "d") (Fin 2) [] None None
                       None)
                 (parseXmlFile docPriority2 design))
    by (vm_compute; left; reflexivity).
  destruct (X11_record_values docPriority2 design _ H) as (E & _).
  exact E.
Defined.

Lemma X12_witness :
  stripCdata (lit "<![CDATA[" ++ lit "if (x) {}" ++ lit "]]>")
  = lit "if (x) {}".
Proof.
  exact (proj2 (X12_stripCdata (lit "if (x) {}") eq_refl eq_refl)).
Defined.

(** The address of the sample rule: the base address of the PMD site
    and the path. *)
Lemma X13_witness :
  List.map externalInfoUrl (parseXmlFile docUrl design)
  = [lit "https://docs.pmd-code.org/latest"
       ++ lit "/pmd_rules_java_design.html#foo"].
Proof.
  pose proof (X13_base_address docUrl design) as H.
  destruct (ruleBlocks docUrl design) as [|m [|m' ms]] eqn:Eb;
    try (vm_compute in Eb; discriminate Eb).
  destruct (parseXmlFile docUrl design) as [|r [|r' rs]] eqn:Ep;
    try (vm_compute in Ep; discriminate Ep).
  inversion H as [|m0 r0 ms0 rs0 Hr Hrest]; subst.
  destruct Hr as (_ & _ & _ & _ & G).
  cbn [List.map]. rewrite (G (lit "/pmd_rules_java_design.html#foo"));
    [reflexivity| |].
  - vm_compute in Eb. injection Eb as <-. vm_compute. reflexivity.
  - vm_compute. intuition discriminate.
Defined.

Lemma X14_witness :
  extractFirstElement
    (lit "<description>d</description>" ++ (lit "<" ++ lit "priority")
       ++ [] ++ lit ">" ++ lit " 3 "
       ++ (lit "</" ++ lit "priority" ++ lit ">") ++ lit "<example/>")
    (lit "priority")
  = trim (stripCdata (lit " 3 ")).
Proof.
  apply X14_first_element.
  - vm_compute. reflexivity.
  - vm_compute. reflexivity.
  - intros [].
  - vm_compute. reflexivity.
Defined.

Lemma X15_witness :
  extractAttr
    (attrsBefore ++ lit "since" ++ lit " " ++ lit "=" ++ []
       ++ dquote :: lit "1.0" ++ dquote :: attrsAfter)
    (lit "since")
  = lit "1.0".
Proof.
  apply X15_attribute_value.
  - vm_compute. reflexivity.
  - right. exists (lit "name=" ++ q "Foo"), 32%N. split; reflexivity.
  - vm_compute. reflexivity.
  - reflexivity.
  - reflexivity.
  - vm_compute. intuition discriminate.
Defined.

(** The run on the catalogue with the rule [Bar], which the table
    lacks: the file stays as it was and the exit status is 1. *)
Lemma X16_witness :
  snd (Annotator.main sampleTable barFile) = barFile
  /\ Annotator.exit_status (fst (Annotator.main sampleTable barFile))
     = Some 1%Z.
Proof.
  destruct (X16_annotator_outcome sampleTable barFile) as (_ & H & _);
    [vm_compute; reflexivity|].
  apply H. vm_compute. discriminate.
Defined.

Lemma X17_witness :
  Annotator.main sampleTable fooFile
  = Annotator.main
      (<[lit "Other" := Annotator.TierInfo Annotator.TierSkip []]>
         sampleTable)
      fooFile.
Proof.
  apply X17_table_read_at_names; [vm_compute; reflexivity|].
  intros rules r s P Hr Hs. vm_compute in P. injection P as <-.
  destruct Hr as [<-|[]]. vm_compute in Hs. injection Hs as <-.
  vm_compute. reflexivity.
Defined.

Lemma X18_witness :
  fst (Annotator.main sampleTable
         (Builder.main codeUnitCompare
            [(lit "design_ko.xml", docPriority2)]))
  = Annotator.Done.
Proof.
  destruct (X18_converter_then_annotator sampleTable codeUnitCompare
              [(lit "design_ko.xml", docPriority2)])
    as (entries & _ & E).
  - vm_compute. reflexivity.
  - intros r Hr. vm_compute in Hr. destruct Hr as [<-|[]].
    vm_compute. eexists. reflexivity.
  - rewrite E. reflexivity.
Defined.

Lemma X19_witness : Paging.gapsMarked 0 false (Paging.items 10 5) = true.
Proof.
  exact (X19_ellipsis_where_pages_are_left_out 10 5 eq_refl ltac:(lia)).
Defined.

Lemma X20_witness :
  Detail.formatDescription
    (lit "Use " ++ 96%N :: lit "final" ++ 96%N :: lit " here.")
  = lit "<p>" ++ lit "Use " ++ lit "<code>" ++ lit "final"
      ++ lit "</code>" ++ lit " here." ++ lit "</p>".
Proof.
  apply (X20_paragraph_with_code (lit "Use ") (lit "final") (lit " here."));
    try (vm_compute; reflexivity); try (vm_compute; intuition discriminate).
Defined.

(** A click on the third button of the bar of the first of three pages
    (the button of page 2) shows page 2. *)
Example click_sample :
  Viewer.currentPage
    (Paging.vars
       (Paging.onClick 2
          (Paging.rendered
             (Paging.Page (Viewer.State manyRules manyRules 1) []))))
  = 2.
Proof. vm_compute. reflexivity. Qed.

(** A record that cannot be drawn, on the first page and on the second
    page.  On the first page the load ends in the [catch].  On the
    second page the load succeeds; the click on the button of page 2
    then sets the page number, the template of the card throws, and the
    bar stays the one of page 1. *)
Example undrawable_sample :
  Paging.loadRules (Viewer.Filters [] [] []) (Some (JArr [oddRule])) = None
  /\ (exists p0,
        Paging.loadRules (Viewer.Filters [] [] []) (Some (JArr oddLast))
        = Some p0
        /\ Viewer.currentPage (Paging.vars (Paging.onClick 2 p0)) = 2
        /\ Paging.bar (Paging.onClick 2 p0) = Paging.bar p0
        /\ Paging.renderRules (Paging.onClick 2 p0) = None).
Proof.
  split; [vm_compute; reflexivity|].
  eexists. split; [vm_compute; reflexivity|].
  repeat split; vm_compute; reflexivity.
Qed.

(** The bar on page 5 of 10: the first page, an ellipsis, the pages 3
    to 7, an ellipsis, the last page, between the two arrows. *)
Example bar_sample :
  Paging.items 10 5
  = [Paging.Arrow false 4 9664%N; Paging.Jump 1; Paging.Dots;
     Paging.Number false 3; Paging.Number false 4; Paging.Number true 5;
     Paging.Number false 6; Paging.Number false 7; Paging.Dots;
     Paging.Jump 10; Paging.Arrow false 6 9654%N; Paging.Info 5 10].
Proof. vm_compute. reflexivity. Qed.

(** Two paragraphs, the second with a code span. *)
Example format_sample :
  Detail.formatDescription
    (lit "One." ++ [10; 10; 10]%N ++ lit "Two " ++ 96%N :: lit "x"
       ++ [96%N])
  = lit "<p>One.</p>" ++ [10%N] ++ lit "<p>Two <code>x</code></p>".
Proof. vm_compute. reflexivity. Qed.

(** Two calls in a row: the first timer is cleared, [func] runs once,
    with the arguments of the second call. *)
Example debounce_sample :
  option_map (@Debounce.calls nat)
    (Debounce.run 300
       [Debounce.Call 1; Debounce.Tick 100; Debounce.Call 2;
        Debounce.Tick 300; Debounce.Fire 2]
       (Debounce.init 0))
  = Some [(400, 2)]
  /\ Debounce.run 300
       [Debounce.Call 1; Debounce.Tick 100; Debounce.Call 2;
        Debounce.Tick 300; Debounce.Fire 1]
       (Debounce.init 0)
     = None.
Proof. split; vm_compute; reflexivity. Qed.

End MoreSamples.
